(** * PNL dashboard: a shallow embedding of [src/App.jsx]

    The embedding follows the component function [BudgetDashboard]:
    the three persisted stores (ledger, custom templates, settings), the
    lazy month creation effect, the aggregation for the current view, the
    mutation handlers with their single-slot undo, and the backup adapter.

    Modelling conventions.
    - A JavaScript object used as a dictionary is a [gmap string _]; only
      own, string-keyed properties are modelled.
    - Amounts are exact integers ([Z]).  The code holds them as IEEE
      doubles; the two agree on the integers of magnitude at most 2^53
      and on the sums of them that stay in that range, and the
      statements about sums say so ([magnitude]).  The aggregation is
      embedded over doubles as well ([Doubles]), to show what rounding
      does outside that range.  A numeric reading that may fail to be a
      number (the result of [Number(text)]) has type [num].
    - The text of a backup is a [string], written by [JSON.stringify]
      and read by [JSON.parse], both embedded for the values the stores
      hold: objects, arrays, texts, booleans, [null] and integers, and
      the numbers that are not finite, which are written as [null].
    - React state is explicit: handlers are functions on a [State] record,
      functional updaters ([setData(prev => ...)]) are functions on the
      store they update, and a closure that outlives its render carries the
      values it captured ([Env]). *)

From Stdlib Require Import ZArith Lia Ascii PrimFloat.
From stdpp Require Import gmap strings list fin_maps sorting pretty.

Local Open Scope string_scope.
Local Open Scope Z_scope.

(** ** Data model *)

Inductive bucket := income | saving | investment | expense.

#[global] Instance bucket_eq_dec : EqDecision bucket.
Proof. solve_decision. Defined.

(** A month record: four buckets, each a dictionary category -> amount. *)
Record Month := mkMonth {
  m_income : gmap string Z;
  m_saving : gmap string Z;
  m_investment : gmap string Z;
  m_expense : gmap string Z
}.

(** [month[k]] *)
Definition get (k : bucket) (m : Month) : gmap string Z :=
  match k with
  | income => m_income m
  | saving => m_saving m
  | investment => m_investment m
  | expense => m_expense m
  end.

(** [{ ...month, [k]: b }] *)
Definition set (k : bucket) (b : gmap string Z) (m : Month) : Month :=
  match k with
  | income => mkMonth b (m_saving m) (m_investment m) (m_expense m)
  | saving => mkMonth (m_income m) b (m_investment m) (m_expense m)
  | investment => mkMonth (m_income m) (m_saving m) b (m_expense m)
  | expense => mkMonth (m_income m) (m_saving m) (m_investment m) b
  end.

(** Four ordered lists of category names; the shape of [BASE_TEMPLATES],
    of [userTemplates] and of [TEMPLATES]. *)
Record Templates := mkTemplates {
  t_income : list string;
  t_saving : list string;
  t_investment : list string;
  t_expense : list string
}.

Definition names (k : bucket) (t : Templates) : list string :=
  match k with
  | income => t_income t
  | saving => t_saving t
  | investment => t_investment t
  | expense => t_expense t
  end.

Definition BASE_TEMPLATES : Templates := {|
  t_income := ["Salary"; "Cash"; "Music"; "Fitness"; "Carry Over"];
  t_saving := ["Saving Blanket"; "Cash"; "Current"];
  t_investment := ["Apt Valuation"; "Bitcoin"; "Stocks"; "Pension Valuation"];
  t_expense := ["Mortgage"; "Jiujitsu"; "CrossFit"; "Food Shop"; "Leisure/Concert";
                "Company car (N/A)"; "TV/Mobile/Apps"; "Supplements"; "BONGO Dog";
                "Electricity"; "Other"; "Takeaway"]
|}.

(** The initial and the reset value of [userTemplates]. *)
Definition noTemplates : Templates := mkTemplates [] [] [] [].

(** The memoised [TEMPLATES]: built-ins first, then the custom names. *)
Definition TEMPLATES (userTemplates : Templates) : Templates := {|
  t_income := t_income BASE_TEMPLATES ++ t_income userTemplates;
  t_saving := t_saving BASE_TEMPLATES ++ t_saving userTemplates;
  t_investment := t_investment BASE_TEMPLATES ++ t_investment userTemplates;
  t_expense := t_expense BASE_TEMPLATES ++ t_expense userTemplates
|}.

(** [Object.fromEntries]: entries are written in order, a later entry
    overwrites an earlier one with the same key. *)
Definition fromEntries {V} (l : list (string * V)) : gmap string V :=
  foldl (λ o kv, <[kv.1 := kv.2]> o) ∅ l.

(** [Object.fromEntries(cats.map((c) => [c, 0]))] *)
Definition zeroed (cats : list string) : gmap string Z :=
  fromEntries ((λ c, (c, 0)) <$> cats).

Definition emptyMonth (templates : Templates) : Month := {|
  m_income := zeroed (t_income templates);
  m_saving := zeroed (t_saving templates);
  m_investment := zeroed (t_investment templates);
  m_expense := zeroed (t_expense templates)
|}.

(** The ledger store [data]. *)
Record Data := mkData { months : gmap string Month }.

(** [createInitialData], for the month key [monthKey] computed from the
    clock. *)
Definition createInitialData (monthKey : string) (templates : Templates) : Data :=
  mkData {[ monthKey := emptyMonth templates ]}.

(** ** Lazy creation of the selected month *)

(** [Object.keys(o).sort()]: the keys in ascending code-unit order. *)
Definition sortedKeys {V} (o : gmap string V) : list string :=
  merge_sort String.le (map_to_list o).*1.

(** A string is truthy when it is not empty. *)
Definition truthyString (s : string) : bool := negb (String.eqb s "").

(** [keys.filter((k) => k < selectedMonth).pop()] *)
Definition prevKeyOf {V} (selectedMonth : string) (o : gmap string V) : option string :=
  last (List.filter (λ k, String.ltb k selectedMonth) (sortedKeys o)).

(** The updater passed to [setData] by the effect.  [prevKey] is one of
    the keys of [prev.months], so the lookup [prev.months[prevKey]] finds a
    record; the default of the lookup is never used. *)
Definition ensureUpdater (T : Templates) (selectedMonth : string) (prev : Data) : Data :=
  let carry :=
    match prevKeyOf selectedMonth (months prev) with
    | Some prevKey =>
        if truthyString prevKey
        then default (emptyMonth T) (months prev !! prevKey)
        else emptyMonth T
    | None => emptyMonth T
    end in
  let nextMonth := emptyMonth T in
  let nextMonth := set saving (get saving carry ∪ get saving nextMonth) nextMonth in
  let nextMonth := set investment (get investment carry ∪ get investment nextMonth) nextMonth in
  mkData (<[selectedMonth := nextMonth]> (months prev)).

(** The effect itself: nothing happens when the selected month exists. *)
Definition ensureSelected (T : Templates) (selectedMonth : string) (data : Data) : Data :=
  match months data !! selectedMonth with
  | Some _ => data
  | None => ensureUpdater T selectedMonth data
  end.

(** ** Aggregation for the current view *)

(** The inner loop of [aggregated] for one bucket of one month:
    [acc[k][cat] = (acc[k][cat] || 0) + Number(val)] for every entry. *)
Definition addEntries (acc entries : gmap string Z) : gmap string Z :=
  map_fold (λ cat val a, <[cat := default 0 (a !! cat) + val]> a) acc entries.

(** [{ income: {}, saving: {}, investment: {}, expense: {} }] *)
Definition noTotals : Month := mkMonth ∅ ∅ ∅ ∅.

(** [for (const k of Object.keys(acc)) ...] for one month record. *)
Definition addMonth (acc month : Month) : Month :=
  foldl (λ a k, set k (addEntries (get k a) (get k month)) a) acc
        [income; saving; investment; expense].

(** [aggregated]: months missing from the ledger are skipped. *)
Definition aggregated (monthKeysForView : list string) (data : Data) : Month :=
  foldl (λ acc m, match months data !! m with
                  | None => acc
                  | Some month => addMonth acc month
                  end) noTotals monthKeysForView.

(** [sum(obj)] *)
Definition sum (obj : gmap string Z) : Z := map_fold (λ _ b a, a + b) 0 obj.

Definition cashFlow (agg : Month) : Z := sum (m_income agg) - sum (m_expense agg).
Definition netWorthValue (agg : Month) : Z := sum (m_saving agg) + sum (m_investment agg).

(** ** Application state *)

(** A numeric reading of a text: [Number(text)].  [NaN] is the reading of
    a text that is not a number.  An infinite reading needs IEEE overflow
    (a text such as 1e999) and is not modelled. *)
Inductive num := Fin (z : Z) | NaN.

(** [Number.isFinite] *)
Definition isFinite (n : num) : bool := if n is Fin _ then true else false.

(** [n || 0] on numbers. *)
Definition orZero (n : num) : Z := if n is Fin z then z else 0.

(** The value of [breakdown.bucket] when it is not [null]:
    a bucket name or ['saving-invest']. *)
Inductive chart := Plain (k : bucket) | SavingInvest.

(** [mapTitleToBucket] on the four chart titles. *)
Inductive title := ExpensesCosts | SavingInvestments | IncomeTitle | NetWorth.

Definition mapTitleToBucket (t : title) : option chart :=
  match t with
  | ExpensesCosts => Some (Plain expense)
  | IncomeTitle => Some (Plain income)
  | SavingInvestments => Some SavingInvest
  | NetWorth => None
  end.

Record Settings := mkSettings {
  currency : string;
  fyStartMonth : Z;
  showMoMColors : bool;
  compactMode : bool
}.

Definition defaultSettings : Settings := mkSettings "EUR" 1 true false.

(** What the functions of one render see: the values of [data],
    [selectedMonth], [TEMPLATES] and [breakdown.bucket] at that render. *)
Record Env := mkEnv {
  e_data : Data;
  e_selectedMonth : string;
  e_TEMPLATES : Templates;
  e_bucket : option chart
}.

(** The undo closure [() => updateAmount(cat, val)] kept in the snackbar:
    the [updateAmount] of the render that created it, and its arguments. *)
Record Undo := mkUndo { u_env : Env; u_cat : string; u_val : Z }.

Record State := mkState {
  data : Data;
  userTemplates : Templates;
  settings : Settings;
  selectedMonth : string;
  breakdownBucket : option chart;
  snackbar : option Undo;
  showMenu : bool;
  showAdder : option bucket;
  newCat : string;
  newOther : string;
  (** the reading [Number(newAmt)] of the amount field *)
  newAmt : num;
  rememberSubheading : bool
}.

Definition setData (f : Data → Data) (s : State) : State :=
  mkState (f (data s)) (userTemplates s) (settings s) (selectedMonth s)
    (breakdownBucket s) (snackbar s) (showMenu s) (showAdder s)
    (newCat s) (newOther s) (newAmt s) (rememberSubheading s).

Definition setUserTemplates (f : Templates → Templates) (s : State) : State :=
  mkState (data s) (f (userTemplates s)) (settings s) (selectedMonth s)
    (breakdownBucket s) (snackbar s) (showMenu s) (showAdder s)
    (newCat s) (newOther s) (newAmt s) (rememberSubheading s).

Definition setSettings (x : Settings) (s : State) : State :=
  mkState (data s) (userTemplates s) x (selectedMonth s)
    (breakdownBucket s) (snackbar s) (showMenu s) (showAdder s)
    (newCat s) (newOther s) (newAmt s) (rememberSubheading s).

Definition setSelectedMonth (k : string) (s : State) : State :=
  mkState (data s) (userTemplates s) (settings s) k
    (breakdownBucket s) (snackbar s) (showMenu s) (showAdder s)
    (newCat s) (newOther s) (newAmt s) (rememberSubheading s).

Definition setBreakdownBucket (b : option chart) (s : State) : State :=
  mkState (data s) (userTemplates s) (settings s) (selectedMonth s)
    b (snackbar s) (showMenu s) (showAdder s)
    (newCat s) (newOther s) (newAmt s) (rememberSubheading s).

Definition setSnackbar (u : option Undo) (s : State) : State :=
  mkState (data s) (userTemplates s) (settings s) (selectedMonth s)
    (breakdownBucket s) u (showMenu s) (showAdder s)
    (newCat s) (newOther s) (newAmt s) (rememberSubheading s).

(** The adder form: menu, chosen bucket and the four inputs. *)
Definition setForm (menu : bool) (adder : option bucket) (cat other : string)
    (amt : num) (remember : bool) (s : State) : State :=
  mkState (data s) (userTemplates s) (settings s) (selectedMonth s)
    (breakdownBucket s) (snackbar s) menu adder cat other amt remember.

(** [showUndo(label, undo)]; the label and the expiry timer are not
    modelled. *)
Definition showUndo (u : Undo) (s : State) : State := setSnackbar (Some u) s.

Definition envOf (s : State) : Env :=
  mkEnv (data s) (selectedMonth s) (TEMPLATES (userTemplates s)) (breakdownBucket s).

(** The effect that follows a change of [selectedMonth] or [TEMPLATES]. *)
Definition ensureEffect (s : State) : State :=
  setData (ensureSelected (TEMPLATES (userTemplates s)) (selectedMonth s)) s.

(** ** Mutation handlers *)

(** White space removed by [trim]; only the ASCII white space characters
    are modelled. *)
Definition isSpace (c : ascii) : bool :=
  Ascii.eqb c " " || Ascii.eqb c "009" || Ascii.eqb c "010" ||
  Ascii.eqb c "011" || Ascii.eqb c "012" || Ascii.eqb c "013".

Fixpoint trimStart (s : string) : string :=
  match s with
  | String c s' => if isSpace c then trimStart s' else s
  | EmptyString => EmptyString
  end.

Definition trim (s : string) : string :=
  String.rev (trimStart (String.rev (trimStart s))).

(** [(newOther && newOther.trim()) ? newOther.trim() : newCat] *)
Definition catToUse (s : State) : string :=
  if truthyString (newOther s) && truthyString (trim (newOther s))
  then trim (newOther s) else newCat s.

(** [Array.from(new Set(l))]: the first occurrence of each name, in order. *)
Definition uniq (l : list string) : list string :=
  foldl (λ (acc : list string) x, if decide (x ∈ acc) then acc else (acc ++ [x])%list) [] l.

Definition setNames (k : bucket) (l : list string) (t : Templates) : Templates :=
  match k with
  | income => mkTemplates l (t_saving t) (t_investment t) (t_expense t)
  | saving => mkTemplates (t_income t) l (t_investment t) (t_expense t)
  | investment => mkTemplates (t_income t) (t_saving t) l (t_expense t)
  | expense => mkTemplates (t_income t) (t_saving t) (t_investment t) l
  end.

(** The updater of [setUserTemplates] in [addItem]. *)
Definition rememberName (kind : bucket) (name : string) (prev : Templates) : Templates :=
  setNames kind (uniq (names kind prev ++ [name])) prev.

(** [data.months[key] || emptyMonth(TEMPLATES)] *)
Definition monthOr (T : Templates) (key : string) (d : Data) : Month :=
  default (emptyMonth T) (months d !! key).

(** The updater of [setData] in [addItem]. *)
Definition addItemUpdater (T : Templates) (selectedMonth : string) (kind : bucket)
    (cat : string) (amt : Z) (prev : Data) : Data :=
  let base := monthOr T selectedMonth prev in
  let m := set kind (<[cat := default 0 (get kind base !! cat) + amt]> (get kind base)) base in
  mkData (<[selectedMonth := m]> (months prev)).

(** [addItem(kind)] in the render of state [s].  [kind] is one of the four
    bucket names, so [!kind] is false. *)
Definition addItem (kind : bucket) (s : State) : State :=
  match newAmt s with
  | NaN => s
  | Fin amt =>
      let cat := catToUse s in
      if negb (truthyString cat) then s else
      let T := TEMPLATES (userTemplates s) in
      let render := envOf s in
      let prevMonth := monthOr T (selectedMonth s) (data s) in
      let prevVal := default 0 (get kind prevMonth !! cat) in
      let s := setData (addItemUpdater T (selectedMonth s) kind cat amt) s in
      let s := showUndo (mkUndo render cat prevVal) s in
      let s := if truthyString (newOther s) && rememberSubheading s
               then setUserTemplates (rememberName kind (trim (newOther s))) s
               else s in
      setForm false None "" "" (Fin 0) (rememberSubheading s) s
  end.

(** [currentMonthBucket()] followed by the computation of [oldVal]. *)
Definition oldValOf (b : chart) (before : Month) (cat : string) : Z :=
  match b with
  | SavingInvest =>
      default 0 (m_saving before !! cat) + default 0 (m_investment before !! cat)
  | Plain k => default 0 (get k before !! cat)
  end.

(** The local [applyTo(k)] of the updater: the month written back. *)
Definition applyTo (base : Month) (cat : string) (newAmtNum : num) (k : bucket) : Month :=
  set k (<[cat := orZero newAmtNum]> (get k base)) base.

(** [Object.prototype.hasOwnProperty.call(o, cat)] *)
Definition hasOwnProperty (o : gmap string Z) (cat : string) : bool :=
  bool_decide (is_Some (o !! cat)).

(** The bucket that an edit through chart [b] writes to. *)
Definition targetBucket (T : Templates) (b : chart) (base : Month) (cat : string) : bucket :=
  match b with
  | SavingInvest =>
      if hasOwnProperty (m_saving base) cat then saving
      else if hasOwnProperty (m_investment base) cat then investment
      else if bool_decide (cat ∈ t_saving T) then saving
      else investment
  | Plain k => k
  end.

(** The updater of [setData] in [updateAmount]. *)
Definition updateAmountUpdater (T : Templates) (selectedMonth : string) (b : chart)
    (cat : string) (newAmtNum : num) (prev : Data) : Data :=
  let base := monthOr T selectedMonth prev in
  mkData (<[selectedMonth := applyTo base cat newAmtNum (targetBucket T b base cat)]>
            (months prev)).

(** [updateAmount(cat, newAmtNum)] of the render [e], run in state [s].
    The undo it registers calls the same [updateAmount]. *)
Definition updateAmount (e : Env) (cat : string) (newAmtNum : num) (s : State) : State :=
  match e_bucket e with
  | None => s
  | Some b =>
      let before := monthOr (e_TEMPLATES e) (e_selectedMonth e) (e_data e) in
      let oldVal := oldValOf b before cat in
      let s := setData (updateAmountUpdater (e_TEMPLATES e) (e_selectedMonth e) b cat newAmtNum) s in
      showUndo (mkUndo e cat oldVal) s
  end.

(** [deleteAmount(cat)] of the render [e].  With no chart bucket the
    lookup [before[bucket]] is undefined and [oldVal] is 0. *)
Definition deleteAmount (e : Env) (cat : string) (s : State) : State :=
  let before := monthOr (e_TEMPLATES e) (e_selectedMonth e) (e_data e) in
  let oldVal := match e_bucket e with
                | Some b => oldValOf b before cat
                | None => 0
                end in
  let s := updateAmount e cat (Fin 0) s in
  showUndo (mkUndo e cat oldVal) s.

(** The Save button of an edited row: [updateAmount(row.name, Number(editValue))]. *)
Definition saveEdit (cat : string) (editValue : num) (s : State) : State :=
  updateAmount (envOf s) cat editValue s.

(** The Confirm button of a row about to be deleted. *)
Definition confirmDelete (cat : string) (s : State) : State :=
  deleteAmount (envOf s) cat s.

(** The Undo button: [snackbar.undo?.(); setSnackbar(null)]. *)
Definition clickUndo (s : State) : State :=
  match snackbar s with
  | None => s
  | Some u => setSnackbar None (updateAmount (u_env u) (u_cat u) (Fin (u_val u)) s)
  end.

(** [openBreakdown(title, _)] and the two close buttons of the modal. *)
Definition openBreakdown (t : title) (s : State) : State :=
  setBreakdownBucket (mapTitleToBucket t) s.

Definition closeBreakdown (s : State) : State := setBreakdownBucket None s.

(** [resetData] and [resetTemplates]; [confirmed] is the answer to the
    [confirm] dialog, [monthKey] the key of the current calendar month. *)
Definition resetData (confirmed : bool) (monthKey : string) (s : State) : State :=
  if confirmed
  then setData (λ _, createInitialData monthKey (TEMPLATES (userTemplates s))) s
  else s.

Definition resetTemplates (confirmed : bool) (s : State) : State :=
  if confirmed then setUserTemplates (λ _, noTemplates) s else s.

(** ** User actions as a transition system *)

Inductive Action :=
| SelectMonth (key : string)
| EnsureEffect
| OpenBreakdown (t : title)
| CloseBreakdown
| EditForm (menu : bool) (adder : option bucket) (cat other : string) (amt : num) (remember : bool)
| AddItem (kind : bucket)
| SaveEdit (cat : string) (editValue : num)
| ConfirmDelete (cat : string)
| ClickUndo
| DismissSnackbar
| ChangeSettings (x : Settings)
| ResetData (confirmed : bool) (monthKey : string)
| ResetTemplates (confirmed : bool).

Definition step (a : Action) (s : State) : State :=
  match a with
  | SelectMonth key => setSelectedMonth key s
  | EnsureEffect => ensureEffect s
  | OpenBreakdown t => openBreakdown t s
  | CloseBreakdown => closeBreakdown s
  | EditForm menu adder cat other amt remember => setForm menu adder cat other amt remember s
  | AddItem kind => addItem kind s
  | SaveEdit cat v => saveEdit cat v s
  | ConfirmDelete cat => confirmDelete cat s
  | ClickUndo => clickUndo s
  | DismissSnackbar => setSnackbar None s
  | ChangeSettings x => setSettings x s
  | ResetData c k => resetData c k s
  | ResetTemplates c => resetTemplates c s
  end.

Definition run (l : list Action) (s : State) : State := foldl (λ s a, step a s) s l.

(** The state of a first visit: nothing persisted, the ledger holds the
    current calendar month [monthKey], which is selected. *)
Definition initialState (monthKey : string) : State :=
  mkState (createInitialData monthKey (TEMPLATES noTemplates)) noTemplates defaultSettings
    monthKey None None false None "" "" (Fin 0) true.

(** ** Backup and restore *)

(** The JavaScript values that the stores hold and that [JSON.parse]
    produces.  An object is the list of its properties in order.  A
    number is an integer ([JNum]), or one of the values that are not
    finite: [NaN], [Infinity] and [-Infinity]. *)
#[warnings="-register-all"]
Inductive json :=
| JNull
| JBool (b : bool)
| JNum (z : Z)
| JNaN
| JInfinity (negative : bool)
| JStr (s : string)
| JArr (items : list json)
| JObj (props : list (string * json)).

(** Truthiness of a parsed value, as tested by [if (json.data)]. *)
Definition truthy (v : json) : bool :=
  match v with
  | JNull => false
  | JBool b => b
  | JNum z => negb (z =? 0)
  | JNaN => false
  | JInfinity _ => true
  | JStr s => truthyString s
  | JArr _ | JObj _ => true
  end.

Fixpoint assoc (k : string) (props : list (string * json)) : option json :=
  match props with
  | [] => None
  | (k', v) :: rest => if String.eqb k k' then Some v else assoc k rest
  end.

(** [v.key] for one of the keys [data], [templates], [settings] on a value
    other than [null]: [None] is [undefined].  Only an object has such a
    property. *)
Definition prop (v : json) (key : string) : option json :=
  match v with
  | JObj props => assoc key props
  | _ => None
  end.

(** The three stores as the JavaScript values they are. *)
Record Stores := mkStores { s_data : json; s_templates : json; s_settings : json }.

Definition jsonOfDict (d : gmap string Z) : json :=
  JObj ((λ kv, (kv.1, JNum kv.2)) <$> map_to_list d).

Definition jsonOfMonth (m : Month) : json :=
  JObj [("income", jsonOfDict (m_income m)); ("saving", jsonOfDict (m_saving m));
        ("investment", jsonOfDict (m_investment m)); ("expense", jsonOfDict (m_expense m))].

Definition jsonOfData (d : Data) : json :=
  JObj [("months", JObj ((λ kv, (kv.1, jsonOfMonth kv.2)) <$> map_to_list (months d)))].

Definition jsonOfTemplates (t : Templates) : json :=
  JObj [("income", JArr (JStr <$> t_income t)); ("saving", JArr (JStr <$> t_saving t));
        ("investment", JArr (JStr <$> t_investment t)); ("expense", JArr (JStr <$> t_expense t))].

Definition jsonOfSettings (x : Settings) : json :=
  JObj [("currency", JStr (currency x)); ("fyStartMonth", JNum (fyStartMonth x));
        ("showMoMColors", JBool (showMoMColors x)); ("compactMode", JBool (compactMode x))].

Definition storesOf (L : Data) (T : Templates) (S : Settings) : Stores :=
  mkStores (jsonOfData L) (jsonOfTemplates T) (jsonOfSettings S).

(** The stores of an application state. *)
Definition storesOfState (s : State) : Stores :=
  storesOf (data s) (userTemplates s) (settings s).

(** The outcome of [importBackup]: the stores afterwards, and whether the
    failure notice was shown ([alert]). *)
Record Imported := mkImported { stores : Stores; alerted : bool }.

Section Backup.
(** The text of a backup file, and the platform's [JSON.parse] and
    [JSON.stringify] on it.  [JSON_parse] is [None] when the platform
    throws a [SyntaxError]. *)
Context {text : Type}.
Variable JSON_parse : text → option json.
Variable JSON_stringify : json → text.

(** The text written by [downloadBackup]. *)
Definition downloadBackup (st : Stores) : text :=
  JSON_stringify (JObj [("data", s_data st); ("templates", s_templates st);
                        ("settings", s_settings st)]).

(** [if (json.key) setStore(json.key)] *)
Definition restoreKey (parsed : json) (key : string) (current : json) : json :=
  match prop parsed key with
  | Some v => if truthy v then v else current
  | None => current
  end.

(** [importBackup] on the text of the chosen file.  Reading a property
    of [null] throws a [TypeError], which the [catch] turns into the
    same notice as a [SyntaxError]. *)
Definition importBackup (txt : text) (st : Stores) : Imported :=
  match JSON_parse txt with
  | None => mkImported st true
  | Some JNull => mkImported st true
  | Some parsed =>
      mkImported
        (mkStores (restoreKey parsed "data" (s_data st))
                  (restoreKey parsed "templates" (s_templates st))
                  (restoreKey parsed "settings" (s_settings st)))
        false
  end.
End Backup.

(** ** Fiscal year window *)

(** The value of a decimal digit. *)
Definition digit (c : ascii) : option Z :=
  let n := Z.of_N (N_of_ascii c) in
  if (48 <=? n) && (n <=? 57) then Some (n - 48) else None.

Fixpoint digitsFrom (acc : Z) (s : string) : option Z :=
  match s with
  | EmptyString => Some acc
  | String c s' => match digit c with
                   | Some d => digitsFrom (10 * acc + d) s'
                   | None => None
                   end
  end.

(** [Number(s)] for a text made of decimal digits only (the empty text
    reads as 0); [None] for any other text, whose reading is not
    modelled. *)
Definition NumberOfDigits (s : string) : option Z := digitsFrom 0 s.

(** [s.split(sep)] for a one-character separator. *)
Fixpoint split (sep : ascii) (s : string) : list string :=
  match s with
  | EmptyString => [EmptyString]
  | String c s' =>
      if Ascii.eqb c sep then EmptyString :: split sep s'
      else match split sep s' with
           | p :: ps => String c p :: ps
           | [] => [String c EmptyString]
           end
  end.

(** [String(n).padStart(2, '0')] *)
Definition padStart2 (s : string) : string :=
  match s with
  | EmptyString => "00"
  | String c EmptyString => String "0" s
  | _ => s
  end.

(** [new Date(year, monthIndex, 1)], read back with [getFullYear()] and
    [getMonth()]: a year from 0 to 99 stands for 1900 + year, and a month
    index outside 0..11 carries into the year.  The local time zone is
    not modelled. *)
Definition newDate (year monthIndex : Z) : Z * Z :=
  let yr := if (0 <=? year) && (year <=? 99) then 1900 + year else year in
  (yr + monthIndex / 12, monthIndex mod 12).

(** [`${d.getFullYear()}-${String(d.getMonth() + 1).padStart(2, '0')}`] *)
Definition keyOfDate (d : Z * Z) : string :=
  pretty d.1 +:+ "-" +:+ padStart2 (pretty (d.2 + 1)).

(** [const [y, m] = monthKey.split('-').map(Number)]; [None] when a part
    is missing or is not made of digits. *)
Definition parseKey (monthKey : string) : option (Z * Z) :=
  match split "-" monthKey with
  | ys :: ms :: _ =>
      match NumberOfDigits ys, NumberOfDigits ms with
      | Some y, Some m => Some (y, m)
      | _, _ => None
      end
  | _ => None
  end.

Definition fiscalYearKeysFor (settings : Settings) (monthKey : string) : option (list string) :=
  match parseKey monthKey with
  | Some (y, m) =>
      let startMonth := if fyStartMonth settings =? 0 then 1 else fyStartMonth settings in
      let startYear := if startMonth <=? m then y else y - 1 in
      Some ((λ i, keyOfDate (newDate startYear ((startMonth - 1) + i))) <$> seqZ 0 12)
  | None => None
  end.

(** [shiftMonth(delta)] and [prevMonthKey(key)] use the same arithmetic. *)
Definition shiftedKey (monthKey : string) (delta : Z) : option string :=
  match parseKey monthKey with
  | Some (y, m) => Some (keyOfDate (newDate y ((m - 1) + delta)))
  | None => None
  end.

(** A month identifier [YYYY-MM]: four digits, a dash, and two digits
    that read as a month from 01 to 12. *)
Definition isDigit (c : ascii) : bool := bool_decide (is_Some (digit c)).

Definition month_id (s : string) : bool :=
  match s with
  | String a (String b (String c (String d (String dash (String e (String f EmptyString)))))) =>
      isDigit a && isDigit b && isDigit c && isDigit d && Ascii.eqb dash "-" &&
      match digit e, digit f with
      | Some x, Some y => (1 <=? 10 * x + y) && (10 * x + y <=? 12)
      | _, _ => false
      end
  | _ => false
  end.

(** The month after [(y, m)] in the calendar. *)
Definition nextMonthOf (ym : Z * Z) : Z * Z :=
  if ym.2 =? 12 then (ym.1 + 1, 1) else (ym.1, ym.2 + 1).

(** Each key of the list reads as a month, and each one is followed by
    the next month of the calendar. *)
Fixpoint consecutive (keys : list string) : Prop :=
  match keys with
  | [] => True
  | k :: rest =>
      match rest with
      | [] => is_Some (parseKey k)
      | k' :: _ => (∃ ym, parseKey k = Some ym ∧ parseKey k' = Some (nextMonthOf ym))
                   ∧ consecutive rest
      end
  end.

(** ** Chart data and the breakdown dialog *)

(** [entriesToChartData(obj)]: the entries whose amount is not 0, as
    rows [(name, value)]. *)
Definition entriesToChartData (obj : gmap string Z) : list (string * Z) :=
  List.filter (λ kv, negb (kv.2 =? 0)) (map_to_list obj).

(** A [Map] from names to amounts, kept as the list of its entries in
    insertion order: [map.get(name)] and [map.set(name, v)]. *)
Fixpoint mapGet (name : string) (m : list (string * Z)) : option Z :=
  match m with
  | [] => None
  | (k, x) :: rest => if String.eqb k name then Some x else mapGet name rest
  end.

Fixpoint mapSet (name : string) (v : Z) (m : list (string * Z)) : list (string * Z) :=
  match m with
  | [] => [(name, v)]
  | (k, x) :: rest =>
      if String.eqb k name then (k, v) :: rest else (k, x) :: mapSet name v rest
  end.

(** [savingInvestData]: the rows of the saving chart and of the
    investment chart merged by name,
    [map.set(name, (map.get(name) || 0) + Number(value))]. *)
Definition savingInvestData (savingData investmentData : list (string * Z))
    : list (string * Z) :=
  foldl (λ m row, mapSet row.1 (default 0 (mapGet row.1 m) + row.2) m) []
        (savingData ++ investmentData).

(** The rows of the combined chart for the totals [agg]. *)
Definition savingInvestRows (agg : Month) : list (string * Z) :=
  savingInvestData (entriesToChartData (m_saving agg))
                   (entriesToChartData (m_investment agg)).

(** [[...data].sort((a, b) => b.value - a.value)]: descending by value;
    the platform's sort is stable, so rows of equal value keep their
    order. *)
Fixpoint insertByValue (x : string * Z) (l : list (string * Z)) : list (string * Z) :=
  match l with
  | [] => [x]
  | y :: rest => if x.2 <? y.2 then y :: insertByValue x rest else x :: l
  end.

Definition sortByValue (data : list (string * Z)) : list (string * Z) :=
  foldr insertByValue [] data.

(** [items.reduce((a, d) => a + (d.value || 0), 0)] *)
Definition totalOf (items : list (string * Z)) : Z :=
  foldl (λ a d, a + d.2) 0 items.

(** What [openBreakdown(title, data)] stores besides the bucket: the
    sorted rows and their total. *)
Definition breakdownItems (data : list (string * Z)) : list (string * Z) :=
  sortByValue data.

Definition breakdownTotal (data : list (string * Z)) : Z :=
  totalOf (breakdownItems data).

(** The label that [tagFor(cat)] returns; [None] is [null]. *)
Inductive tag := TagExpense | TagIncome | TagSaving | TagInvestment.

Definition tagFor (cat : string) (s : State) : option tag :=
  let base := monthOr (TEMPLATES (userTemplates s)) (selectedMonth s) (data s) in
  if hasOwnProperty (m_expense base) cat then Some TagExpense
  else if hasOwnProperty (m_income base) cat then Some TagIncome
  else if hasOwnProperty (m_saving base) cat then Some TagSaving
  else if hasOwnProperty (m_investment base) cat then Some TagInvestment
  else None.

(** ** Month navigation and the view *)

(** [prevMonthKey(key)] *)
Definition prevMonthKey (key : string) : option string := shiftedKey key (-1).

(** [shiftMonth(delta)]; the state is unchanged when the selected key is
    outside the modelled fragment of [Number]. *)
Definition shiftMonth (delta : Z) (s : State) : State :=
  match shiftedKey (selectedMonth s) delta with
  | Some key => setSelectedMonth key s
  | None => s
  end.

(** [getPrevValueFor(cat, bucketName)]; [bucketName] is [breakdown.bucket],
    and [prevMonth[null]] is undefined.  [None] when the selected key is
    outside the modelled fragment of [Number]. *)
Definition getPrevValueFor (cat : string) (bucketName : option chart) (s : State)
    : option Z :=
  match prevMonthKey (selectedMonth s) with
  | None => None
  | Some prevKey =>
      Some match months (data s) !! prevKey with
           | None => 0
           | Some prevMonth =>
               match bucketName with
               | Some b => oldValOf b prevMonth cat
               | None => 0
               end
           end
  end.

(** The value of [view]. *)
Inductive View := Monthly | Annual.

(** [monthsOrder] *)
Definition monthsOrder (d : Data) : list string := sortedKeys (months d).

(** [monthKeysForView] *)
Definition monthKeysForView (view : View) (s : State) : option (list string) :=
  match view with
  | Monthly => Some [selectedMonth s]
  | Annual =>
      match fiscalYearKeysFor (settings s) (selectedMonth s) with
      | Some fyKeys =>
          Some (List.filter (λ k, bool_decide (k ∈ fyKeys)) (monthsOrder (data s)))
      | None => None
      end
  end.

(** ** Export *)

(** One exported row [{ Month, Bucket, Category, Amount }]. *)
Record Row := mkRow {
  r_month : string;
  r_bucket : bucket;
  r_category : string;
  r_amount : Z
}.

(** The rows that [exportData] builds for the month keys [keys]. *)
Definition exportRows (keys : list string) (d : Data) : list Row :=
  keys ≫= λ k,
    match months d !! k with
    | None => []
    | Some m =>
        [income; expense; saving; investment] ≫= λ b,
          (λ kv, mkRow k b kv.1 kv.2) <$> map_to_list (get b m)
    end.

Inductive Scope := ScopeMonth | ScopeYear.

(** [scope === 'month' ? [selectedMonth] : fiscalYearKeysFor(selectedMonth)] *)
Definition exportKeys (scope : Scope) (s : State) : option (list string) :=
  match scope with
  | ScopeMonth => Some [selectedMonth s]
  | ScopeYear => fiscalYearKeysFor (settings s) (selectedMonth s)
  end.

Definition bucketName (b : bucket) : string :=
  match b with
  | income => "income"
  | saving => "saving"
  | investment => "investment"
  | expense => "expense"
  end.

(** The double quote character. *)
Definition dquote : ascii := "034".

(** The [replace] applied to [String(r.Category)]: every double quote
    of the category is written twice. *)
Fixpoint doubleQuotes (s : string) : string :=
  match s with
  | EmptyString => EmptyString
  | String c rest =>
      if Ascii.eqb c dquote then String dquote (String dquote (doubleQuotes rest))
      else String c (doubleQuotes rest)
  end.

(** The quoted category field of a line. *)
Definition csvField (category : string) : string :=
  String dquote (doubleQuotes category +:+ String dquote EmptyString).

(** One line of the file.  The amount is printed in decimal digits, as
    the template literal prints an integer below 10^21. *)
Definition csvLine (r : Row) : string :=
  r_month r +:+ "," +:+ bucketName (r_bucket r) +:+ "," +:+
  csvField (r_category r) +:+ "," +:+ pretty (r_amount r).

(** [lines.join('\n')] *)
Fixpoint joinLines (lines : list string) : string :=
  match lines with
  | [] => EmptyString
  | [l] => l
  | l :: rest => l +:+ String "010" (joinLines rest)
  end.

(** The text of the CSV file; [None] when there is no row, in which case
    [exportData] returns without writing a file. *)
Definition csvOf (rows : list Row) : option string :=
  match rows with
  | [] => None
  | _ => Some (joinLines ("Month,Bucket,Category,Amount" :: (csvLine <$> rows)))
  end.

(** ** Aggregation over doubles *)

(** The loop of [aggregated] with the amounts as the IEEE doubles they
    are in the code: [+] is the addition of doubles, and [x || 0] gives
    0 for [undefined], [NaN] and the two zeros. *)
Module Doubles.

Record Month := mkMonth {
  m_income : gmap string float;
  m_saving : gmap string float;
  m_investment : gmap string float;
  m_expense : gmap string float
}.

(** [x || 0] for a number [x] *)
Definition orZero (x : float) : float :=
  if PrimFloat.is_nan x || PrimFloat.is_zero x then 0%float else x.

(** [acc[k][cat] = (acc[k][cat] || 0) + Number(val)] for the entries of
    one bucket of one month. *)
Definition addEntries (acc entries : gmap string float) : gmap string float :=
  map_fold (λ cat val a,
              <[cat := PrimFloat.add (orZero (default 0%float (a !! cat))) val]> a)
           acc entries.

Definition noTotals : Month := mkMonth ∅ ∅ ∅ ∅.

Definition addMonth (acc month : Month) : Month :=
  mkMonth (addEntries (m_income acc) (m_income month))
          (addEntries (m_saving acc) (m_saving month))
          (addEntries (m_investment acc) (m_investment month))
          (addEntries (m_expense acc) (m_expense month)).

(** [aggregated] for the month keys [monthKeysForView] and the months
    [data.months]. *)
Definition aggregated (monthKeysForView : list string) (months : gmap string Month)
    : Month :=
  foldl (λ acc m, match months !! m with
                  | None => acc
                  | Some month => addMonth acc month
                  end) noTotals monthKeysForView.

End Doubles.

(** ** The JSON text of a backup *)

Module JSON.

Definition backslash : ascii := "092".

(** [JSON.stringify(value, null, 2)], written by [write] with the value
    printed in front of the text [rest]: [indent] is the current
    indentation, two spaces deeper at each level.  A number that is not
    finite is written as [null]; an integer is written in decimal
    digits, as the platform writes one below 10^21. *)

Definition hexChar (n : N) : ascii :=
  if (n <? 10)%N then ascii_of_N (48 + n) else ascii_of_N (87 + n).

Definition escapeChar (c : ascii) (rest : string) : string :=
  if Ascii.eqb c dquote then String backslash (String dquote rest)
  else if Ascii.eqb c backslash then String backslash (String backslash rest)
  else if Ascii.eqb c "008" then String backslash (String "b" rest)
  else if Ascii.eqb c "012" then String backslash (String "f" rest)
  else if Ascii.eqb c "010" then String backslash (String "n" rest)
  else if Ascii.eqb c "013" then String backslash (String "r" rest)
  else if Ascii.eqb c "009" then String backslash (String "t" rest)
  else if (N_of_ascii c <? 32)%N then
    String backslash (String "u" (String "0" (String "0"
      (String (hexChar (N_of_ascii c / 16)) (String (hexChar (N_of_ascii c mod 16)) rest)))))
  else String c rest.

Fixpoint escape (s rest : string) : string :=
  match s with
  | EmptyString => rest
  | String c s' => escapeChar c (escape s' rest)
  end.

Definition quote (s rest : string) : string :=
  String dquote (escape s (String dquote rest)).

Fixpoint spaces (n : nat) (rest : string) : string :=
  match n with
  | O => rest
  | S n => String " " (spaces n rest)
  end.

Definition newline (indent : nat) (rest : string) : string :=
  String "010" (spaces indent rest).

(** [word] written in front of [rest]. *)
Fixpoint onto (word rest : string) : string :=
  match word with
  | EmptyString => rest
  | String c w => String c (onto w rest)
  end.

Fixpoint write (indent : nat) (v : json) (rest : string) {struct v} : string :=
  match v with
  | JNull | JNaN | JInfinity _ => onto "null" rest
  | JBool true => onto "true" rest
  | JBool false => onto "false" rest
  | JNum z => onto (pretty z) rest
  | JStr s => quote s rest
  | JArr items =>
      match items with
      | [] => onto "[]" rest
      | _ :: _ =>
          String "[" (newline (2 + indent)
            ((fix writeItems (l : list json) : string :=
                match l with
                | [] => rest
                | x :: l' =>
                    write (2 + indent) x
                      match l' with
                      | [] => newline indent (String "]" rest)
                      | _ :: _ => String "," (newline (2 + indent) (writeItems l'))
                      end
                end) items))
      end
  | JObj props =>
      match props with
      | [] => onto "{}" rest
      | _ :: _ =>
          String "{" (newline (2 + indent)
            ((fix writeProps (l : list (string * json)) : string :=
                match l with
                | [] => rest
                | (k, x) :: l' =>
                    quote k (String ":" (String " "
                      (write (2 + indent) x
                         match l' with
                         | [] => newline indent (String "}" rest)
                         | _ :: _ => String "," (newline (2 + indent) (writeProps l'))
                         end)))
                end) props))
      end
  end.

Definition stringify (v : json) : string := write 0 v "".

(** [JSON.parse(text)]: [None] is a [SyntaxError].  The reading of a
    number with a fraction or an exponent, and of a [\uXXXX] escape
    above 007F, is not modelled: [None] stands for these texts as
    well. *)

Definition isWs (c : ascii) : bool :=
  Ascii.eqb c " " || Ascii.eqb c "009" || Ascii.eqb c "010" || Ascii.eqb c "013".

Fixpoint skipWs (s : string) : string :=
  match s with
  | String c r => if isWs c then skipWs r else s
  | EmptyString => EmptyString
  end.

Fixpoint stripPrefix (p s : string) : option string :=
  match p with
  | EmptyString => Some s
  | String c p' =>
      match s with
      | String c' s' => if Ascii.eqb c c' then stripPrefix p' s' else None
      | EmptyString => None
      end
  end.

Definition literal (word : string) (v : json) (s : string) : option (json * string) :=
  match stripPrefix word s with
  | Some rest => Some (v, rest)
  | None => None
  end.

Definition hexValue (c : ascii) : option N :=
  let n := N_of_ascii c in
  if (48 <=? n)%N && (n <=? 57)%N then Some (n - 48)%N
  else if (97 <=? n)%N && (n <=? 102)%N then Some (n - 87)%N
  else if (65 <=? n)%N && (n <=? 70)%N then Some (n - 55)%N
  else None.

Definition unescape (e : ascii) : option ascii :=
  if Ascii.eqb e dquote then Some dquote
  else if Ascii.eqb e backslash then Some backslash
  else if Ascii.eqb e "/" then Some "/"%char
  else if Ascii.eqb e "b" then Some "008"%char
  else if Ascii.eqb e "f" then Some "012"%char
  else if Ascii.eqb e "n" then Some "010"%char
  else if Ascii.eqb e "r" then Some "013"%char
  else if Ascii.eqb e "t" then Some "009"%char
  else None.

(** The code point of a [\uXXXX] escape, as a character when it is below
    128. *)
Definition unicodeEscape (a b c d : ascii) : option ascii :=
  match hexValue a, hexValue b, hexValue c, hexValue d with
  | Some x, Some y, Some z, Some w =>
      let n := (((x * 16 + y) * 16 + z) * 16 + w)%N in
      if (n <? 128)%N then Some (ascii_of_N n) else None
  | _, _, _, _ => None
  end.

(** The characters of a string literal after its opening quote, up to
    the closing quote. *)
Fixpoint parseChars (s : string) : option (string * string) :=
  match s with
  | EmptyString => None
  | String c r =>
      if Ascii.eqb c dquote then Some (EmptyString, r)
      else if Ascii.eqb c backslash then
        match r with
        | String e r' =>
            if Ascii.eqb e "u" then
              match r' with
              | String h1 (String h2 (String h3 (String h4 r''))) =>
                  match unicodeEscape h1 h2 h3 h4, parseChars r'' with
                  | Some x, Some (t, rest) => Some (String x t, rest)
                  | _, _ => None
                  end
              | _ => None
              end
            else
              match unescape e, parseChars r' with
              | Some x, Some (t, rest) => Some (String x t, rest)
              | _, _ => None
              end
        | EmptyString => None
        end
      else if (N_of_ascii c <? 32)%N then None
      else
        match parseChars r with
        | Some (t, rest) => Some (String c t, rest)
        | None => None
        end
  end.

Fixpoint digitsPrefix (acc : Z) (s : string) : Z * string :=
  match s with
  | String c r =>
      match digit c with
      | Some d => digitsPrefix (10 * acc + d) r
      | None => (acc, s)
      end
  | EmptyString => (acc, EmptyString)
  end.

(** A natural number without a leading zero. *)
Definition parseNat (s : string) : option (Z * string) :=
  match s with
  | String c r =>
      match digit c with
      | None => None
      | Some d =>
          if d =? 0 then
            match r with
            | String c' _ => if isDigit c' then None else Some (0, r)
            | EmptyString => Some (0, r)
            end
          else Some (digitsPrefix d r)
      end
  | EmptyString => None
  end.

(** Whether a fraction or an exponent follows. *)
Definition fractionAhead (s : string) : bool :=
  match s with
  | String c _ => Ascii.eqb c "." || Ascii.eqb c "e" || Ascii.eqb c "E"
  | EmptyString => false
  end.

Definition parseNumber (s : string) : option (Z * string) :=
  match s with
  | String c r =>
      match (if Ascii.eqb c "-" then parseNat r else parseNat s) with
      | Some (n, rest) =>
          if fractionAhead rest then None
          else Some (if Ascii.eqb c "-" then - n else n, rest)
      | None => None
      end
  | EmptyString => None
  end.

(** [CreateDataProperty]: a key met again keeps its place and takes the
    new value. *)
Fixpoint putProp (k : string) (v : json) (props : list (string * json))
    : list (string * json) :=
  match props with
  | [] => [(k, v)]
  | (k', v') :: rest =>
      if String.eqb k' k then (k', v) :: rest else (k', v') :: putProp k v rest
  end.

Definition object (props : list (string * json)) : json :=
  JObj (foldl (λ acc kv, putProp kv.1 kv.2 acc) [] props).

Section Containers.
Variable parseValue : string → option (json * string).

(** The elements of an array after its opening bracket, up to the
    closing bracket. *)
Fixpoint parseItems (fuel : nat) (s : string) : option (list json * string) :=
  match fuel with
  | O => None
  | S fuel =>
      match parseValue s with
      | Some (v, r) =>
          match skipWs r with
          | String c r' =>
              if Ascii.eqb c "," then
                match parseItems fuel r' with
                | Some (vs, rest) => Some (v :: vs, rest)
                | None => None
                end
              else if Ascii.eqb c "]" then Some ([v], r')
              else None
          | EmptyString => None
          end
      | None => None
      end
  end.

(** The members of an object after its opening brace, up to the closing
    brace. *)
Fixpoint parseProps (fuel : nat) (s : string)
    : option (list (string * json) * string) :=
  match fuel with
  | O => None
  | S fuel =>
      match skipWs s with
      | String q r =>
          if Ascii.eqb q dquote then
            match parseChars r with
            | Some (k, r1) =>
                match skipWs r1 with
                | String c r2 =>
                    if Ascii.eqb c ":" then
                      match parseValue r2 with
                      | Some (v, r3) =>
                          match skipWs r3 with
                          | String c' r4 =>
                              if Ascii.eqb c' "," then
                                match parseProps fuel r4 with
                                | Some (ps, rest) => Some ((k, v) :: ps, rest)
                                | None => None
                                end
                              else if Ascii.eqb c' "}" then Some ([(k, v)], r4)
                              else None
                          | EmptyString => None
                          end
                      | None => None
                      end
                    else None
                | EmptyString => None
                end
            | None => None
            end
          else None
      | EmptyString => None
      end
  end.
End Containers.

(** A value at the head of [s].  [fuel] bounds the depth of nesting and
    the number of elements of an array or object. *)
Fixpoint parseValue (fuel : nat) (s : string) : option (json * string) :=
  match fuel with
  | O => None
  | S fuel =>
      match skipWs s with
      | EmptyString => None
      | String c r =>
          if Ascii.eqb c "n" then literal "ull" JNull r
          else if Ascii.eqb c "t" then literal "rue" (JBool true) r
          else if Ascii.eqb c "f" then literal "alse" (JBool false) r
          else if Ascii.eqb c dquote then
            match parseChars r with
            | Some (x, rest) => Some (JStr x, rest)
            | None => None
            end
          else if Ascii.eqb c "[" then
            match skipWs r with
            | String c' r' =>
                if Ascii.eqb c' "]" then Some (JArr [], r')
                else
                  match parseItems (parseValue fuel) fuel r with
                  | Some (vs, rest) => Some (JArr vs, rest)
                  | None => None
                  end
            | EmptyString => None
            end
          else if Ascii.eqb c "{" then
            match skipWs r with
            | String c' r' =>
                if Ascii.eqb c' "}" then Some (JObj [], r')
                else
                  match parseProps (parseValue fuel) fuel r with
                  | Some (ps, rest) => Some (object ps, rest)
                  | None => None
                  end
            | EmptyString => None
            end
          else
            match parseNumber (String c r) with
            | Some (z, rest) => Some (JNum z, rest)
            | None => None
            end
      end
  end.

Definition parse (text : string) : option json :=
  match parseValue (String.length text) text with
  | Some (v, rest) =>
      match skipWs rest with
      | EmptyString => Some v
      | String _ _ => None
      end
  | None => None
  end.

End JSON.

(** ** Definitions used to state the properties *)

(** The ledger of the carry-forward scenario: March 2024 holds 500 under
    the saving category Current. *)
Definition ledgerMarch : Data :=
  mkData {[ "2024-03" := mkMonth ∅ {[ "Current" := 500 ]} ∅ ∅ ]}.

(** The ledger of the cash-flow scenario: January 2024 with a salary of
    3000 and a rent of 1000. *)
Definition ledgerJanuary : Data :=
  mkData {[ "2024-01" := mkMonth {[ "Salary" := 3000 ]} ∅ ∅ {[ "Rent" := 1000 ]} ]}.

(** January selected, no chart open, and the adder form filled in with
    the category [cat] and the amount reading [amt]. *)
Definition januaryForm (cat : string) (amt : num) : State :=
  mkState ledgerJanuary noTemplates defaultSettings "2024-01" None None
    true (Some expense) cat "" amt true.

(** A visit that remembers a custom category: February is selected and
    created, then 50 is added to the new expense category Gym. *)
Definition gymVisit : list Action :=
  [SelectMonth "2024-02"; EnsureEffect;
   EditForm true (Some expense) "" "Gym" (Fin 50) true; AddItem expense].

(** The amount stored for [cat] in bucket [k] of month [key], if any. *)
Definition amountOf (key : string) (k : bucket) (cat : string) (s : State) : option Z :=
  months (data s) !! key ≫= λ m, get k m !! cat.

(** The pointwise sum of two dictionaries of totals: a category missing
    on one side counts as absent, not as an entry. *)
Definition plus (a b : gmap string Z) : gmap string Z :=
  union_with (λ x y, Some (x + y)) a b.

Definition plusMonth (a b : Month) : Month :=
  mkMonth (plus (m_income a) (m_income b)) (plus (m_saving a) (m_saving b))
          (plus (m_investment a) (m_investment b)) (plus (m_expense a) (m_expense b)).

(** One turn of the outer loop of [aggregated]. *)
Definition addKey (d : Data) (acc : Month) (m : string) : Month :=
  match months d !! m with
  | None => acc
  | Some month => addMonth acc month
  end.

(** Record [r] has an entry for every category of [cats], in every bucket. *)
Definition hasEntries (cats : Templates) (r : Month) : Prop :=
  ∀ k c, c ∈ names k cats → is_Some (get k r !! c).

(** The invariant as the specification states it: every category of the
    current Template Store has an entry in every month record. *)
Definition templateEntriesPresent (s : State) : Prop :=
  ∀ key r, months (data s) !! key = Some r →
    hasEntries (TEMPLATES (userTemplates s)) r.

(** The same for the built-in categories alone. *)
Definition builtinEntriesPresent (d : Data) : Prop :=
  ∀ key r, months d !! key = Some r → hasEntries BASE_TEMPLATES r.

(** Every entry of [r] is still an entry of [r']. *)
Definition keepsEntries (r r' : Month) : Prop :=
  ∀ k c, is_Some (get k r !! c) → is_Some (get k r' !! c).

(** Every action but a confirmed data reset. *)
Definition keepsLedger (a : Action) : Prop :=
  match a with
  | ResetData true _ => False
  | _ => True
  end.

(** [T] lists every built-in category. *)
Definition includesBase (T : Templates) : Prop :=
  ∀ k c, c ∈ names k BASE_TEMPLATES → c ∈ names k T.

(** What one write to the month [sel] does to the ledger, for the three
    updaters alike. *)
Definition writesMonth (T : Templates) (sel : string) (d d' : Data) : Prop :=
  (∃ r', months d' !! sel = Some r' ∧ keepsEntries (monthOr T sel d) r')
  ∧ (∀ k, k ≠ sel → months d' !! k = months d !! k).

(** What the pending undo needs for the invariant: its stale templates
    still list the built-in categories. *)
Definition reachableInv (s : State) : Prop :=
  builtinEntriesPresent (data s)
  ∧ ∀ u, snackbar s = Some u → includesBase (e_TEMPLATES (u_env u)).

(** What an import that does not fail does to the store under [key]. *)
Definition restored (parsed : json) (key : string) (before after : json) : Prop :=
  (∀ x, prop parsed key = Some x → truthy x = true → after = x)
  ∧ (∀ x, prop parsed key = Some x → truthy x = false → after = before)
  ∧ (prop parsed key = None → after = before).

(** The amount a bucket shows for a name: its entry, unless it is 0. *)
Definition shown (obj : gmap string Z) (name : string) : option Z :=
  match obj !! name with
  | Some v => if v =? 0 then None else Some v
  | None => None
  end.

(** The quoted category followed by the amount. *)
Definition fieldAndAmount (cat : string) (amt : Z) : string :=
  doubleQuotes cat +:+ String dquote (String "," (pretty amt)).

(** The tag that stands for a bucket. *)
Definition tagOf (k : bucket) : tag :=
  match k with
  | expense => TagExpense
  | income => TagIncome
  | saving => TagSaving
  | investment => TagInvestment
  end.

(** The range of exact sums.  An integer of magnitude at most 2^53 is a
    double, and the double sum of two such integers is their integer sum
    when that sum is in the range too.  The [magnitude] of a dictionary,
    of a record, of a list of rows or of the months of a view is the sum
    of the magnitudes of its amounts: when it is at most 2^53, every sum
    of some of these amounts, taken in any order, stays in the range,
    and the sums of the code are the integer sums of the model. *)
Definition magnitude (obj : gmap string Z) : Z := sum (Z.abs <$> obj).

Definition magnitudeOfMonth (m : Month) : Z :=
  magnitude (m_income m) + magnitude (m_saving m) +
  magnitude (m_investment m) + magnitude (m_expense m).

Definition magnitudeOfMonths (keys : list string) (d : Data) : Z :=
  foldr (λ k a, match months d !! k with
                | Some m => magnitudeOfMonth m
                | None => 0
                end + a) 0 keys.

Definition magnitudeOfRows (rows : list (string * Z)) : Z :=
  foldr (λ r a, Z.abs r.2 + a) 0 rows.

(** Three months with an income of 0.1, 0.2 and 0.3. *)
#[warnings="-inexact-float"]
Definition ledgerOfTenths : gmap string Doubles.Month :=
  {[ "2024-01" := Doubles.mkMonth {[ "Salary" := 0.1%float ]} ∅ ∅ ∅;
     "2024-02" := Doubles.mkMonth {[ "Salary" := 0.2%float ]} ∅ ∅ ∅;
     "2024-03" := Doubles.mkMonth {[ "Salary" := 0.3%float ]} ∅ ∅ ∅ ]}.

(** The names that every object inherits from [Object.prototype].  A
    read [o[name]] of such a name on an object without an own property
    of that name finds the inherited value, which a [gmap] does not
    model. *)
Definition objectPrototypeNames : list string :=
  ["__proto__"; "constructor"; "hasOwnProperty"; "isPrototypeOf";
   "propertyIsEnumerable"; "toLocaleString"; "toString"; "valueOf";
   "__defineGetter__"; "__defineSetter__"; "__lookupGetter__"; "__lookupSetter__"].

(** Induction on a value and on the values inside it. *)
Section json_induction.
Variable P : json → Prop.
Hypothesis Hnull : P JNull.
Hypothesis Hbool : ∀ b, P (JBool b).
Hypothesis Hnum : ∀ z, P (JNum z).
Hypothesis Hnan : P JNaN.
Hypothesis Hinf : ∀ b, P (JInfinity b).
Hypothesis Hstr : ∀ s, P (JStr s).
Hypothesis Harr : ∀ items, Forall P items → P (JArr items).
Hypothesis Hobj : ∀ props, Forall (λ kv, P kv.2) props → P (JObj props).

Fixpoint json_nested_ind (v : json) : P v :=
  match v with
  | JNull => Hnull
  | JBool b => Hbool b
  | JNum z => Hnum z
  | JNaN => Hnan
  | JInfinity b => Hinf b
  | JStr s => Hstr s
  | JArr items =>
      Harr items
        ((fix go (l : list json) : Forall P l :=
            match l with
            | [] => @List.Forall_nil _ P
            | x :: l' => @List.Forall_cons _ P x l' (json_nested_ind x) (go l')
            end) items)
  | JObj props =>
      Hobj props
        ((fix go (l : list (string * json)) : Forall (λ kv, P kv.2) l :=
            match l with
            | [] => @List.Forall_nil _ (λ kv, P kv.2)
            | (k, x) :: l' =>
                @List.Forall_cons _ (λ kv, P kv.2) (k, x) l' (json_nested_ind x) (go l')
            end) props)
  end.
End json_induction.

(** What a value comes back as: the numbers that are not finite are
    written as [null]. *)
Fixpoint nullify (v : json) : json :=
  match v with
  | JNaN | JInfinity _ => JNull
  | JArr items => JArr (List.map nullify items)
  | JObj props => JObj (List.map (λ '(k, x), (k, nullify x)) props)
  | _ => v
  end.

(** No object of the value has two properties of the same name. *)
Fixpoint distinctKeys (v : json) : Prop :=
  match v with
  | JArr items =>
      (fix all (l : list json) : Prop :=
         match l with
         | [] => True
         | x :: l' => distinctKeys x ∧ all l'
         end) items
  | JObj props =>
      NoDup props.*1
      ∧ (fix all (l : list (string * json)) : Prop :=
           match l with
           | [] => True
           | (_, x) :: l' => distinctKeys x ∧ all l'
           end) props
  | _ => True
  end.

Fixpoint size (v : json) : nat :=
  match v with
  | JArr items =>
      S ((fix sum (l : list json) : nat :=
            match l with
            | [] => O
            | x :: l' => (size x + sum l')%nat
            end) items)
  | JObj props =>
      S ((fix sum (l : list (string * json)) : nat :=
            match l with
            | [] => O
            | (_, x) :: l' => (size x + sum l')%nat
            end) props)
  | _ => 1%nat
  end.

(** The characters a value can start with. *)
Definition valueStart (c : ascii) : bool :=
  isDigit c || Ascii.eqb c "-" || Ascii.eqb c "n" || Ascii.eqb c "t" || Ascii.eqb c "f"
  || Ascii.eqb c dquote || Ascii.eqb c "[" || Ascii.eqb c "{".

(** The text after a number neither continues it nor starts a fraction
    or an exponent. *)
Definition endsNumber (rest : string) : bool :=
  match rest with
  | EmptyString => true
  | String c _ => negb (isDigit c) && negb (JSON.fractionAhead rest)
  end.

(** The elements of an array as [write] writes them, up to the closing
    bracket, and the members of an object, up to the closing brace. *)
Fixpoint writeItems (indent : nat) (l : list json) (rest : string) : string :=
  match l with
  | [] => rest
  | x :: l' =>
      JSON.write (2 + indent) x
        match l' with
        | [] => JSON.newline indent (String "]" rest)
        | _ :: _ => String "," (JSON.newline (2 + indent) (writeItems indent l' rest))
        end
  end.

Fixpoint writeProps (indent : nat) (l : list (string * json)) (rest : string) : string :=
  match l with
  | [] => rest
  | (k, x) :: l' =>
      JSON.quote k (String ":" (String " "
        (JSON.write (2 + indent) x
           match l' with
           | [] => JSON.newline indent (String "}" rest)
           | _ :: _ => String "," (JSON.newline (2 + indent) (writeProps indent l' rest))
           end)))
  end.

(** The statement of the round trip for one value: written in front of
    [rest] and read with enough fuel, it comes back, and [rest] is what
    is left. *)
Definition readsBack (v : json) : Prop :=
  ∀ indent rest fuel,
    (size v ≤ fuel)%nat →
    (∀ z, v = JNum z → endsNumber rest = true) →
    JSON.parseValue fuel (JSON.write indent v rest) = Some (nullify v, rest).

(** A value is written with at least as many characters as its size. *)
Definition longEnough (v : json) : Prop :=
  ∀ indent rest,
    (size v + String.length rest ≤ String.length (JSON.write indent v rest))%nat.

(** A ledger in which an income has overflowed to [Infinity] (as after
    adding 1e308 twice), with no custom template and the default
    settings. *)
Definition storesWithInfinity : Stores :=
  mkStores
    (JObj [("months",
            JObj [("2024-01",
                   JObj [("income", JObj [("Salary", JInfinity false)]);
                         ("saving", JObj []); ("investment", JObj []);
                         ("expense", JObj [])])])])
    (jsonOfTemplates noTemplates) (jsonOfSettings defaultSettings).

(** A text of ASCII characters only.  On such a text the six white
    space characters that [trim] removes are all the white space that
    [String.prototype.trim] removes. *)
Fixpoint asciiText (s : string) : bool :=
  match s with
  | EmptyString => true
  | String c r => (N_of_ascii c <? 128)%N && asciiText r
  end.

(** January and February 2024 with a rent of 1000 and of 900; January
    is selected and the Expenses chart is open. *)
Definition rentLedger : Data :=
  mkData {[ "2024-01" := mkMonth ∅ ∅ ∅ {[ "Rent" := 1000 ]};
            "2024-02" := mkMonth ∅ ∅ ∅ {[ "Rent" := 900 ]} ]}.

Definition rentChart : State :=
  mkState rentLedger noTemplates defaultSettings "2024-01" (Some (Plain expense)) None
    false None "" "" (Fin 0) true.

(** ** Lemmas on the data model *)

Lemma fromEntries_snoc {V} (l : list (string * V)) k v :
  fromEntries (l ++ [(k, v)]) = <[k := v]> (fromEntries l).
Proof. unfold fromEntries. by rewrite foldl_app. Qed.

Lemma zeroed_lookup cats c :
  zeroed cats !! c = if decide (c ∈ cats) then Some 0 else None.
Proof.
  unfold zeroed. induction cats as [|x cats IH] using rev_ind.
  - rewrite decide_False by apply not_elem_of_nil. done.
  - rewrite fmap_app. simpl. rewrite fromEntries_snoc. simpl.
    destruct (decide (x = c)) as [->|Hne].
    + rewrite lookup_insert_eq, decide_True; [done|].
      apply elem_of_app. right. by apply list_elem_of_singleton.
    + rewrite lookup_insert_ne by done. rewrite IH.
      destruct (decide (c ∈ cats)) as [Hin|Hnin].
      * rewrite decide_True; [done|]. apply elem_of_app. by left.
      * rewrite decide_False; [done|].
        intros [?|Hx%list_elem_of_singleton]%elem_of_app; [done|by subst].
Qed.

Lemma zeroed_Some cats c v : zeroed cats !! c = Some v → v = 0 ∧ c ∈ cats.
Proof. rewrite zeroed_lookup. case_decide; naive_solver. Qed.

Lemma zeroed_elem cats c : c ∈ cats → zeroed cats !! c = Some 0.
Proof. intros. rewrite zeroed_lookup. by rewrite decide_True. Qed.

Lemma get_set_eq k b m : get k (set k b m) = b.
Proof. by destruct k. Qed.

Lemma get_set_ne k k' b m : k ≠ k' → get k' (set k b m) = get k' m.
Proof. by destruct k, k'. Qed.

Lemma get_emptyMonth k T : get k (emptyMonth T) = zeroed (names k T).
Proof. by destruct k. Qed.

(** ** The greatest key below the selected month *)

Lemma ltb_le a b : String.ltb a b = true → String.le a b.
Proof.
  unfold String.ltb, String.le, String.leb.
  destruct (String.compare a b); naive_solver.
Qed.

Lemma ltb_irrefl a : String.ltb a a = false.
Proof.
  unfold String.ltb.
  assert (String.le a a) as H by done.
  unfold String.le, String.leb in H.
  destruct (String.compare a a) eqn:E; try done.
  pose proof (String.compare_antisym a a) as Ha. rewrite E in Ha. done.
Qed.

Lemma le_ltb a b : String.le a b → a ≠ b → String.ltb a b = true.
Proof.
  unfold String.ltb, String.le, String.leb. intros H Hne.
  destruct (String.compare a b) eqn:E; try done.
  by apply String.compare_eq_iff in E.
Qed.

Lemma ltb_le_trans a b c : String.ltb a b = true → String.le b c → String.ltb a c = true.
Proof.
  intros Hab Hbc. apply le_ltb.
  - etrans; [by apply ltb_le|done].
  - intros ->. assert (b = c) as ->.
    { apply (anti_symm String.le); [done|by apply ltb_le]. }
    by rewrite ltb_irrefl in Hab.
Qed.

Lemma elem_of_sortedKeys {V} (o : gmap string V) k :
  k ∈ sortedKeys o ↔ is_Some (o !! k).
Proof.
  unfold sortedKeys. rewrite merge_sort_Permutation.
  rewrite list_elem_of_fmap. split.
  - intros [[k' v] [-> H]]. apply elem_of_map_to_list in H. by exists v.
  - intros [v H]. exists (k, v). split; [done|]. by apply elem_of_map_to_list.
Qed.

Lemma sortedKeys_sorted {V} (o : gmap string V) :
  StronglySorted String.le (sortedKeys o).
Proof. apply StronglySorted_merge_sort; apply _. Qed.

Lemma filter_none (P : string → bool) l :
  (∀ x, x ∈ l → P x = false) → List.filter P l = [].
Proof.
  induction l as [|a l IH]; [done|]. intros H. simpl.
  rewrite (H a) by set_solver. apply IH. intros x Hx. apply H. set_solver.
Qed.

(** In a sorted list, the last element that satisfies [P] is the greatest
    one. *)
Lemma last_filter_greatest (P : string → bool) l m :
  StronglySorted String.le l →
  m ∈ l → P m = true →
  (∀ x, x ∈ l → P x = true → String.le x m) →
  last (List.filter P l) = Some m.
Proof.
  induction 1 as [|a l Hs IH Hall]; intros Hm HP Hmax; [by apply elem_of_nil in Hm|].
  assert (last (List.filter P (a :: l)) =
          match last (List.filter P l) with
          | Some y => Some y
          | None => if P a then Some a else None
          end) as ->.
  { simpl. destruct (P a); [|by destruct (last _)]. by rewrite last_cons. }
  destruct (decide (m ∈ l)) as [Hin|Hnin].
  - rewrite IH; [done..|]. intros x Hx. apply Hmax. by apply elem_of_cons; right.
  - assert (m = a) as ->.
    { apply elem_of_cons in Hm as [?|?]; done. }
    rewrite filter_none, HP; [done|].
    intros x Hx. destruct (P x) eqn:HPx; [|done]. exfalso. apply Hnin.
    assert (x = a) as ->; [|done].
    apply (anti_symm String.le); [apply Hmax; [by apply elem_of_cons; right|done]|].
    rewrite Forall_forall in Hall. by apply Hall.
Qed.

Lemma prevKeyOf_nearest {V} (o : gmap string V) m1 m2 :
  is_Some (o !! m1) →
  String.ltb m1 m2 = true →
  (∀ k, String.ltb m1 k = true → String.ltb k m2 = true → o !! k = None) →
  prevKeyOf m2 o = Some m1.
Proof.
  intros Hm1 Hlt Hgap. unfold prevKeyOf.
  apply last_filter_greatest; [apply sortedKeys_sorted|by apply elem_of_sortedKeys|done|].
  intros x Hx Hxlt. apply elem_of_sortedKeys in Hx.
  destruct (total String.le x m1) as [|Hle]; [done|].
  destruct (decide (x = m1)) as [->|Hne]; [done|].
  assert (o !! x = None) as Hnone; [|rewrite Hnone in Hx; by destruct Hx].
  apply Hgap; [|done]. by apply le_ltb.
Qed.

Lemma prevKeyOf_none {V} (o : gmap string V) m2 :
  (∀ k, String.ltb k m2 = true → o !! k = None) →
  prevKeyOf m2 o = None.
Proof.
  intros H. unfold prevKeyOf. rewrite filter_none; [done|].
  intros x Hx. apply elem_of_sortedKeys in Hx.
  destruct (String.ltb x m2) eqn:E; [|done].
  rewrite (H x E) in Hx. by destruct Hx.
Qed.

Lemma month_id_truthy s : month_id s = true → truthyString s = true.
Proof. by destruct s. Qed.

(** ** Lazy month creation (C1) *)

Lemma ensureUpdater_lookup T sel prev :
  months (ensureUpdater T sel prev) !! sel =
  Some (let carry := match prevKeyOf sel (months prev) with
                     | Some prevKey =>
                         if truthyString prevKey
                         then default (emptyMonth T) (months prev !! prevKey)
                         else emptyMonth T
                     | None => emptyMonth T
                     end in
        mkMonth (zeroed (t_income T))
                (m_saving carry ∪ zeroed (t_saving T))
                (m_investment carry ∪ zeroed (t_investment T))
                (zeroed (t_expense T))).
Proof. unfold ensureUpdater. simpl. by rewrite lookup_insert_eq. Qed.

Lemma ensureUpdater_other T sel prev k :
  k ≠ sel → months (ensureUpdater T sel prev) !! k = months prev !! k.
Proof. intros. unfold ensureUpdater. simpl. by rewrite lookup_insert_ne. Qed.

Lemma union_zeroed_self cats : zeroed cats ∪ zeroed cats = zeroed cats.
Proof. apply map_eq. intros i. rewrite lookup_union. by destruct (zeroed cats !! i). Qed.

(** C1.  When the selected month [m2] has no record and [m1] is the
    nearest earlier month with a record (no key of the ledger lies
    strictly between them), the effect creates a record for [m2] whose
    saving and investment buckets hold every entry of [m1]'s buckets with
    the same amount (and a zero for the template names [m1] lacks), and
    whose income and expense buckets hold exactly a zero for every
    template name.  When the ledger has no earlier key at all, the new
    record is the zero-filled template shape in all four buckets. *)
Theorem ensureSelected_carries_forward (T : Templates) (d : Data) (m2 : string) :
  month_id m2 = true →
  months d !! m2 = None →
  (∀ m1 r1,
     month_id m1 = true →
     String.ltb m1 m2 = true →
     months d !! m1 = Some r1 →
     (∀ k, String.ltb m1 k = true → String.ltb k m2 = true → months d !! k = None) →
     ∃ r2, months (ensureSelected T m2 d) !! m2 = Some r2
       ∧ (∀ c v, m_saving r1 !! c = Some v → m_saving r2 !! c = Some v)
       ∧ (∀ c v, m_investment r1 !! c = Some v → m_investment r2 !! c = Some v)
       ∧ (∀ c, m_saving r1 !! c = None →
               m_saving r2 !! c = if decide (c ∈ t_saving T) then Some 0 else None)
       ∧ (∀ c, m_investment r1 !! c = None →
               m_investment r2 !! c = if decide (c ∈ t_investment T) then Some 0 else None)
       ∧ (∀ c, m_income r2 !! c = if decide (c ∈ t_income T) then Some 0 else None)
       ∧ (∀ c, m_expense r2 !! c = if decide (c ∈ t_expense T) then Some 0 else None))
  ∧ ((∀ k, String.ltb k m2 = true → months d !! k = None) →
     months (ensureSelected T m2 d) !! m2 = Some (emptyMonth T)).
Proof.
  intros _ Habsent. unfold ensureSelected. rewrite Habsent. split.
  - intros m1 r1 Hid Hlt Hm1 Hgap.
    rewrite ensureUpdater_lookup.
    rewrite (prevKeyOf_nearest (months d) m1 m2) by eauto.
    rewrite (month_id_truthy m1 Hid), Hm1. simpl.
    eexists. split; [done|]. simpl.
    repeat split; intros c.
    + intros v Hv. by apply lookup_union_Some_l.
    + intros v Hv. by apply lookup_union_Some_l.
    + intros Hc. rewrite lookup_union_r by done. apply zeroed_lookup.
    + intros Hc. rewrite lookup_union_r by done. apply zeroed_lookup.
    + apply zeroed_lookup.
    + apply zeroed_lookup.
  - intros Hnone. rewrite ensureUpdater_lookup.
    rewrite prevKeyOf_none by done. simpl.
    by rewrite !union_zeroed_self.
Qed.

(** The scenario of the specification: April 2024 is created after March,
    which holds 500 under Current. *)
Lemma ensureSelected_carries_forward_witness :
  ∃ r2, months (ensureSelected (TEMPLATES noTemplates) "2024-04" ledgerMarch) !! "2024-04" = Some r2
        ∧ m_saving r2 !! "Current" = Some 500
        ∧ m_income r2 !! "Salary" = Some 0.
Proof.
  destruct (ensureSelected_carries_forward (TEMPLATES noTemplates) ledgerMarch "2024-04")
    as [H _]; [reflexivity|reflexivity|].
  destruct (H "2024-03" (mkMonth ∅ {[ "Current" := 500 ]} ∅ ∅))
    as (r2 & Hr2 & Hsav & _ & _ & _ & Hinc & _); [reflexivity|reflexivity|reflexivity| |].
  - intros k H1 H2. unfold ledgerMarch. simpl.
    apply lookup_singleton_ne. intros <-. by rewrite ltb_irrefl in H1.
  - exists r2. split; [exact Hr2|]. split; [by apply Hsav|].
    rewrite Hinc. reflexivity.
Defined.

(** ** Aggregation (C7) *)

Lemma plus_lookup a b c :
  plus a b !! c = match a !! c, b !! c with
                  | Some x, Some y => Some (x + y)
                  | Some x, None => Some x
                  | None, Some y => Some y
                  | None, None => None
                  end.
Proof. unfold plus. rewrite lookup_union_with. by destruct (a !! c), (b !! c). Qed.

Lemma addEntries_lookup acc entries c :
  addEntries acc entries !! c =
  match entries !! c with
  | Some v => Some (default 0 (acc !! c) + v)
  | None => acc !! c
  end.
Proof.
  unfold addEntries. revert c.
  apply (map_fold_weak_ind (λ r m, ∀ c, r !! c = match m !! c with
                                                 | Some v => Some (default 0 (acc !! c) + v)
                                                 | None => acc !! c
                                                 end)).
  - intros c. by rewrite lookup_empty.
  - intros i x m r Hi IH c. destruct (decide (i = c)) as [->|Hne].
    + rewrite !lookup_insert_eq. by rewrite IH, Hi.
    + rewrite !lookup_insert_ne by done. apply IH.
Qed.

Lemma addEntries_plus acc entries : addEntries acc entries = plus acc entries.
Proof.
  apply map_eq. intros c. rewrite addEntries_lookup, plus_lookup.
  destruct (entries !! c), (acc !! c); simpl; f_equal; lia.
Qed.

Lemma addMonth_plusMonth acc month : addMonth acc month = plusMonth acc month.
Proof.
  unfold addMonth, plusMonth. simpl. rewrite !addEntries_plus. by destruct acc, month.
Qed.

Lemma plus_comm a b : plus a b = plus b a.
Proof.
  apply map_eq. intros c. rewrite !plus_lookup.
  destruct (a !! c), (b !! c); f_equal; lia.
Qed.

Lemma plus_assoc a b c : plus (plus a b) c = plus a (plus b c).
Proof.
  apply map_eq. intros i. rewrite !plus_lookup.
  destruct (a !! i), (b !! i), (c !! i); f_equal; lia.
Qed.

Lemma plus_empty_l a : plus ∅ a = a.
Proof. apply map_eq. intros i. rewrite plus_lookup, lookup_empty. by destruct (a !! i). Qed.

Lemma plus_empty_r a : plus a ∅ = a.
Proof. by rewrite plus_comm, plus_empty_l. Qed.

Lemma plusMonth_comm a b : plusMonth a b = plusMonth b a.
Proof. unfold plusMonth. f_equal; apply plus_comm. Qed.

Lemma plusMonth_assoc a b c : plusMonth (plusMonth a b) c = plusMonth a (plusMonth b c).
Proof. unfold plusMonth. simpl. f_equal; apply plus_assoc. Qed.

Lemma plusMonth_noTotals_l a : plusMonth noTotals a = a.
Proof. unfold plusMonth. simpl. rewrite !plus_empty_l. by destruct a. Qed.

Lemma plusMonth_noTotals_r a : plusMonth a noTotals = a.
Proof. by rewrite plusMonth_comm, plusMonth_noTotals_l. Qed.

Lemma addKey_plusMonth d acc m : addKey d acc m = plusMonth acc (addKey d noTotals m).
Proof.
  unfold addKey. destruct (months d !! m).
  - by rewrite !addMonth_plusMonth, plusMonth_noTotals_l.
  - by rewrite plusMonth_noTotals_r.
Qed.

Lemma foldl_addKey_plusMonth d ks acc :
  foldl (addKey d) acc ks = plusMonth acc (foldl (addKey d) noTotals ks).
Proof.
  revert acc. induction ks as [|k ks IH]; intros acc; simpl.
  - by rewrite plusMonth_noTotals_r.
  - rewrite IH, (IH (addKey d noTotals k)), (addKey_plusMonth d acc).
    by rewrite plusMonth_assoc.
Qed.

Lemma foldl_addKey_perm d ks1 ks2 :
  ks1 ≡ₚ ks2 → ∀ acc, foldl (addKey d) acc ks1 = foldl (addKey d) acc ks2.
Proof.
  induction 1 as [|x l1 l2 _ IH|x y l|l1 l2 l3 _ IH1 _ IH2]; intros acc; simpl.
  - done.
  - apply IH.
  - f_equal. rewrite (addKey_plusMonth d (addKey d acc y)), (addKey_plusMonth d acc y).
    rewrite (addKey_plusMonth d (addKey d acc x)), (addKey_plusMonth d acc x).
    rewrite !plusMonth_assoc. f_equal. apply plusMonth_comm.
  - by rewrite IH1.
Qed.

(** As stated, C7 fails: the totals are sums of doubles, and the
    addition of doubles is not associative.  With an income of 0.1, 0.2
    and 0.3 in three months, the total over the months in calendar order
    is (0.1 + 0.2) + 0.3 = 0.6000000000000001, and over the same months
    in reverse order (0.3 + 0.2) + 0.1 = 0.6. *)
Lemma aggregated_order_matters :
  ["2024-01"; "2024-02"; "2024-03"] ≡ₚ ["2024-03"; "2024-02"; "2024-01"]
  ∧ Doubles.aggregated ["2024-01"; "2024-02"; "2024-03"] ledgerOfTenths ≠
    Doubles.aggregated ["2024-03"; "2024-02"; "2024-01"] ledgerOfTenths.
Proof.
  split.
  - symmetry. exact (reverse_Permutation ["2024-01"; "2024-02"; "2024-03"]).
  - intros H.
    set (total := λ m : Doubles.Month,
           default 0%float (Doubles.m_income m !! "Salary")).
    assert (PrimFloat.ltb
              (total (Doubles.aggregated ["2024-03"; "2024-02"; "2024-01"] ledgerOfTenths))
              (total (Doubles.aggregated ["2024-01"; "2024-02"; "2024-03"] ledgerOfTenths))
            = true) as Hlt by (vm_compute; reflexivity).
    rewrite H in Hlt. vm_compute in Hlt. discriminate Hlt.
Qed.

(** C7, amended.  For integer amounts whose magnitudes add up to at most
    2^53 over the months aggregated (the range in which the sums of
    doubles are exact), the totals do not depend on the order of the
    month keys: two sequences that are permutations of each other
    aggregate to the same per-bucket totals, and the totals of a
    concatenation are, per bucket and per category, the sum of the
    totals of the two parts (an entry on one side only is kept as it
    is), for all sequences, disjoint or not.  A key with no record in
    the ledger contributes nothing, whatever the amounts. *)
Theorem aggregated_order_independent (d : Data) :
  (∀ ks1 ks2, ks1 ≡ₚ ks2 → magnitudeOfMonths ks1 d ≤ 2 ^ 53 →
     aggregated ks1 d = aggregated ks2 d)
  ∧ (∀ ks1 ks2 k c,
       magnitudeOfMonths (ks1 ++ ks2) d ≤ 2 ^ 53 →
       get k (aggregated (ks1 ++ ks2) d) !! c =
       match get k (aggregated ks1 d) !! c, get k (aggregated ks2 d) !! c with
       | Some x, Some y => Some (x + y)
       | Some x, None => Some x
       | None, Some y => Some y
       | None, None => None
       end)
  ∧ (∀ ks1 m ks2, months d !! m = None →
       aggregated (ks1 ++ m :: ks2) d = aggregated (ks1 ++ ks2) d).
Proof.
  assert (∀ ks, aggregated ks d = foldl (addKey d) noTotals ks) as Hagg by done.
  split; [|split].
  - intros ks1 ks2 Hp _. rewrite !Hagg. by apply foldl_addKey_perm.
  - intros ks1 ks2 k c _. rewrite !Hagg, foldl_app, foldl_addKey_plusMonth.
    destruct k; simpl; apply plus_lookup.
  - intros ks1 m ks2 Hm. rewrite !Hagg, !foldl_app. simpl.
    unfold addKey at 2. by rewrite Hm.
Qed.

(** ** Edits through the combined saving and investment chart (C8) *)

Lemma updateAmountUpdater_lookup T sel b cat v prev :
  months (updateAmountUpdater T sel b cat v prev) !! sel =
  Some (applyTo (monthOr T sel prev) cat v (targetBucket T b (monthOr T sel prev) cat)).
Proof. unfold updateAmountUpdater. simpl. by rewrite lookup_insert_eq. Qed.

Lemma updateAmountUpdater_other T sel b cat v prev k :
  k ≠ sel → months (updateAmountUpdater T sel b cat v prev) !! k = months prev !! k.
Proof. intros. unfold updateAmountUpdater. simpl. by rewrite lookup_insert_ne. Qed.

Lemma hasOwnProperty_true o cat : hasOwnProperty o cat = true ↔ is_Some (o !! cat).
Proof. unfold hasOwnProperty. apply bool_decide_eq_true. Qed.

Lemma hasOwnProperty_false o cat : hasOwnProperty o cat = false ↔ o !! cat = None.
Proof.
  unfold hasOwnProperty. rewrite bool_decide_eq_false.
  rewrite eq_None_not_Some. done.
Qed.


(** ** Invalid input (C4) *)

(** As stated, C4 fails for edits: with the Expenses chart open, saving
    an edit of Rent whose input reads as [NaN] overwrites 1000 by 0 and
    registers an undo. *)
Lemma saveEdit_NaN_is_not_a_noop :
  let s := openBreakdown ExpensesCosts (januaryForm "" (Fin 0)) in
  amountOf "2024-01" expense "Rent" s = Some 1000
  ∧ snackbar s = None
  ∧ amountOf "2024-01" expense "Rent" (saveEdit "Rent" NaN s) = Some 0
  ∧ snackbar (saveEdit "Rent" NaN s) = Some (mkUndo (envOf s) "Rent" 1000).
Proof. repeat split; vm_compute; reflexivity. Qed.

(** C4, amended.  [addItem] returns the state it was given (no store is
    changed, no undo is registered, the form is not cleared) when the
    amount does not read as a finite number or the category to use is
    empty.  An edit is not guarded: when a chart with a bucket is open,
    saving an edit whose amount reads as [NaN] writes 0 for the category
    in the selected month and registers an undo holding the old value. *)
Theorem invalid_input_policy :
  (∀ kind s, isFinite (newAmt s) = false ∨ catToUse s = "" → addItem kind s = s)
  ∧ (∀ cat s b, breakdownBucket s = Some b →
       let T := TEMPLATES (userTemplates s) in
       let base := monthOr T (selectedMonth s) (data s) in
       let s' := saveEdit cat NaN s in
       amountOf (selectedMonth s) (targetBucket T b base cat) cat s' = Some 0
       ∧ snackbar s' = Some (mkUndo (envOf s) cat (oldValOf b base cat))
       ∧ userTemplates s' = userTemplates s
       ∧ settings s' = settings s).
Proof.
  split.
  - intros kind s [Hamt|Hcat]; unfold addItem.
    + by destruct (newAmt s).
    + destruct (newAmt s); [|done]. by rewrite Hcat.
  - intros cat s b Hb T base s'. unfold s', saveEdit, updateAmount, amountOf.
    simpl. rewrite Hb. simpl. fold T base. split; [|done].
    rewrite lookup_insert_eq. simpl.
    unfold applyTo. rewrite get_set_eq. by rewrite lookup_insert_eq.
Qed.

(** ** Undo (C5) *)

(** C5, on the scenario of the specification.  Rent stands at 1000 and
    the cash flow at 2000; no chart is open, as it is whenever the adder
    form can be used.  Adding 200 to Rent gives 1200 and a cash flow of
    1800, and registers an undo that holds the old amount 1000.  That undo
    calls [updateAmount], which looks at the bucket of the open chart
    instead of the bucket the entry was added to: with no chart open it
    returns at once, and Rent stays at 1200. *)
Theorem addItem_undo_scenario :
  let s0 := januaryForm "Rent" (Fin 200) in
  let s1 := addItem expense s0 in
  let s2 := clickUndo s1 in
  (amountOf "2024-01" expense "Rent" s0 = Some 1000
   ∧ cashFlow (aggregated ["2024-01"] (data s0)) = 2000)
  ∧ (amountOf "2024-01" expense "Rent" s1 = Some 1200
     ∧ cashFlow (aggregated ["2024-01"] (data s1)) = 1800
     ∧ snackbar s1 = Some (mkUndo (envOf s0) "Rent" 1000))
  ∧ (amountOf "2024-01" expense "Rent" s2 = Some 1200
     ∧ cashFlow (aggregated ["2024-01"] (data s2)) = 1800).
Proof. repeat split; vm_compute; reflexivity. Qed.

(** The same for every state: while no chart is open, the undo of an
    entry that was added changes nothing in the ledger. *)
Lemma addItem_undo_without_chart kind s amt :
  breakdownBucket s = None →
  newAmt s = Fin amt →
  truthyString (catToUse s) = true →
  data (clickUndo (addItem kind s)) = data (addItem kind s).
Proof.
  intros Hb Hamt Hcat. unfold addItem. rewrite Hamt, Hcat. simpl.
  unfold clickUndo, updateAmount.
  destruct (truthyString (newOther _) && rememberSubheading _); simpl; by rewrite Hb.
Qed.

(** With the chart of the entry's own bucket open, the same undo does
    restore Rent and the cash flow. *)
Lemma addItem_undo_with_chart :
  let s0 := openBreakdown ExpensesCosts (januaryForm "Rent" (Fin 200)) in
  let s2 := clickUndo (addItem expense s0) in
  amountOf "2024-01" expense "Rent" s2 = Some 1000
  ∧ cashFlow (aggregated ["2024-01"] (data s2)) = 2000.
Proof. repeat split; vm_compute; reflexivity. Qed.

Lemma updateAmount_data e cat v s b :
  e_bucket e = Some b →
  data (updateAmount e cat v s) =
  updateAmountUpdater (e_TEMPLATES e) (e_selectedMonth e) b cat v (data s).
Proof. intros Hb. unfold updateAmount. by rewrite Hb. Qed.

Lemma updateAmount_snackbar e cat v s b :
  e_bucket e = Some b →
  snackbar (updateAmount e cat v s) =
  Some (mkUndo e cat (oldValOf b (monthOr (e_TEMPLATES e) (e_selectedMonth e) (e_data e)) cat)).
Proof. intros Hb. unfold updateAmount. by rewrite Hb. Qed.

(** An edit made through the chart of a single bucket is undone exactly:
    after the undo the category counts for what it counted before (a
    missing entry counts for 0), and no other entry of the ledger has
    changed. *)
Lemma saveEdit_undo_restores k cat v s :
  breakdownBucket s = Some (Plain k) →
  let s2 := clickUndo (saveEdit cat v s) in
  default 0 (amountOf (selectedMonth s) k cat s2) =
    default 0 (amountOf (selectedMonth s) k cat s)
  ∧ (∀ key k' cat', is_Some (months (data s) !! key) →
       (key, k', cat') ≠ (selectedMonth s, k, cat) →
       amountOf key k' cat' s2 = amountOf key k' cat' s).
Proof.
  intros Hb s2.
  assert (data s2 =
          updateAmountUpdater (TEMPLATES (userTemplates s)) (selectedMonth s) (Plain k) cat
            (Fin (default 0 (get k (monthOr (TEMPLATES (userTemplates s)) (selectedMonth s) (data s)) !! cat)))
            (updateAmountUpdater (TEMPLATES (userTemplates s)) (selectedMonth s) (Plain k) cat v
               (data s))) as Hd.
  { unfold s2, clickUndo, saveEdit.
    rewrite (updateAmount_snackbar _ _ _ _ (Plain k)) by done. simpl.
    rewrite (updateAmount_data _ _ _ _ (Plain k)) by done. simpl.
    by rewrite (updateAmount_data _ _ _ _ (Plain k)) by done. }
  unfold amountOf. rewrite Hd. clear Hd s2.
  unfold updateAmountUpdater, monthOr, applyTo. simpl.
  rewrite !lookup_insert_eq. simpl. split.
  - rewrite !get_set_eq, lookup_insert_eq. simpl.
    destruct (months (data s) !! selectedMonth s) as [m|]; simpl; [done|].
    rewrite get_emptyMonth.
    destruct (zeroed (names k _) !! cat) eqn:E; [|done].
    by apply zeroed_Some in E as [-> _].
  - intros key k' cat' Hkey Hne.
    destruct (decide (key = selectedMonth s)) as [->|Hk].
    + rewrite !lookup_insert_eq. simpl.
      destruct Hkey as [m Hm]. rewrite Hm. simpl.
      destruct (decide (k = k')) as [<-|Hk'].
      * rewrite !get_set_eq. rewrite !lookup_insert_ne by congruence. done.
      * by rewrite !get_set_ne.
    + by rewrite !lookup_insert_ne.
Qed.

(** Through the combined chart the undo can miss: when a category is a
    key of both the saving and the investment bucket, the old value is
    the sum of the two entries, but the undo writes it into saving alone. *)
Lemma saveEdit_undo_combined_misses :
  let d := mkData {[ "2024-01" := mkMonth ∅ {[ "Cash" := 100 ]} {[ "Cash" := 50 ]} ∅ ]} in
  let s := mkState d noTemplates defaultSettings "2024-01" (Some SavingInvest) None
             false None "" "" (Fin 0) true in
  let s2 := clickUndo (saveEdit "Cash" (Fin 200) s) in
  amountOf "2024-01" saving "Cash" s = Some 100
  ∧ amountOf "2024-01" investment "Cash" s = Some 50
  ∧ amountOf "2024-01" saving "Cash" s2 = Some 150
  ∧ amountOf "2024-01" investment "Cash" s2 = Some 50.
Proof. repeat split; vm_compute; reflexivity. Qed.

(** ** Template categories and month records (C9) *)

Lemma includesBase_TEMPLATES ut : includesBase (TEMPLATES ut).
Proof. intros k c Hc. destruct k; unfold names, TEMPLATES in *; apply elem_of_app; by left. Qed.

Lemma hasEntries_emptyMonth T : hasEntries T (emptyMonth T).
Proof. intros k c Hc. rewrite get_emptyMonth, zeroed_elem; eauto. Qed.

Lemma hasEntries_includesBase T r : includesBase T → hasEntries T r → hasEntries BASE_TEMPLATES r.
Proof. intros Hi Hr k c Hc. apply Hr, Hi, Hc. Qed.

Lemma keepsEntries_refl r : keepsEntries r r.
Proof. by intros k c. Qed.

Lemma keepsEntries_write r k cat v :
  keepsEntries r (set k (<[cat := v]> (get k r)) r).
Proof.
  intros k' c Hc. destruct (decide (k = k')) as [<-|Hk].
  - rewrite get_set_eq. destruct (decide (cat = c)) as [->|Hne].
    + rewrite lookup_insert_eq. eauto.
    + by rewrite lookup_insert_ne.
  - by rewrite get_set_ne.
Qed.

Lemma hasEntries_keeps T r r' : hasEntries T r → keepsEntries r r' → hasEntries T r'.
Proof. intros Hr Hk k c Hc. apply Hk, Hr, Hc. Qed.

(** The record that the lazy creation writes has an entry for every
    category of the templates it was created from. *)
Lemma ensureUpdater_hasEntries T sel prev :
  ∃ r, months (ensureUpdater T sel prev) !! sel = Some r ∧ hasEntries T r.
Proof.
  rewrite ensureUpdater_lookup. eexists. split; [done|].
  intros k c Hc. pose proof (zeroed_elem _ _ Hc) as Hz.
  assert (∀ o : gmap string Z, is_Some ((o ∪ zeroed (names k T)) !! c)) as Hu.
  { intros o. rewrite lookup_union, Hz. destruct (o !! c); simpl; eauto. }
  destruct k; simpl in *; rewrite ?Hz; eauto.
Qed.

(** The month written by [addItem] or [updateAmount] keeps the entries of
    the record it starts from. *)
Lemma monthOr_cases T key d :
  (∃ r, months d !! key = Some r ∧ monthOr T key d = r)
  ∨ (months d !! key = None ∧ monthOr T key d = emptyMonth T).
Proof. unfold monthOr. destruct (months d !! key); eauto. Qed.

Lemma addItemUpdater_lookup T sel kind cat amt prev :
  months (addItemUpdater T sel kind cat amt prev) !! sel =
  Some (set kind (<[cat := default 0 (get kind (monthOr T sel prev) !! cat) + amt]>
                    (get kind (monthOr T sel prev))) (monthOr T sel prev)).
Proof. unfold addItemUpdater. simpl. by rewrite lookup_insert_eq. Qed.

Lemma addItemUpdater_other T sel kind cat amt prev k :
  k ≠ sel → months (addItemUpdater T sel kind cat amt prev) !! k = months prev !! k.
Proof. intros. unfold addItemUpdater. simpl. by rewrite lookup_insert_ne. Qed.

Lemma addItemUpdater_writes T sel kind cat amt d :
  writesMonth T sel d (addItemUpdater T sel kind cat amt d).
Proof.
  split; [|intros; by apply addItemUpdater_other].
  rewrite addItemUpdater_lookup. eexists. split; [done|]. apply keepsEntries_write.
Qed.

Lemma updateAmountUpdater_writes T sel b cat v d :
  writesMonth T sel d (updateAmountUpdater T sel b cat v d).
Proof.
  split; [|intros; by apply updateAmountUpdater_other].
  rewrite updateAmountUpdater_lookup. eexists. split; [done|]. apply keepsEntries_write.
Qed.

Lemma writesMonth_builtin T sel d d' :
  includesBase T → writesMonth T sel d d' →
  builtinEntriesPresent d → builtinEntriesPresent d'.
Proof.
  intros HT [(r' & Hr' & Hk) Ho] Hd key r Hr.
  destruct (decide (key = sel)) as [->|Hne].
  - rewrite Hr' in Hr. injection Hr as <-.
    eapply hasEntries_keeps; [|done].
    destruct (monthOr_cases T sel d) as [(r0 & H0 & ->)|[_ ->]]; [by eapply Hd|].
    by apply (hasEntries_includesBase T), hasEntries_emptyMonth.
  - rewrite Ho in Hr by done. by eapply Hd.
Qed.

Lemma writesMonth_keeps T sel d d' key r :
  writesMonth T sel d d' → months d !! key = Some r →
  ∃ r', months d' !! key = Some r' ∧ keepsEntries r r'.
Proof.
  intros [(r' & Hr' & Hk) Ho] Hr. destruct (decide (key = sel)) as [->|Hne].
  - exists r'. split; [done|]. unfold monthOr in Hk. by rewrite Hr in Hk.
  - exists r. rewrite Ho by done. split; [done|]. apply keepsEntries_refl.
Qed.

Lemma ensureSelected_builtin T sel d :
  includesBase T → builtinEntriesPresent d → builtinEntriesPresent (ensureSelected T sel d).
Proof.
  intros HT Hd. unfold ensureSelected. destruct (months d !! sel) eqn:E; [done|].
  intros key r Hr. destruct (decide (key = sel)) as [->|Hne].
  - destruct (ensureUpdater_hasEntries T sel d) as (r' & Hr' & He).
    rewrite Hr' in Hr. injection Hr as <-. by apply (hasEntries_includesBase T).
  - rewrite ensureUpdater_other in Hr by done. by eapply Hd.
Qed.

Lemma ensureSelected_keeps T sel d key r :
  months d !! key = Some r → months (ensureSelected T sel d) !! key = Some r.
Proof.
  intros Hr. unfold ensureSelected. destruct (months d !! sel) eqn:E; [done|].
  rewrite ensureUpdater_other; [done|]. intros ->. congruence.
Qed.

Lemma updateAmount_cases e cat v s :
  updateAmount e cat v s = s
  ∨ ∃ b, data (updateAmount e cat v s) =
           updateAmountUpdater (e_TEMPLATES e) (e_selectedMonth e) b cat v (data s)
         ∧ (∃ old, snackbar (updateAmount e cat v s) = Some (mkUndo e cat old)).
Proof.
  unfold updateAmount. destruct (e_bucket e) as [b|]; [|by left].
  right. exists b. split; [done|]. by eexists.
Qed.

Lemma addItem_cases kind s :
  addItem kind s = s
  ∨ ∃ cat amt old,
      data (addItem kind s) =
        addItemUpdater (TEMPLATES (userTemplates s)) (selectedMonth s) kind cat amt (data s)
      ∧ snackbar (addItem kind s) = Some (mkUndo (envOf s) cat old).
Proof.
  unfold addItem. destruct (newAmt s) as [amt|]; [|by left].
  destruct (negb (truthyString (catToUse s))); [by left|].
  right. eexists _, amt, _.
  by destruct (truthyString (newOther _) && rememberSubheading _).
Qed.

Lemma updateAmount_inv e cat v s :
  includesBase (e_TEMPLATES e) → reachableInv s → reachableInv (updateAmount e cat v s).
Proof.
  intros He [Hd Hu]. destruct (updateAmount_cases e cat v s) as [->|(b & Hdata & old & Hsn)];
    [done|].
  split.
  - rewrite Hdata. eapply writesMonth_builtin; [done|apply updateAmountUpdater_writes|done].
  - intros u. rewrite Hsn. by intros [= <-].
Qed.

Lemma step_inv a s : reachableInv s → reachableInv (step a s).
Proof.
  intros Hs. pose proof Hs as [Hd Hu]. destruct a; simpl; try done.
  - split; [|done]. simpl. apply ensureSelected_builtin; [apply includesBase_TEMPLATES|done].
  - destruct (addItem_cases kind s) as [->|(cat & amt & old & Hdata & Hsn)]; [done|].
    split.
    + rewrite Hdata. eapply writesMonth_builtin;
        [apply includesBase_TEMPLATES|apply addItemUpdater_writes|done].
    + intros u. rewrite Hsn. intros [= <-]. apply includesBase_TEMPLATES.
  - apply updateAmount_inv; [apply includesBase_TEMPLATES|done].
  - unfold confirmDelete, deleteAmount, showUndo. split; simpl.
    + apply updateAmount_inv; [apply includesBase_TEMPLATES|done].
    + intros u [= <-]. apply includesBase_TEMPLATES.
  - unfold clickUndo. destruct (snackbar s) as [u|] eqn:Hsn; [|done].
    split; simpl; [|done]. apply updateAmount_inv; [by apply Hu|done].
  - destruct confirmed; [|done]. split; [|done]. simpl.
    intros key r Hr. unfold createInitialData in Hr. simpl in Hr.
    apply lookup_singleton_Some in Hr as [_ <-].
    apply (hasEntries_includesBase (TEMPLATES (userTemplates s)));
      [apply includesBase_TEMPLATES|apply hasEntries_emptyMonth].
  - by destruct confirmed.
Qed.

Lemma run_inv l s : reachableInv s → reachableInv (run l s).
Proof.
  revert s. induction l as [|a l IH]; intros s Hs; [done|].
  simpl. apply IH. by apply step_inv.
Qed.

Lemma initialState_inv monthKey : reachableInv (initialState monthKey).
Proof.
  split; [|done]. intros key r Hr. unfold initialState, createInitialData in Hr.
  simpl in Hr. apply lookup_singleton_Some in Hr as [_ <-].
  apply (hasEntries_includesBase (TEMPLATES noTemplates));
    [apply includesBase_TEMPLATES|apply hasEntries_emptyMonth].
Qed.

Lemma step_keeps a s key r :
  keepsLedger a → months (data s) !! key = Some r →
  ∃ r', months (data (step a s)) !! key = Some r' ∧ keepsEntries r r'.
Proof.
  intros Ha Hr.
  assert (∀ e cat v s0, months (data s0) !! key = Some r →
            ∃ r', months (data (updateAmount e cat v s0)) !! key = Some r' ∧ keepsEntries r r')
    as Hup.
  { intros e cat v s0 H0.
    destruct (updateAmount_cases e cat v s0) as [->|(b & Hdata & _)].
    - exists r. split; [done|apply keepsEntries_refl].
    - rewrite Hdata. eapply writesMonth_keeps; [apply updateAmountUpdater_writes|done]. }
  destruct a; simpl in *; try (exists r; split; [done|apply keepsEntries_refl]).
  - exists r. split; [by apply ensureSelected_keeps|apply keepsEntries_refl].
  - destruct (addItem_cases kind s) as [->|(cat & amt & old & Hdata & _)].
    + exists r. split; [done|apply keepsEntries_refl].
    + rewrite Hdata. eapply writesMonth_keeps; [apply addItemUpdater_writes|done].
  - by apply Hup.
  - by apply Hup.
  - unfold clickUndo. destruct (snackbar s) as [u|].
    + simpl. by apply Hup.
    + exists r. split; [done|apply keepsEntries_refl].
  - destruct confirmed; [done|]. exists r. split; [done|apply keepsEntries_refl].
  - destruct confirmed; exists r; (split; [done|apply keepsEntries_refl]).
Qed.

(** As stated, C9 fails: after [gymVisit] the Template Store lists Gym
    for the expense bucket, and the record of January, created before,
    has no entry for it. *)
Lemma templateEntriesPresent_fails :
  ¬ templateEntriesPresent (run gymVisit (initialState "2024-01")).
Proof.
  intros H.
  assert (months (data (run gymVisit (initialState "2024-01"))) !! "2024-01"
          = Some (emptyMonth BASE_TEMPLATES)) as Hjan by (vm_compute; reflexivity).
  specialize (H _ _ Hjan expense "Gym").
  assert (names expense (TEMPLATES (userTemplates (run gymVisit (initialState "2024-01"))))
          = (names expense BASE_TEMPLATES ++ ["Gym"])%list) as Hn by (vm_compute; reflexivity).
  rewrite Hn in H.
  destruct H as [v Hv]; [set_solver|]. vm_compute in Hv. discriminate.
Qed.

(** C9, amended.  In every state reached from a first visit by the
    modelled actions (backup import is not one of them), every month
    record has an entry for every built-in category.  A record created by
    the lazy month creation, or by [createInitialData], has an entry for
    every category of the Template Store it is created from, custom names
    included.  No action other than a confirmed data reset removes an
    entry of a record.  Nothing gives a record created earlier an entry
    for a custom name remembered later. *)
Theorem template_entries_by_creation :
  (∀ monthKey actions,
     builtinEntriesPresent (data (run actions (initialState monthKey))))
  ∧ (∀ T sel d, months d !! sel = None →
       ∃ r, months (ensureSelected T sel d) !! sel = Some r ∧ hasEntries T r)
  ∧ (∀ monthKey T key r,
       months (createInitialData monthKey T) !! key = Some r → hasEntries T r)
  ∧ (∀ a s key r, keepsLedger a → months (data s) !! key = Some r →
       ∃ r', months (data (step a s)) !! key = Some r' ∧ keepsEntries r r').
Proof.
  repeat split.
  - intros monthKey actions. apply run_inv, initialState_inv.
  - intros T sel d Hnone. unfold ensureSelected. rewrite Hnone.
    apply ensureUpdater_hasEntries.
  - intros monthKey T key r Hr. unfold createInitialData in Hr. simpl in Hr.
    apply lookup_singleton_Some in Hr as [_ <-]. apply hasEntries_emptyMonth.
  - intros a s key r. apply step_keeps.
Qed.

(** ** Template reset (C10) *)

Lemma ensureEffect_amountOf s key k cat v :
  amountOf key k cat s = Some v → amountOf key k cat (ensureEffect s) = Some v.
Proof.
  unfold amountOf, ensureEffect. simpl.
  destruct (months (data s) !! key) as [r|] eqn:Hr; [|done].
  by rewrite (ensureSelected_keeps _ _ _ _ _ Hr).
Qed.

(** C10.  A confirmed template reset empties the four lists of custom
    names and changes neither the ledger nor the settings: every month
    record keeps every entry with its amount, also for the categories that
    are no longer listed, and the names on offer are the built-in ones
    again.  The effect that re-runs when the templates change can only add
    a record for a selected month that has none; it changes no existing
    entry.  A declined reset changes nothing. *)
Theorem resetTemplates_frame (s : State) :
  let s' := resetTemplates true s in
  (∀ k, names k (userTemplates s') = [])
  ∧ data s' = data s
  ∧ settings s' = settings s
  ∧ (∀ key k cat, amountOf key k cat s' = amountOf key k cat s)
  ∧ (∀ key k cat v, amountOf key k cat s = Some v →
       amountOf key k cat (ensureEffect s') = Some v)
  ∧ TEMPLATES (userTemplates s') = BASE_TEMPLATES
  ∧ resetTemplates false s = s.
Proof.
  simpl. repeat split.
  - by intros [].
  - intros key k cat v Hv. by apply ensureEffect_amountOf.
Qed.

(** ** Backup and restore (C6), and the values of the stores *)

(** The value representations of the stores are faithful: distinct
    stores are distinct values. *)
Lemma dictEntries_inj (d1 d2 : gmap string Z) :
  (λ kv : string * Z, (kv.1, JNum kv.2)) <$> map_to_list d1 =
  (λ kv : string * Z, (kv.1, JNum kv.2)) <$> map_to_list d2 → d1 = d2.
Proof.
  intros H. apply map_to_list_inj.
  assert (Inj (=) (=) (λ kv : string * Z, (kv.1, JNum kv.2))) as Hinj.
  { intros [k1 v1] [k2 v2] [= -> ->]. done. }
  by rewrite (inj (fmap _) _ _ H).
Qed.

Lemma jsonOfDict_inj d1 d2 : jsonOfDict d1 = jsonOfDict d2 → d1 = d2.
Proof. unfold jsonOfDict. intros [= H]. by apply dictEntries_inj. Qed.

Lemma jsonOfMonth_inj m1 m2 : jsonOfMonth m1 = jsonOfMonth m2 → m1 = m2.
Proof.
  unfold jsonOfMonth, jsonOfDict.
  intros [= H1%dictEntries_inj H2%dictEntries_inj H3%dictEntries_inj H4%dictEntries_inj].
  destruct m1, m2; simpl in *; congruence.
Qed.

Lemma jsonOfData_inj d1 d2 : jsonOfData d1 = jsonOfData d2 → d1 = d2.
Proof.
  unfold jsonOfData. intros [= H]. destruct d1 as [ms1], d2 as [ms2]. simpl in *. f_equal.
  apply map_to_list_inj.
  assert (Inj (=) (=) (λ kv : string * Month, (kv.1, jsonOfMonth kv.2))) as Hinj.
  { intros [k1 v1] [k2 v2] H0. simpl in H0.
    assert (k1 = k2) as -> by congruence.
    assert (jsonOfMonth v1 = jsonOfMonth v2) as ->%jsonOfMonth_inj by congruence. done. }
  by rewrite (inj (fmap _) _ _ H).
Qed.

Lemma jsonOfTemplates_inj t1 t2 : jsonOfTemplates t1 = jsonOfTemplates t2 → t1 = t2.
Proof.
  unfold jsonOfTemplates. intros [= H1 H2 H3 H4].
  assert (Inj (=) (=) JStr) as Hinj by (by intros ?? [=]).
  apply (inj (fmap JStr)) in H1, H2, H3, H4.
  destruct t1, t2; simpl in *; congruence.
Qed.

Lemma jsonOfSettings_inj x1 x2 : jsonOfSettings x1 = jsonOfSettings x2 → x1 = x2.
Proof. unfold jsonOfSettings. intros [= ? ? ? ?]. destruct x1, x2; simpl in *; congruence. Qed.

Lemma storesOf_inj L T S L' T' S' :
  storesOf L T S = storesOf L' T' S' → L = L' ∧ T = T' ∧ S = S'.
Proof.
  unfold storesOf. intros H.
  assert (jsonOfData L = jsonOfData L') as ->%jsonOfData_inj by congruence.
  assert (jsonOfTemplates T = jsonOfTemplates T') as ->%jsonOfTemplates_inj by congruence.
  assert (jsonOfSettings S = jsonOfSettings S') as ->%jsonOfSettings_inj by congruence.
  done.
Qed.

(** As stated, C6 fails on the text [null]: it is valid JSON, and the
    import shows the failure notice (reading [json.data] throws). *)
Lemma importBackup_null_alerts :
  let JSON_parse (txt : json) := Some txt in
  let before := storesOf ledgerJanuary noTemplates defaultSettings in
  JSON_parse JNull ≠ None
  ∧ alerted (importBackup JSON_parse JNull before) = true.
Proof. split; [discriminate|reflexivity]. Qed.

(** C6, amended.  The import shows the failure notice exactly when the
    text is not valid JSON or is the JSON value [null]; it then leaves the
    three stores as they were.  Otherwise each store is replaced by the
    value under its key ([data], [templates], [settings]) when that value
    is truthy, and is left as it was when the key is absent or holds a
    falsy value ([null], [false], [0] or the empty text); so a store is
    replaced only if its key is present. *)
Theorem importBackup_policy {text : Type} (JSON_parse : text → option json)
    (txt : text) (before : Stores) :
  let r := importBackup JSON_parse txt before in
  (alerted r = true ↔ JSON_parse txt = None ∨ JSON_parse txt = Some JNull)
  ∧ (alerted r = true → stores r = before)
  ∧ (∀ parsed, JSON_parse txt = Some parsed → parsed ≠ JNull →
       restored parsed "data" (s_data before) (s_data (stores r))
       ∧ restored parsed "templates" (s_templates before) (s_templates (stores r))
       ∧ restored parsed "settings" (s_settings before) (s_settings (stores r))).
Proof.
  assert (∀ parsed key cur, restored parsed key cur (restoreKey parsed key cur)) as Hk.
  { intros parsed key cur. unfold restored, restoreKey.
    destruct (prop parsed key) as [x|]; [|done].
    repeat split; [intros y [= <-] -> | intros y [= <-] -> | done]; done. }
  intros r. unfold r, importBackup.
  destruct (JSON_parse txt) as [[]|]; simpl;
    (split; [split; [intros; first [by left|by right|done]|by intros [?|?]]
            |split; [done|]]);
    intros parsed [= <-] Hnn; try done; repeat split; apply Hk.
Qed.

(** ** Month keys: printing and reading *)

Lemma digit_pretty_char c r :
  digit c = Some r → pretty_N_char (Z.to_N r) = c ∧ 0 ≤ r ≤ 9.
Proof.
  destruct c as [[] [] [] [] [] [] [] []]; intros H; vm_compute in H;
    try discriminate; inversion H; split; (reflexivity || lia).
Qed.

Lemma digit_not_dash c r : digit c = Some r → Ascii.eqb c "-" = false.
Proof.
  destruct c as [[] [] [] [] [] [] [] []]; intros H; vm_compute in H;
    try discriminate; reflexivity.
Qed.

Lemma pretty_char_digit (r : N) : (r < 10)%N → digit (pretty_N_char r) = Some (Z.of_N r).
Proof.
  intros H.
  assert (r = 0 ∨ r = 1 ∨ r = 2 ∨ r = 3 ∨ r = 4 ∨ r = 5 ∨ r = 6 ∨ r = 7 ∨ r = 8 ∨ r = 9)%N
    as Hr by lia.
  repeat (destruct Hr as [->|Hr]; [reflexivity|]). by subst.
Qed.

(** Reading back what [pretty_N_go] printed in front of [s]. *)
Lemma digitsFrom_pretty_N_go (x : N) :
  ∃ k, ∀ acc s, digitsFrom acc (pretty_N_go x s) = digitsFrom (acc * k + Z.of_N x) s.
Proof.
  induction (N.lt_wf_0 x) as [x _ IH].
  destruct (decide (0 < x)%N) as [Hx|Hx].
  - destruct (IH (x `div` 10)%N) as [k Hk]; [by apply N.div_lt|].
    exists (10 * k). intros acc s.
    rewrite pretty_N_go_step, Hk by done. simpl.
    rewrite pretty_char_digit by (by apply N.mod_lt).
    f_equal. pose proof (N.div_mod x 10). lia.
  - exists 1. intros acc s. assert (x = 0%N) as -> by lia.
    rewrite pretty_N_go_0. f_equal. lia.
Qed.

Lemma pretty_Z_pos (y : Z) : 0 < y → pretty y = pretty_N_go (Z.to_N y) EmptyString.
Proof. destruct y; try lia. intros _. reflexivity. Qed.

(** [Number(String(y))] is [y] for a natural number. *)
Lemma NumberOfDigits_pretty (y : Z) : 0 ≤ y → NumberOfDigits (pretty y) = Some y.
Proof.
  intros Hy. destruct (decide (y = 0)) as [->|Hne]; [reflexivity|].
  rewrite pretty_Z_pos by lia. unfold NumberOfDigits.
  destruct (digitsFrom_pretty_N_go (Z.to_N y)) as [k Hk]. rewrite Hk. simpl.
  f_equal. lia.
Qed.

Lemma digitsFrom_leading_zero s : digitsFrom 0 (String "0" s) = digitsFrom 0 s.
Proof. reflexivity. Qed.

(** A text made of digits has no dash: [split] cuts right after it. *)
Lemma split_digits d acc v rest :
  digitsFrom acc d = Some v →
  split "-" (d +:+ String "-" rest) = d :: split "-" rest.
Proof.
  revert acc. induction d as [|c d IH]; intros acc H; [reflexivity|].
  simpl in H. destruct (digit c) as [r|] eqn:Hc; [|done].
  change (String c d +:+ String "-" rest) with (String c (d +:+ String "-" rest)).
  simpl. rewrite (digit_not_dash c r Hc), (IH _ H). done.
Qed.

Lemma split_no_dash d acc v : digitsFrom acc d = Some v → split "-" d = [d].
Proof.
  revert acc. induction d as [|c d IH]; intros acc H; [reflexivity|].
  simpl in H. destruct (digit c) as [r|] eqn:Hc; [|done].
  simpl. rewrite (digit_not_dash c r Hc), (IH _ H). done.
Qed.

Lemma NumberOfDigits_padStart2 s v :
  NumberOfDigits s = Some v → s ≠ EmptyString → NumberOfDigits (padStart2 s) = Some v.
Proof. destruct s as [|c [|c' s]]; done. Qed.

Lemma pretty_nonempty (y : Z) : 0 ≤ y → pretty y ≠ EmptyString.
Proof.
  intros Hy Hp. pose proof (NumberOfDigits_pretty y Hy) as H. rewrite Hp in H.
  injection H as <-. done.
Qed.

(** Reading a key that [keyOfDate] printed gives back its year and its
    month number. *)
Lemma parseKey_keyOfDate (y m0 : Z) :
  0 ≤ y → 0 ≤ m0 → parseKey (keyOfDate (y, m0)) = Some (y, m0 + 1).
Proof.
  intros Hy Hm. unfold parseKey, keyOfDate. simpl.
  pose proof (NumberOfDigits_pretty y Hy) as Hpy.
  assert (NumberOfDigits (padStart2 (pretty (m0 + 1))) = Some (m0 + 1)) as Hpm.
  { apply NumberOfDigits_padStart2; [apply NumberOfDigits_pretty; lia|].
    apply pretty_nonempty. lia. }
  change ("-" +:+ ?r) with (String "-" r).
  rewrite (split_digits _ _ _ _ Hpy), (split_no_dash _ _ _ Hpm).
  by rewrite Hpy, Hpm.
Qed.

Lemma pretty_N_go_snoc (v r : Z) s :
  0 ≤ v → 0 ≤ r < 10 → 0 < 10 * v + r →
  pretty_N_go (Z.to_N (10 * v + r)) s =
  pretty_N_go (Z.to_N v) (String (pretty_N_char (Z.to_N r)) s).
Proof.
  intros Hv Hr Hpos. rewrite pretty_N_go_step by lia.
  assert (Z.to_N (10 * v + r) `div` 10 = Z.to_N v)%N as ->.
  { rewrite <- (Z2N.inj_div _ 10) by lia. f_equal.
    symmetry. apply (Z.div_unique _ _ _ r); lia. }
  assert (Z.to_N (10 * v + r) `mod` 10 = Z.to_N r)%N as ->; [|done].
  rewrite <- (Z2N.inj_mod _ 10) by lia. f_equal.
  symmetry. apply (Z.mod_unique _ _ v); lia.
Qed.

(** The shape of a month identifier. *)
Lemma month_id_inv s :
  month_id s = true →
  ∃ a b c d e f va vb vc vd ve vf,
    s = String a (String b (String c (String d (String "-" (String e (String f EmptyString))))))
    ∧ digit a = Some va ∧ digit b = Some vb ∧ digit c = Some vc ∧ digit d = Some vd
    ∧ digit e = Some ve ∧ digit f = Some vf
    ∧ 1 ≤ 10 * ve + vf ≤ 12.
Proof.
  destruct s as [|a [|b [|c [|d [|dash [|e [|f [|]]]]]]]]; try done.
  unfold month_id, isDigit. intros H.
  repeat (apply andb_true_iff in H as [H ?]).
  repeat match goal with
         | H : bool_decide (is_Some _) = true |- _ => apply bool_decide_eq_true in H as [? ?]
         end.
  match goal with H : Ascii.eqb dash _ = true |- _ => apply Ascii.eqb_eq in H as -> end.
  destruct (digit e) as [ve|] eqn:He; [|done].
  destruct (digit f) as [vf|] eqn:Hf; [|done].
  match goal with H : (_ && _) = true |- _ => apply andb_true_iff in H as [?%Z.leb_le ?%Z.leb_le] end.
  eexists a, b, c, d, e, f, _, _, _, _, ve, vf. repeat split; eauto.
Qed.

(** A month identifier reads as a year from 0 to 9999 and a month from 1
    to 12; from the year 1000 on, it is the key that [keyOfDate] prints
    for that year and month. *)
Lemma month_id_parse s :
  month_id s = true →
  ∃ y m, parseKey s = Some (y, m) ∧ 0 ≤ y ≤ 9999 ∧ 1 ≤ m ≤ 12
         ∧ (1000 ≤ y → keyOfDate (y, m - 1) = s).
Proof.
  intros (a & b & c & d & e & f & va & vb & vc & vd & ve & vf &
          -> & Ha & Hb & Hc & Hd & He & Hf & Hm)%month_id_inv.
  pose proof (digit_pretty_char _ _ Ha) as [Ca ?].
  pose proof (digit_pretty_char _ _ Hb) as [Cb ?].
  pose proof (digit_pretty_char _ _ Hc) as [Cc ?].
  pose proof (digit_pretty_char _ _ Hd) as [Cd ?].
  pose proof (digit_pretty_char _ _ He) as [Ce ?].
  pose proof (digit_pretty_char _ _ Hf) as [Cf ?].
  set (ys := String a (String b (String c (String d EmptyString)))).
  set (ms := String e (String f EmptyString)).
  set (y := 10 * (10 * (10 * (10 * 0 + va) + vb) + vc) + vd).
  set (m := 10 * (10 * 0 + ve) + vf).
  assert (NumberOfDigits ys = Some y) as Hy.
  { unfold NumberOfDigits, ys. simpl. by rewrite Ha, Hb, Hc, Hd. }
  assert (NumberOfDigits ms = Some m) as Hms.
  { unfold NumberOfDigits, ms. simpl. by rewrite He, Hf. }
  exists y, m. split; [|split; [unfold y; lia|split; [unfold m; lia|]]].
  - unfold parseKey.
    change (String a _) with (ys +:+ String "-" ms).
    rewrite (split_digits _ _ _ _ Hy), (split_no_dash _ _ _ Hms).
    by rewrite Hy, Hms.
  - intros Hbig. unfold keyOfDate. simpl.
    assert (pretty y = ys) as ->.
    { rewrite pretty_Z_pos by lia. unfold y.
      rewrite !pretty_N_go_snoc by lia.
      change (Z.to_N 0) with 0%N. rewrite pretty_N_go_0.
      by rewrite Ca, Cb, Cc, Cd. }
    assert (padStart2 (pretty (m - 1 + 1)) = ms) as ->; [|done].
    replace (m - 1 + 1) with m by lia. unfold ms. rewrite <- Ce, <- Cf. unfold m.
    assert ((ve = 0 ∧ (vf = 1 ∨ vf = 2 ∨ vf = 3 ∨ vf = 4 ∨ vf = 5 ∨ vf = 6 ∨ vf = 7
                        ∨ vf = 8 ∨ vf = 9))
            ∨ (ve = 1 ∧ (vf = 0 ∨ vf = 1 ∨ vf = 2))) as Hcases by lia.
    destruct Hcases as [[-> Hvf]|[-> Hvf]];
      repeat (destruct Hvf as [->|Hvf]; [reflexivity|]); subst vf; reflexivity.
Qed.

(** ** Fiscal year window (C2) *)

Lemma newDate_plain (sy mi : Z) :
  100 ≤ sy → newDate sy mi = (sy + mi / 12, mi mod 12).
Proof.
  intros Hsy. unfold newDate.
  by rewrite (proj2 (Z.leb_gt sy 99)), andb_false_r by lia.
Qed.

Lemma parseKey_window (sy mi : Z) :
  100 ≤ sy → 0 ≤ mi →
  parseKey (keyOfDate (newDate sy mi)) = Some (sy + mi / 12, mi mod 12 + 1).
Proof.
  intros Hsy Hmi. rewrite newDate_plain by done.
  apply parseKey_keyOfDate.
  - pose proof (Z.div_pos mi 12). lia.
  - pose proof (Z.mod_pos_bound mi 12). lia.
Qed.

Lemma nextMonthOf_window (sy mi : Z) :
  nextMonthOf (sy + mi / 12, mi mod 12 + 1) = (sy + (mi + 1) / 12, (mi + 1) mod 12 + 1).
Proof.
  unfold nextMonthOf. simpl.
  destruct (Z.eqb_spec (mi mod 12 + 1) 12); f_equal; Z.div_mod_to_equations; lia.
Qed.

(** The keys printed for consecutive month indexes form a chronological
    run. *)
Lemma consecutive_window (sy : Z) (n : nat) (mi : Z) :
  100 ≤ sy → 0 ≤ mi →
  consecutive ((λ i, keyOfDate (newDate sy (mi + i))) <$> seqZ 0 (Z.of_nat (S n))).
Proof.
  intros Hsy. revert mi. induction n as [|n IH]; intros mi Hmi.
  - simpl. rewrite parseKey_window by lia. eauto.
  - rewrite seqZ_cons by lia. rewrite fmap_cons.
    replace (Z.pred (Z.of_nat (S (S n)))) with (Z.of_nat (S n)) by lia.
    assert ((λ i, keyOfDate (newDate sy (mi + i))) <$> seqZ (Z.succ 0) (Z.of_nat (S n)) =
            (λ i, keyOfDate (newDate sy ((mi + 1) + i))) <$> seqZ 0 (Z.of_nat (S n))) as Hshift.
    { change (Z.succ 0) with (1 + 0). rewrite <- (fmap_add_seqZ 1 0).
      rewrite <- list_fmap_compose.
      apply list_fmap_ext. intros _ i _. simpl. do 2 f_equal. lia. }
    rewrite Hshift. specialize (IH (mi + 1) ltac:(lia)).
    destruct ((λ i, keyOfDate (newDate sy (mi + 1 + i))) <$> seqZ 0 (Z.of_nat (S n)))
      as [|k' rest] eqn:E.
    { rewrite seqZ_cons in E by lia. done. }
    simpl. split; [|exact IH].
    exists (sy + (mi + 0) / 12, (mi + 0) mod 12 + 1). split.
    + apply parseKey_window; lia.
    + rewrite seqZ_cons in E by lia. injection E as <- _.
      rewrite parseKey_window by lia. f_equal.
      rewrite nextMonthOf_window. do 2 f_equal; f_equal; lia.
Qed.

(** The window of the specification's scenario: a fiscal year starting
    in April, seen from February 2024. *)
Lemma fiscalYearKeysFor_april :
  fiscalYearKeysFor (mkSettings "EUR" 4 true false) "2024-02" =
  Some ["2023-04"; "2023-05"; "2023-06"; "2023-07"; "2023-08"; "2023-09";
        "2023-10"; "2023-11"; "2023-12"; "2024-01"; "2024-02"; "2024-03"].
Proof. vm_compute. reflexivity. Qed.

(** As stated, C2 fails for the month identifiers of the years before
    1000: [new Date] reads a year from 0 to 99 as 1900 + year, and the
    year is printed without leading zeros.  The window computed for
    0050-03 is the year 1950, and 0050-03 is not in it. *)
Lemma fiscalYearKeysFor_year_50 :
  month_id "0050-03" = true
  ∧ ∃ keys, fiscalYearKeysFor defaultSettings "0050-03" = Some keys
            ∧ head keys = Some "1950-01"
            ∧ "0050-03" ∉ keys.
Proof.
  split; [reflexivity|]. eexists. split; [vm_compute; reflexivity|].
  split; [reflexivity|]. intros H%list_elem_of_In. simpl in H.
  repeat (destruct H as [H|H]; [discriminate H|]). done.
Qed.

(** A text of four decimal digits. *)
Lemma pretty_fourDigits (y : Z) :
  1000 ≤ y ≤ 9999 →
  ∃ a b c d, pretty y = String a (String b (String c (String d EmptyString)))
             ∧ isDigit a = true ∧ isDigit b = true ∧ isDigit c = true ∧ isDigit d = true.
Proof.
  intros Hy.
  set (fourDigits := λ s : string,
         match s with
         | String a (String b (String c (String d EmptyString))) =>
             isDigit a && isDigit b && isDigit c && isDigit d
         | _ => false
         end).
  assert (forallb (λ y, fourDigits (pretty y)) (seqZ 1000 9000) = true) as H
    by (vm_compute; reflexivity).
  rewrite forallb_forall in H.
  specialize (H y ltac:(apply list_elem_of_In, elem_of_seqZ; lia)).
  unfold fourDigits in H.
  destruct (pretty y) as [|a [|b [|c [|d [|]]]]]; try discriminate H.
  repeat (apply andb_true_iff in H as [H ?]). by exists a, b, c, d.
Qed.

(** The key printed for a month of the years 1000 to 9999 is a month
    identifier. *)
Lemma month_id_keyOfDate (y mo : Z) :
  1000 ≤ y ≤ 9999 → 0 ≤ mo ≤ 11 → month_id (keyOfDate (y, mo)) = true.
Proof.
  intros Hy Hmo.
  destruct (pretty_fourDigits y Hy) as (a & b & c & d & Hp & Ha & Hb & Hc & Hd).
  unfold keyOfDate. simpl. rewrite Hp.
  assert (mo = 0 ∨ mo = 1 ∨ mo = 2 ∨ mo = 3 ∨ mo = 4 ∨ mo = 5 ∨ mo = 6 ∨ mo = 7
          ∨ mo = 8 ∨ mo = 9 ∨ mo = 10 ∨ mo = 11) as Hcase by lia.
  repeat (destruct Hcase as [->|Hcase]); [..|subst mo];
    cbv [month_id String.append]; rewrite Ha, Hb, Hc, Hd; vm_compute; reflexivity.
Qed.

(** C2, amended.  For a month identifier [YYYY-MM] whose year is from
    1001 to 9998 and a fiscal-year start month from 1 to 12, the window
    has exactly 12 keys, every one a month identifier [YYYY-MM], all
    distinct, each the calendar month after the one before, and the
    reference month is one of them; its first key is the start month of
    the reference month's year when the reference month's number is at
    least the start month, and of the year before otherwise.  (For the
    year 1000 the window can start in the year 999, and for 9999 end in
    10000, whose keys do not have four year digits.) *)
Theorem fiscalYearKeysFor_window (settings : Settings) (monthKey : string) :
  month_id monthKey = true →
  1 ≤ fyStartMonth settings ≤ 12 →
  ∃ y m, parseKey monthKey = Some (y, m)
    ∧ (1001 ≤ y ≤ 9998 →
       ∃ keys, fiscalYearKeysFor settings monthKey = Some keys
         ∧ length keys = 12%nat
         ∧ Forall (λ k, month_id k = true) keys
         ∧ NoDup keys
         ∧ consecutive keys
         ∧ monthKey ∈ keys
         ∧ head keys = Some (keyOfDate
                               (if fyStartMonth settings <=? m then y else y - 1,
                                fyStartMonth settings - 1))).
Proof.
  intros (y & m & Hparse & Hy & Hm & Hkey)%month_id_parse Hfy.
  exists y, m. split; [done|]. intros Hbig.
  set (fy := fyStartMonth settings) in *.
  set (sy := if fy <=? m then y else y - 1).
  assert (1000 ≤ sy ≤ 9998) as Hsy by (unfold sy; destruct (fy <=? m); lia).
  set (f := λ i, keyOfDate (newDate sy (fy - 1 + i))).
  assert (fiscalYearKeysFor settings monthKey = Some (f <$> seqZ 0 12)) as Hkeys.
  { unfold fiscalYearKeysFor. rewrite Hparse. fold fy.
    by rewrite (proj2 (Z.eqb_neq fy 0)) by lia. }
  assert (∀ i, 0 ≤ i → parseKey (f i) = Some (sy + (fy - 1 + i) / 12, (fy - 1 + i) mod 12 + 1))
    as Hf by (intros i Hi; apply parseKey_window; lia).
  exists (f <$> seqZ 0 12). split; [done|].
  split; [|split; [|split; [|split; [|split]]]].
  - by rewrite length_fmap, length_seqZ.
  - apply Forall_fmap, Forall_forall. intros i Hi%elem_of_seqZ. simpl.
    unfold f. rewrite newDate_plain by lia.
    apply month_id_keyOfDate; Z.div_mod_to_equations; lia.
  - apply NoDup_fmap_2_strong; [|apply NoDup_seqZ].
    intros i j Hi%elem_of_seqZ Hj%elem_of_seqZ Hij.
    apply (f_equal parseKey) in Hij. rewrite !Hf in Hij by lia.
    injection Hij as H1 H2. Z.div_mod_to_equations. lia.
  - apply (consecutive_window sy 11 (fy - 1)); lia.
  - apply list_elem_of_fmap.
    exists (if fy <=? m then m - fy else m - fy + 12). split.
    + rewrite <- (Hkey ltac:(lia)). unfold f. rewrite newDate_plain by lia.
      unfold sy. destruct (Z.leb_spec fy m); do 2 f_equal;
        Z.div_mod_to_equations; lia.
    + apply elem_of_seqZ. destruct (Z.leb_spec fy m); lia.
  - rewrite seqZ_cons by lia. simpl. unfold f. rewrite newDate_plain by lia.
    do 3 f_equal; Z.div_mod_to_equations; lia.
Qed.

(** The amended statement at the scenario of the specification. *)
Lemma fiscalYearKeysFor_window_witness :
  ∃ y m, parseKey "2024-02" = Some (y, m)
    ∧ (1001 ≤ y ≤ 9998 →
       ∃ keys, fiscalYearKeysFor (mkSettings "EUR" 4 true false) "2024-02" = Some keys
         ∧ length keys = 12%nat
         ∧ Forall (λ k, month_id k = true) keys
         ∧ NoDup keys
         ∧ consecutive keys
         ∧ "2024-02" ∈ keys
         ∧ head keys = Some (keyOfDate (if 4 <=? m then y else y - 1, 4 - 1))).
Proof.
  apply (fiscalYearKeysFor_window (mkSettings "EUR" 4 true false) "2024-02").
  - reflexivity.
  - simpl. lia.
Defined.

(** * Further properties of the code *)

(** ** Sums and totals *)

Lemma sum_empty : sum ∅ = 0.
Proof. unfold sum. by rewrite map_fold_empty. Qed.

Lemma sum_insert_new (m : gmap string Z) i x :
  m !! i = None → sum (<[i := x]> m) = sum m + x.
Proof.
  intros Hi. unfold sum. rewrite map_fold_insert_L; [done| |done].
  intros. lia.
Qed.

(** Writing an entry changes the sum by the difference to what the entry
    counted for before. *)
Lemma sum_insert (m : gmap string Z) i x :
  sum (<[i := x]> m) = sum m - default 0 (m !! i) + x.
Proof.
  destruct (m !! i) as [y|] eqn:Hi; simpl.
  - assert (sum m = sum (delete i m) + y) as Hm.
    { rewrite <- (insert_delete_id m i y) at 1 by done.
      apply sum_insert_new, lookup_delete_eq. }
    rewrite <- (insert_delete_eq m), sum_insert_new by apply lookup_delete_eq. lia.
  - rewrite sum_insert_new by done. lia.
Qed.

Lemma sum_all_zero (m : gmap string Z) :
  (∀ i v, m !! i = Some v → v = 0) → sum m = 0.
Proof.
  induction m as [|i x m Hi IH] using map_ind; intros H; [apply sum_empty|].
  rewrite sum_insert_new by done.
  rewrite (H i x) by apply lookup_insert_eq.
  rewrite IH; [done|].
  intros j v Hj. apply (H j). rewrite lookup_insert_ne; [done|congruence].
Qed.

Lemma sum_zeroed cats : sum (zeroed cats) = 0.
Proof. apply sum_all_zero. intros i v Hv. by apply zeroed_Some in Hv as [-> _]. Qed.

(** Laying entries over a zero-filled dictionary does not change their
    sum. *)
Lemma sum_union_zeroed (a : gmap string Z) cats : sum (a ∪ zeroed cats) = sum a.
Proof.
  assert (∀ z : gmap string Z, (∀ i v, z !! i = Some v → v = 0) → sum (a ∪ z) = sum a) as H.
  { intros z. induction z as [|i x z Hi IH] using map_ind; intros Hz.
    - by rewrite (right_id ∅ (∪)).
    - assert (x = 0) as -> by (apply (Hz i); apply lookup_insert_eq).
      assert (sum (a ∪ z) = sum a) as Hs.
      { apply IH. intros j v Hj. apply (Hz j). rewrite lookup_insert_ne; [done|congruence]. }
      destruct (a !! i) as [y|] eqn:Ha.
      + assert (a ∪ <[i:=0]> z = a ∪ z) as ->; [|done].
        apply map_eq. intros j. rewrite !lookup_union.
        destruct (decide (i = j)) as [->|Hne].
        * rewrite lookup_insert_eq, Ha, Hi. done.
        * by rewrite lookup_insert_ne.
      + rewrite <- insert_union_r by done. rewrite sum_insert_new, Hs; [lia|].
        rewrite lookup_union, Ha, Hi. done. }
  apply H. intros i v Hv. by apply zeroed_Some in Hv as [-> _].
Qed.

Lemma totalOf_from (a : Z) (l : list (string * Z)) :
  foldl (λ a d, a + d.2) a l = a + totalOf l.
Proof.
  unfold totalOf. revert a. induction l as [|x l IH]; intros a; simpl; [lia|].
  rewrite IH, (IH (0 + x.2)). lia.
Qed.

Lemma totalOf_cons x l : totalOf (x :: l) = x.2 + totalOf l.
Proof. unfold totalOf at 1. simpl. rewrite totalOf_from. lia. Qed.

Lemma totalOf_app l1 l2 : totalOf (l1 ++ l2) = totalOf l1 + totalOf l2.
Proof.
  induction l1 as [|x l1 IH]; simpl; [done|]. rewrite !totalOf_cons, IH. lia.
Qed.

Lemma totalOf_perm l1 l2 : l1 ≡ₚ l2 → totalOf l1 = totalOf l2.
Proof.
  induction 1 as [|x l1 l2 _ IH|x y l|l1 l2 l3 _ IH1 _ IH2];
    rewrite ?totalOf_cons; lia.
Qed.

Lemma sum_totalOf (obj : gmap string Z) : sum obj = totalOf (map_to_list obj).
Proof.
  unfold sum. rewrite map_fold_foldr.
  induction (map_to_list obj) as [|[k v] l IH]; simpl; [done|].
  rewrite totalOf_cons, IH. simpl. lia.
Qed.

Lemma totalOf_filter_nonzero (l : list (string * Z)) :
  totalOf (List.filter (λ kv, negb (kv.2 =? 0)) l) = totalOf l.
Proof.
  induction l as [|x l IH]; simpl; [done|].
  destruct (Z.eqb_spec x.2 0) as [Hz|Hz]; simpl; rewrite ?totalOf_cons, IH; lia.
Qed.

(** ** Chart rows (X1) *)

Lemma NoDup_fst_filter {A} (f : string * A → bool) (l : list (string * A)) :
  NoDup l.*1 → NoDup (List.filter f l).*1.
Proof.
  induction l as [|x l IH]; simpl; [done|]. intros [Hx Hl]%NoDup_cons.
  destruct (f x); simpl; [|by apply IH].
  apply NoDup_cons. split; [|by apply IH].
  intros Hin. apply Hx. apply list_elem_of_fmap in Hin as (y & -> & Hy).
  apply list_elem_of_fmap. exists y. split; [done|].
  apply list_elem_of_In. apply list_elem_of_In, filter_In in Hy. tauto.
Qed.

(** X1.  The chart rows of a bucket are exactly its entries with a
    non-zero amount, each name once: an entry written as 0 (a deleted
    one, or a template category never used) has no row. *)
Theorem entriesToChartData_rows (obj : gmap string Z) :
  (∀ name v, (name, v) ∈ entriesToChartData obj ↔ obj !! name = Some v ∧ v ≠ 0)
  ∧ NoDup (entriesToChartData obj).*1
  ∧ totalOf (entriesToChartData obj) = sum obj.
Proof.
  unfold entriesToChartData. split; [|split].
  - intros name v. rewrite list_elem_of_In, filter_In, <- list_elem_of_In.
    rewrite elem_of_map_to_list. simpl.
    destruct (Z.eqb_spec v 0); simpl; intuition congruence.
  - apply NoDup_fst_filter, NoDup_fst_map_to_list.
  - by rewrite totalOf_filter_nonzero, sum_totalOf.
Qed.

(** ** The breakdown dialog (X2) *)

Lemma insertByValue_perm x l : insertByValue x l ≡ₚ x :: l.
Proof.
  induction l as [|y l IH]; simpl; [done|].
  destruct (x.2 <? y.2); [|done]. rewrite IH. apply Permutation_swap.
Qed.

Lemma sortByValue_perm l : sortByValue l ≡ₚ l.
Proof.
  induction l as [|x l IH]; simpl; [done|].
  rewrite insertByValue_perm. by rewrite IH.
Qed.

Lemma insertByValue_sorted x l :
  StronglySorted (λ a b : string * Z, b.2 ≤ a.2) l →
  StronglySorted (λ a b : string * Z, b.2 ≤ a.2) (insertByValue x l).
Proof.
  induction 1 as [|y l Hs IH Hall]; simpl; [by repeat constructor|].
  destruct (Z.ltb_spec x.2 y.2).
  - constructor; [done|]. rewrite insertByValue_perm. constructor; [lia|done].
  - constructor; [by constructor|]. constructor; [lia|].
    eapply Forall_impl; [exact Hall|]. simpl. intros. lia.
Qed.

Lemma sortByValue_sorted l :
  StronglySorted (λ a b : string * Z, b.2 ≤ a.2) (sortByValue l).
Proof.
  induction l as [|x l IH]; simpl; [constructor|]. by apply insertByValue_sorted.
Qed.

Lemma insertByValue_same_value v x l :
  List.filter (λ r : string * Z, r.2 =? v) (insertByValue x l) =
  List.filter (λ r : string * Z, r.2 =? v) (x :: l).
Proof.
  induction l as [|y l IH]; [done|]. simpl insertByValue.
  destruct (Z.ltb_spec x.2 y.2) as [Hlt|Hge]; [|done].
  simpl in *. rewrite IH.
  destruct (Z.eqb_spec x.2 v), (Z.eqb_spec y.2 v); try done. lia.
Qed.

Lemma sortByValue_same_value v l :
  List.filter (λ r : string * Z, r.2 =? v) (sortByValue l) =
  List.filter (λ r : string * Z, r.2 =? v) l.
Proof.
  induction l as [|x l IH]; [done|]. simpl sortByValue.
  rewrite insertByValue_same_value. simpl. by rewrite IH.
Qed.

(** X2.  The breakdown dialog lists the rows it is given, each once, in
    descending order of value; rows of equal value keep the order they
    had.  For integer amounts whose magnitudes add up to at most 2^53
    (where the sums of doubles are exact) the total it shows, summed
    over the sorted rows, is the sum of the rows as given, and for the
    rows of a bucket that is the sum of the whole bucket. *)
Theorem breakdown_sorted_with_total (data : list (string * Z)) :
  breakdownItems data ≡ₚ data
  ∧ StronglySorted (λ a b : string * Z, b.2 ≤ a.2) (breakdownItems data)
  ∧ (∀ v, List.filter (λ r : string * Z, r.2 =? v) (breakdownItems data) =
          List.filter (λ r : string * Z, r.2 =? v) data)
  ∧ (magnitudeOfRows data ≤ 2 ^ 53 →
     breakdownTotal data = totalOf data
     ∧ ∀ obj, data = entriesToChartData obj → breakdownTotal data = sum obj).
Proof.
  unfold breakdownTotal, breakdownItems.
  split; [apply sortByValue_perm|].
  split; [apply sortByValue_sorted|].
  split; [intros v; apply sortByValue_same_value|].
  intros _. split; [apply totalOf_perm, sortByValue_perm|].
  intros obj ->. rewrite (totalOf_perm _ _ (sortByValue_perm _)).
  unfold entriesToChartData. by rewrite totalOf_filter_nonzero, sum_totalOf.
Qed.

(** ** The combined saving and investment chart (X3) *)

Lemma mapGet_mapSet_eq name v m : mapGet name (mapSet name v m) = Some v.
Proof.
  induction m as [|[k x] m IH]; simpl.
  - by rewrite String.eqb_refl.
  - destruct (String.eqb k name) eqn:E; simpl; rewrite E; [done|apply IH].
Qed.

Lemma mapGet_mapSet_ne name name' v m :
  name ≠ name' → mapGet name' (mapSet name v m) = mapGet name' m.
Proof.
  intros Hne. induction m as [|[k x] m IH]; simpl.
  - by rewrite (proj2 (String.eqb_neq name name')).
  - destruct (String.eqb k name) eqn:E; simpl.
    + apply String.eqb_eq in E as ->.
      by rewrite (proj2 (String.eqb_neq name name')).
    + by rewrite IH.
Qed.

Lemma totalOf_mapSet name v m :
  totalOf (mapSet name v m) = totalOf m - default 0 (mapGet name m) + v.
Proof.
  induction m as [|[k x] m IH]; simpl.
  - rewrite totalOf_cons. unfold totalOf. simpl. lia.
  - destruct (String.eqb k name) eqn:E; simpl; rewrite !totalOf_cons; simpl; lia.
Qed.

Lemma mapSet_names name v m :
  NoDup m.*1 → NoDup (mapSet name v m).*1
               ∧ ∀ k, k ∈ (mapSet name v m).*1 ↔ k = name ∨ k ∈ m.*1.
Proof.
  induction m as [|[k x] m IH]; simpl.
  - intros _. split; [apply NoDup_singleton|]. intros k.
    rewrite list_elem_of_singleton, elem_of_nil. tauto.
  - intros [Hk Hm]%NoDup_cons. destruct (IH Hm) as [IH1 IH2].
    destruct (String.eqb k name) eqn:E; simpl.
    + apply String.eqb_eq in E as ->. split; [by apply NoDup_cons|].
      intros k. rewrite elem_of_cons. tauto.
    + apply String.eqb_neq in E. split.
      * apply NoDup_cons. split; [|done]. rewrite IH2. intros [?|?]; [congruence|done].
      * intros k'. rewrite !elem_of_cons, IH2. tauto.
Qed.

Lemma mapGet_elem (l : list (string * Z)) name v :
  NoDup l.*1 → (mapGet name l = Some v ↔ (name, v) ∈ l).
Proof.
  induction l as [|[k x] l IH]; simpl.
  - intros _. rewrite elem_of_nil. split; [done|tauto].
  - intros [Hk Hl]%NoDup_cons. rewrite elem_of_cons.
    destruct (String.eqb k name) eqn:E.
    + apply String.eqb_eq in E as ->. split; [intros [= ->]; by left|].
      intros [[= ->]|Hin]; [done|]. exfalso. apply Hk.
      apply list_elem_of_fmap. by exists (name, v).
    + apply String.eqb_neq in E. rewrite (IH Hl).
      split; [by right|]. intros [[= -> ->]|?]; [done|done].
Qed.

Lemma mapGet_None (l : list (string * Z)) name :
  mapGet name l = None ↔ name ∉ l.*1.
Proof.
  induction l as [|[k x] l IH]; simpl.
  - split; [intros _; apply not_elem_of_nil|done].
  - rewrite not_elem_of_cons. destruct (String.eqb k name) eqn:E.
    + apply String.eqb_eq in E as ->. split; [done|]. intros [? _]. done.
    + apply String.eqb_neq in E. rewrite IH. split; [by split|tauto].
Qed.

(** One pass of the merging loop over rows with distinct names. *)
Lemma merge_rows (l m : list (string * Z)) :
  NoDup l.*1 → NoDup m.*1 →
  let r := foldl (λ m row, mapSet row.1 (default 0 (mapGet row.1 m) + row.2) m) m l in
  NoDup r.*1
  ∧ totalOf r = totalOf m + totalOf l
  ∧ ∀ name, mapGet name r = match mapGet name l with
                            | Some x => Some (default 0 (mapGet name m) + x)
                            | None => mapGet name m
                            end.
Proof.
  revert m. induction l as [|[k x] l IH]; intros m Hl Hm; simpl.
  - split; [done|]. split; [unfold totalOf at 3; simpl; lia|done].
  - apply NoDup_cons in Hl as [Hk Hl].
    destruct (mapSet_names k (default 0 (mapGet k m) + x) m Hm) as [Hn _].
    destruct (IH _ Hl Hn) as (H1 & H2 & H3). split; [done|]. split.
    + rewrite H2, totalOf_mapSet, totalOf_cons. simpl. lia.
    + intros name. rewrite H3. destruct (String.eqb k name) eqn:E.
      * apply String.eqb_eq in E as <-.
        rewrite (proj2 (mapGet_None l k) Hk). apply mapGet_mapSet_eq.
      * apply String.eqb_neq in E. by rewrite mapGet_mapSet_ne.
Qed.

Lemma mapGet_entriesToChartData obj name :
  mapGet name (entriesToChartData obj) = shown obj name.
Proof.
  assert (NoDup (entriesToChartData obj).*1) as Hnd
    by apply NoDup_fst_filter, NoDup_fst_map_to_list.
  assert (∀ v, (name, v) ∈ entriesToChartData obj ↔ obj !! name = Some v ∧ v ≠ 0) as Hin.
  { intros v. unfold entriesToChartData.
    rewrite list_elem_of_In, filter_In, <- list_elem_of_In, elem_of_map_to_list. simpl.
    destruct (Z.eqb_spec v 0); simpl; intuition congruence. }
  unfold shown. destruct (mapGet name _) as [v|] eqn:E.
  - apply (mapGet_elem _ _ _ Hnd), Hin in E as [-> Hv].
    by rewrite (proj2 (Z.eqb_neq v 0)).
  - destruct (obj !! name) as [v|] eqn:Ho; [|done].
    destruct (Z.eqb_spec v 0) as [|Hv]; [done|].
    assert (mapGet name (entriesToChartData obj) = Some v) as Hs
      by (apply (mapGet_elem _ _ _ Hnd), Hin; done).
    congruence.
Qed.

(** X3.  For integer amounts of saving and investment whose magnitudes
    add up to at most 2^53 (where the sums of doubles are exact): the
    combined chart has one row per name that the saving chart or the
    investment chart shows; its value is the sum of the two shown
    amounts, so a name whose two amounts cancel keeps a row of value 0;
    and the rows add up to the net worth. *)
Theorem savingInvestData_merges (agg : Month) :
  magnitude (m_saving agg) + magnitude (m_investment agg) ≤ 2 ^ 53 →
  let rows := savingInvestRows agg in
  NoDup rows.*1
  ∧ (∀ name, mapGet name rows =
       match shown (m_saving agg) name, shown (m_investment agg) name with
       | Some x, Some y => Some (x + y)
       | Some x, None => Some x
       | None, Some y => Some y
       | None, None => None
       end)
  ∧ totalOf rows = netWorthValue agg.
Proof.
  intros _.
  unfold savingInvestRows, savingInvestData. rewrite foldl_app.
  assert (∀ obj, NoDup (entriesToChartData obj).*1) as Hnd
    by (intros; apply NoDup_fst_filter, NoDup_fst_map_to_list).
  destruct (merge_rows (entriesToChartData (m_saving agg)) [] (Hnd _) (NoDup_nil_2))
    as (S1 & S2 & S3).
  destruct (merge_rows (entriesToChartData (m_investment agg)) _ (Hnd _) S1)
    as (I1 & I2 & I3).
  simpl in *. split; [done|]. split.
  - intros name. rewrite I3, S3, !mapGet_entriesToChartData. simpl.
    destruct (shown (m_saving agg) name), (shown (m_investment agg) name);
      simpl; f_equal; lia.
  - rewrite I2, S2. unfold netWorthValue, entriesToChartData.
    rewrite !totalOf_filter_nonzero, !sum_totalOf. unfold totalOf at 1. simpl. lia.
Qed.

(** Savings of 500 under Current and 200 under Fund, investments of 300
    under Fund. *)
Lemma savingInvestData_merges_witness :
  totalOf (savingInvestRows
             (mkMonth ∅ {[ "Current" := 500; "Fund" := 200 ]} {[ "Fund" := 300 ]} ∅))
  = netWorthValue (mkMonth ∅ {[ "Current" := 500; "Fund" := 200 ]} {[ "Fund" := 300 ]} ∅).
Proof.
  apply (savingInvestData_merges
           (mkMonth ∅ {[ "Current" := 500; "Fund" := 200 ]} {[ "Fund" := 300 ]} ∅)).
  vm_compute. discriminate.
Defined.

(** ** A month created by carrying forward (X4, X5, X6) *)

(** In the monthly view the totals are the record of the month itself. *)
Lemma aggregated_single d k r : months d !! k = Some r → aggregated [k] d = r.
Proof.
  intros Hr. unfold aggregated. simpl. rewrite Hr.
  by rewrite addMonth_plusMonth, plusMonth_noTotals_l.
Qed.

Lemma entriesToChartData_all_zero (obj : gmap string Z) :
  (∀ i v, obj !! i = Some v → v = 0) → entriesToChartData obj = [].
Proof.
  intros H. unfold entriesToChartData.
  assert (∀ l : list (string * Z), (∀ kv, kv ∈ l → kv.2 = 0) →
            List.filter (λ kv, negb (kv.2 =? 0)) l = []) as Hf.
  { induction l as [|x l IH]; intros Hl; simpl; [done|].
    rewrite (Hl x) by (by apply elem_of_cons; left). simpl.
    apply IH. intros kv Hkv. apply Hl. by apply elem_of_cons; right. }
  apply Hf. intros [k v] Hkv. apply elem_of_map_to_list in Hkv. simpl. eauto.
Qed.

Lemma carried_record T d m1 m2 r1 :
  truthyString m1 = true →
  String.ltb m1 m2 = true →
  months d !! m1 = Some r1 →
  months d !! m2 = None →
  (∀ k, String.ltb m1 k = true → String.ltb k m2 = true → months d !! k = None) →
  months (ensureSelected T m2 d) !! m2 =
  Some (mkMonth (zeroed (t_income T)) (m_saving r1 ∪ zeroed (t_saving T))
                (m_investment r1 ∪ zeroed (t_investment T)) (zeroed (t_expense T))).
Proof.
  intros Ht Hlt Hm1 Hm2 Hgap. unfold ensureSelected. rewrite Hm2.
  rewrite ensureUpdater_lookup.
  rewrite (prevKeyOf_nearest (months d) m1 m2) by eauto.
  by rewrite Ht, Hm1.
Qed.

(** X4.  The month created after the nearest earlier month [m1] starts
    with the net worth of [m1] and a cash flow of 0, and its income and
    expense charts have no row.  The net worth is stated for integer
    amounts of saving and investment whose magnitudes add up to at most
    2^53: the new record lists the template names first, so its sum adds
    the same amounts in another order, which is exact in that range. *)
Theorem carry_forward_keeps_net_worth (T : Templates) (d : Data) (m1 m2 : string)
    (r1 : Month) :
  truthyString m1 = true →
  String.ltb m1 m2 = true →
  months d !! m1 = Some r1 →
  months d !! m2 = None →
  (∀ k, String.ltb m1 k = true → String.ltb k m2 = true → months d !! k = None) →
  magnitude (m_saving r1) + magnitude (m_investment r1) ≤ 2 ^ 53 →
  let d' := ensureSelected T m2 d in
  netWorthValue (aggregated [m2] d') = netWorthValue (aggregated [m1] d)
  ∧ cashFlow (aggregated [m2] d') = 0
  ∧ entriesToChartData (m_income (aggregated [m2] d')) = []
  ∧ entriesToChartData (m_expense (aggregated [m2] d')) = [].
Proof.
  intros Ht Hlt Hm1 Hm2 Hgap _ d'.
  rewrite (aggregated_single d' m2 _ (carried_record T d m1 m2 r1 Ht Hlt Hm1 Hm2 Hgap)).
  rewrite (aggregated_single d m1 r1 Hm1).
  unfold netWorthValue, cashFlow. simpl.
  rewrite !sum_union_zeroed, !sum_zeroed.
  repeat split; try lia;
    apply entriesToChartData_all_zero; intros i v Hv; by apply zeroed_Some in Hv as [-> _].
Qed.

(** April 2024 created after March 2024, which holds 500 under Current. *)
Lemma carry_forward_keeps_net_worth_witness :
  netWorthValue (aggregated ["2024-04"]
                   (ensureSelected (TEMPLATES noTemplates) "2024-04" ledgerMarch))
  = netWorthValue (aggregated ["2024-03"] ledgerMarch).
Proof.
  apply (carry_forward_keeps_net_worth (TEMPLATES noTemplates) ledgerMarch
           "2024-03" "2024-04" (mkMonth ∅ {[ "Current" := 500 ]} ∅ ∅));
    try reflexivity.
  - intros k H1 H2. unfold ledgerMarch. simpl.
    apply lookup_singleton_ne. intros <-. by rewrite ltb_irrefl in H1.
  - vm_compute. discriminate.
Defined.

(** X5.  The lazy creation never rewrites a record: every record of the
    ledger is kept as it is, only the selected key can be added, and
    running the effect again, even with other templates, changes
    nothing. *)
Theorem ensureSelected_idempotent (T T' : Templates) (sel : string) (d : Data) :
  ensureSelected T' sel (ensureSelected T sel d) = ensureSelected T sel d
  ∧ is_Some (months (ensureSelected T sel d) !! sel)
  ∧ (∀ k r, months d !! k = Some r → months (ensureSelected T sel d) !! k = Some r)
  ∧ (∀ k, k ≠ sel → months (ensureSelected T sel d) !! k = months d !! k).
Proof.
  assert (is_Some (months (ensureSelected T sel d) !! sel)) as [r Hr].
  { unfold ensureSelected. destruct (months d !! sel) eqn:E; [by rewrite E|].
    rewrite ensureUpdater_lookup. eauto. }
  split; [|split; [eauto|split]].
  - unfold ensureSelected at 1. by rewrite Hr.
  - intros k r' Hk. by apply ensureSelected_keeps.
  - intros k Hk. unfold ensureSelected. destruct (months d !! sel); [done|].
    by apply ensureUpdater_other.
Qed.

Lemma shiftedKey_truthy key delta key' :
  shiftedKey key delta = Some key' → truthyString key' = true.
Proof.
  unfold shiftedKey. destruct (parseKey key) as [[y m]|]; [|done].
  intros [= <-]. unfold keyOfDate. by destruct (pretty _).
Qed.

Lemma default_union_zeroed (a : gmap string Z) cats c :
  default 0 ((a ∪ zeroed cats) !! c) = default 0 (a !! c).
Proof.
  rewrite lookup_union. destruct (a !! c); simpl.
  - by destruct (zeroed cats !! c).
  - destruct (zeroed cats !! c) eqn:E; [|done]. by apply zeroed_Some in E as [-> _].
Qed.

(** X6.  When the month before the selected one has a record and is the
    nearest earlier key, the month created for the selection shows no
    month-over-month change in saving and investment: for every category
    the previous value that the breakdown subtracts equals the value of
    the new record, in the combined chart and in each bucket. *)
Theorem new_month_shows_no_change (s : State) (m1 : string) (r1 : Month) :
  prevMonthKey (selectedMonth s) = Some m1 →
  String.ltb m1 (selectedMonth s) = true →
  months (data s) !! m1 = Some r1 →
  months (data s) !! selectedMonth s = None →
  (∀ k, String.ltb m1 k = true → String.ltb k (selectedMonth s) = true →
        months (data s) !! k = None) →
  ∃ r2, months (data (ensureEffect s)) !! selectedMonth s = Some r2
    ∧ ∀ cat,
        getPrevValueFor cat (Some SavingInvest) (ensureEffect s)
          = Some (oldValOf SavingInvest r2 cat)
        ∧ getPrevValueFor cat (Some (Plain saving)) (ensureEffect s)
          = Some (oldValOf (Plain saving) r2 cat)
        ∧ getPrevValueFor cat (Some (Plain investment)) (ensureEffect s)
          = Some (oldValOf (Plain investment) r2 cat).
Proof.
  intros Hprev Hlt Hm1 Hm2 Hgap.
  pose proof (shiftedKey_truthy _ _ _ Hprev) as Ht.
  pose proof (carried_record (TEMPLATES (userTemplates s)) (data s) m1 (selectedMonth s) r1
                Ht Hlt Hm1 Hm2 Hgap) as Hr2.
  eexists. split; [exact Hr2|]. intros cat.
  unfold getPrevValueFor. simpl. rewrite Hprev.
  rewrite (ensureSelected_keeps _ _ _ _ _ Hm1). simpl.
  rewrite !default_union_zeroed. done.
Qed.

(** April 2024 selected in a ledger that holds March 2024 only. *)
Lemma new_month_shows_no_change_witness :
  ∃ r2, months (data (ensureEffect
                        (mkState ledgerMarch noTemplates defaultSettings "2024-04"
                           None None false None "" "" (Fin 0) true)))
          !! "2024-04" = Some r2
    ∧ ∀ cat,
        getPrevValueFor cat (Some SavingInvest)
          (ensureEffect (mkState ledgerMarch noTemplates defaultSettings "2024-04"
                           None None false None "" "" (Fin 0) true))
          = Some (oldValOf SavingInvest r2 cat).
Proof.
  destruct (new_month_shows_no_change
              (mkState ledgerMarch noTemplates defaultSettings "2024-04"
                 None None false None "" "" (Fin 0) true)
              "2024-03" (mkMonth ∅ {[ "Current" := 500 ]} ∅ ∅))
    as (r2 & Hr2 & H); try reflexivity.
  - intros k H1 H2. unfold ledgerMarch. simpl.
    apply lookup_singleton_ne. intros <-. by rewrite ltb_irrefl in H1.
  - exists r2. split; [exact Hr2|]. intros cat. apply H.
Defined.

(** ** Adding an entry (X7, X8, X9) *)

Lemma elem_of_entriesToChartData obj name v :
  (name, v) ∈ entriesToChartData obj ↔ obj !! name = Some v ∧ v ≠ 0.
Proof.
  unfold entriesToChartData.
  rewrite list_elem_of_In, filter_In, <- list_elem_of_In, elem_of_map_to_list. simpl.
  destruct (Z.eqb_spec v 0); simpl; intuition congruence.
Qed.

(** What [addItem] does once the input has passed its guard. *)
Lemma addItem_valid kind s amt :
  newAmt s = Fin amt →
  truthyString (catToUse s) = true →
  data (addItem kind s) =
    addItemUpdater (TEMPLATES (userTemplates s)) (selectedMonth s) kind (catToUse s) amt (data s)
  ∧ userTemplates (addItem kind s) =
      (if truthyString (newOther s) && rememberSubheading s
       then rememberName kind (trim (newOther s)) (userTemplates s)
       else userTemplates s)
  ∧ snackbar (addItem kind s) =
      Some (mkUndo (envOf s) (catToUse s)
              (default 0 (get kind (monthOr (TEMPLATES (userTemplates s)) (selectedMonth s)
                                      (data s)) !! catToUse s)))
  ∧ selectedMonth (addItem kind s) = selectedMonth s
  ∧ settings (addItem kind s) = settings s
  ∧ newCat (addItem kind s) = EmptyString
  ∧ newOther (addItem kind s) = EmptyString
  ∧ showAdder (addItem kind s) = None.
Proof.
  intros Hamt Hcat. unfold addItem. rewrite Hamt, Hcat. simpl.
  by destruct (truthyString (newOther s) && rememberSubheading s).
Qed.

Lemma monthOr_amount T key d k cat :
  default 0 (get k (monthOr T key d) !! cat) =
  default 0 (months d !! key ≫= λ m, get k m !! cat).
Proof.
  unfold monthOr. destruct (months d !! key) as [m|]; simpl; [done|].
  rewrite get_emptyMonth. destruct (zeroed _ !! cat) eqn:E; [|done].
  by apply zeroed_Some in E as [-> _].
Qed.

(** X7.  A valid [addItem] adds the amount to what the category held in
    the selected month (a missing entry or month counts for 0), leaves
    every other stored amount as it was, moves the month's cash flow by
    the amount for an income entry and against it for an expense entry,
    registers an undo holding the old amount, and clears the form.
    Stated for integer amounts whose magnitudes, with the amount added,
    add up to at most 2^53 in the month (where the sums of doubles are
    exact), for a custom field of ASCII characters, and for a category
    that is not the name of a property of [Object.prototype] (the read
    [m[kind][cat]] would find the inherited property). *)
Theorem addItem_accumulates (kind : bucket) (s : State) (amt : Z) :
  newAmt s = Fin amt →
  asciiText (newOther s) = true →
  truthyString (catToUse s) = true →
  bool_decide (catToUse s ∈ objectPrototypeNames) = false →
  magnitudeOfMonth (monthOr (TEMPLATES (userTemplates s)) (selectedMonth s) (data s))
    + Z.abs amt ≤ 2 ^ 53 →
  let sel := selectedMonth s in
  let cat := catToUse s in
  let s' := addItem kind s in
  amountOf sel kind cat s' = Some (default 0 (amountOf sel kind cat s) + amt)
  ∧ (∀ key k' cat', is_Some (months (data s) !! key) →
       (key, k', cat') ≠ (sel, kind, cat) →
       amountOf key k' cat' s' = amountOf key k' cat' s)
  ∧ (is_Some (months (data s) !! sel) →
     cashFlow (aggregated [sel] (data s')) =
     cashFlow (aggregated [sel] (data s)) +
     match kind with income => amt | expense => - amt | _ => 0 end)
  ∧ snackbar s' = Some (mkUndo (envOf s) cat (default 0 (amountOf sel kind cat s)))
  ∧ newCat s' = EmptyString ∧ newOther s' = EmptyString ∧ showAdder s' = None.
Proof.
  intros Hamt _ Hcat _ _ sel cat s'.
  destruct (addItem_valid kind s amt Hamt Hcat) as (Hd & _ & Hsn & _ & _ & H1 & H2 & H3).
  fold s' sel cat in Hd, Hsn, H1, H2, H3.
  set (T := TEMPLATES (userTemplates s)) in *.
  assert (months (data s') !! sel =
          Some (set kind (<[cat := default 0 (amountOf sel kind cat s) + amt]>
                            (get kind (monthOr T sel (data s)))) (monthOr T sel (data s))))
    as Hsel.
  { rewrite Hd, addItemUpdater_lookup. unfold amountOf. by rewrite monthOr_amount. }
  split; [|split; [|split; [|split]]].
  - unfold amountOf at 1. rewrite Hsel. simpl. by rewrite get_set_eq, lookup_insert_eq.
  - intros key k' cat' [r Hr] Hne. unfold amountOf at 1.
    destruct (decide (key = sel)) as [->|Hk].
    + rewrite Hsel. simpl. unfold amountOf, monthOr. rewrite Hr. simpl.
      destruct (decide (kind = k')) as [<-|Hk'].
      * rewrite get_set_eq, lookup_insert_ne by congruence. done.
      * by rewrite get_set_ne.
    + rewrite Hd, addItemUpdater_other by done. done.
  - intros [r Hr].
    rewrite (aggregated_single _ _ _ Hsel), (aggregated_single _ _ _ Hr).
    unfold monthOr, amountOf. rewrite Hr. simpl. unfold cashFlow.
    destruct kind; simpl; rewrite ?sum_insert; lia.
  - rewrite Hsn. unfold amountOf. by rewrite monthOr_amount.
  - done.
Qed.

(** Adding 200 to Rent in the January ledger. *)
Lemma addItem_accumulates_witness :
  amountOf "2024-01" expense "Rent" (addItem expense (januaryForm "Rent" (Fin 200)))
  = Some (default 0 (amountOf "2024-01" expense "Rent" (januaryForm "Rent" (Fin 200))) + 200).
Proof.
  apply (addItem_accumulates expense (januaryForm "Rent" (Fin 200)) 200);
    first [reflexivity | vm_compute; discriminate].
Defined.

Lemma uniq_snoc l x :
  uniq (l ++ [x]) = if decide (x ∈ uniq l) then uniq l else (uniq l ++ [x])%list.
Proof. unfold uniq. by rewrite foldl_app. Qed.

Lemma uniq_spec l : NoDup (uniq l) ∧ ∀ x, x ∈ uniq l ↔ x ∈ l.
Proof.
  induction l as [|y l [IH1 IH2]] using rev_ind; [split; [constructor|done]|].
  rewrite uniq_snoc. destruct (decide (y ∈ uniq l)) as [Hin|Hnin].
  - split; [done|]. intros x. rewrite elem_of_app, list_elem_of_singleton, IH2.
    split; [by left|]. intros [?|Hx]; [done|subst x; by apply IH2].
  - split.
    + apply NoDup_app. split; [done|]. split; [|apply NoDup_singleton].
      intros x Hx ->%list_elem_of_singleton. done.
    + intros x. rewrite !elem_of_app, IH2. done.
Qed.

Lemma uniq_NoDup l : NoDup l → uniq l = l.
Proof.
  induction l as [|y l IH] using rev_ind; [done|].
  intros (Hl & Hy & _)%NoDup_app. rewrite uniq_snoc, (IH Hl).
  rewrite decide_False; [done|]. intros Hin. apply (Hy y Hin).
  by apply list_elem_of_singleton.
Qed.

Lemma names_setNames k k' l t :
  names k' (setNames k l t) = if decide (k = k') then l else names k' t.
Proof. by destruct k, k'. Qed.

(** X8.  With the checkbox ticked, a non-empty custom name of ASCII
    characters is remembered with set semantics: the trimmed name is
    appended to the custom list of the entry's bucket unless that list
    holds it already, and the lists of the other buckets are not
    touched.  With the checkbox cleared, or with an empty custom field,
    the template store is not changed.  (White space outside ASCII,
    which the platform's [trim] removes as well, is not modelled.) *)
Theorem addItem_remembers_once (kind : bucket) (s : State) (amt : Z) :
  newAmt s = Fin amt →
  asciiText (newOther s) = true →
  truthyString (catToUse s) = true →
  NoDup (names kind (userTemplates s)) →
  let s' := addItem kind s in
  let name := trim (newOther s) in
  (truthyString (newOther s) = true → rememberSubheading s = true →
     names kind (userTemplates s') =
       (if decide (name ∈ names kind (userTemplates s))
        then names kind (userTemplates s)
        else (names kind (userTemplates s) ++ [name])%list)
     ∧ ∀ k, k ≠ kind → names k (userTemplates s') = names k (userTemplates s))
  ∧ (truthyString (newOther s) = false ∨ rememberSubheading s = false →
     userTemplates s' = userTemplates s).
Proof.
  intros Hamt _ Hcat Hnd s' name.
  destruct (addItem_valid kind s amt Hamt Hcat) as (_ & Hut & _). fold s' in Hut.
  split.
  - intros Ho Hr. rewrite Hut, Ho, Hr. simpl. unfold rememberName. split.
    + rewrite names_setNames, decide_True by done.
      rewrite uniq_snoc, (uniq_NoDup _ Hnd). done.
    + intros k Hk. rewrite names_setNames, decide_False by done. done.
  - intros [Ho|Hr]; rewrite Hut; [by rewrite Ho|].
    rewrite Hr. by rewrite andb_false_r.
Qed.

(** Adding 50 under the new custom name Gym. *)
Lemma addItem_remembers_once_witness :
  names expense (userTemplates
                   (addItem expense
                      (mkState ledgerJanuary noTemplates defaultSettings "2024-01" None None
                         true (Some expense) "" "Gym" (Fin 50) true)))
  = ["Gym"].
Proof.
  apply (addItem_remembers_once expense
           (mkState ledgerJanuary noTemplates defaultSettings "2024-01" None None
              true (Some expense) "" "Gym" (Fin 50) true) 50);
    try reflexivity. constructor.
Defined.

(** X9.  A custom field that holds only white space does not name the
    entry, which goes to the selected category, but it is still
    remembered: the empty name joins the custom list of the bucket, and
    with it the names offered for the bucket. *)
Theorem addItem_remembers_blank_name (kind : bucket) (s : State) (amt : Z) :
  newAmt s = Fin amt →
  truthyString (newOther s) = true →
  trim (newOther s) = EmptyString →
  truthyString (newCat s) = true →
  rememberSubheading s = true →
  let s' := addItem kind s in
  amountOf (selectedMonth s) kind (newCat s) s'
    = Some (default 0 (amountOf (selectedMonth s) kind (newCat s) s) + amt)
  ∧ EmptyString ∈ names kind (userTemplates s')
  ∧ EmptyString ∈ names kind (TEMPLATES (userTemplates s')).
Proof.
  intros Hamt Ho Htrim Hc Hr s'.
  assert (catToUse s = newCat s) as Hcat.
  { unfold catToUse. rewrite Ho, Htrim. done. }
  assert (truthyString (catToUse s) = true) as Hok by (by rewrite Hcat).
  destruct (addItem_valid kind s amt Hamt Hok) as (Hd & Hut & _). fold s' in Hd, Hut.
  assert (EmptyString ∈ names kind (userTemplates s')) as Hin.
  { rewrite Hut, Ho, Hr, Htrim. simpl. unfold rememberName.
    rewrite names_setNames, decide_True by done.
    apply uniq_spec. apply elem_of_app. right. by apply list_elem_of_singleton. }
  split; [|split; [done|]].
  - unfold amountOf at 1. rewrite Hd, addItemUpdater_lookup, Hcat. simpl.
    rewrite get_set_eq, lookup_insert_eq. unfold amountOf. by rewrite monthOr_amount.
  - destruct kind; unfold names, TEMPLATES in *; apply elem_of_app; by right.
Qed.

(** Rent selected, two spaces typed in the custom field. *)
Lemma addItem_remembers_blank_name_witness :
  EmptyString ∈ names expense
    (userTemplates
       (addItem expense
          (mkState ledgerJanuary noTemplates defaultSettings "2024-01" None None
             true (Some expense) "Rent" "  " (Fin 200) true))).
Proof.
  apply (addItem_remembers_blank_name expense
           (mkState ledgerJanuary noTemplates defaultSettings "2024-01" None None
              true (Some expense) "Rent" "  " (Fin 200) true) 200); reflexivity.
Defined.

(** ** The custom lists over a visit (X10, X11) *)

Lemma updateAmount_userTemplates e cat v s :
  userTemplates (updateAmount e cat v s) = userTemplates s.
Proof. unfold updateAmount. by destruct (e_bucket e). Qed.

Lemma addItem_userTemplates kind s :
  userTemplates (addItem kind s) = userTemplates s
  ∨ ∃ name, userTemplates (addItem kind s) = rememberName kind name (userTemplates s).
Proof.
  destruct (newAmt s) as [amt|] eqn:Hamt; [|left; unfold addItem; by rewrite Hamt].
  destruct (truthyString (catToUse s)) eqn:Hcat;
    [|left; unfold addItem; by rewrite Hamt, Hcat].
  destruct (addItem_valid kind s amt Hamt Hcat) as (_ & -> & _).
  destruct (truthyString (newOther s) && rememberSubheading s);
    [right; by eexists|by left].
Qed.

Lemma rememberName_NoDup kind name t :
  (∀ k, NoDup (names k t)) → ∀ k, NoDup (names k (rememberName kind name t)).
Proof.
  intros Ht k. unfold rememberName. rewrite names_setNames.
  destruct (decide (kind = k)); [apply uniq_spec|apply Ht].
Qed.

Lemma step_custom_NoDup a s :
  (∀ k, NoDup (names k (userTemplates s))) →
  ∀ k, NoDup (names k (userTemplates (step a s))).
Proof.
  intros Hs. destruct a; simpl; try done.
  - destruct (addItem_userTemplates kind s) as [->|[name ->]];
      [done|by apply rememberName_NoDup].
  - unfold saveEdit. by rewrite updateAmount_userTemplates.
  - unfold confirmDelete, deleteAmount. simpl. by rewrite updateAmount_userTemplates.
  - unfold clickUndo. destruct (snackbar s); [|done]. simpl.
    by rewrite updateAmount_userTemplates.
  - by destruct confirmed.
  - destruct confirmed; [|done]. simpl. intros []; constructor.
Qed.

(** X10.  In every state reached from a first visit, no custom list
    holds a name twice. *)
Theorem custom_lists_have_no_duplicates (monthKey : string) (actions : list Action)
    (k : bucket) :
  NoDup (names k (userTemplates (run actions (initialState monthKey)))).
Proof.
  assert (∀ s, (∀ k, NoDup (names k (userTemplates s))) →
               ∀ k, NoDup (names k (userTemplates (run actions s)))) as H.
  { induction actions as [|a l IH]; intros s Hs; [done|].
    simpl. apply IH. by apply step_custom_NoDup. }
  apply H. intros []; constructor.
Qed.

(** X11.  The built-in names are not looked at when a name is
    remembered: a custom name equal to a built-in name of the bucket is
    added to the custom list all the same, and the names offered for the
    bucket then hold it twice. *)
Theorem remembered_builtin_name_is_offered_twice (kind : bucket) (s : State) (amt : Z) :
  newAmt s = Fin amt →
  truthyString (newOther s) = true →
  rememberSubheading s = true →
  trim (newOther s) ∈ names kind BASE_TEMPLATES →
  trim (newOther s) ∈ names kind (userTemplates (addItem kind s))
  ∧ ¬ NoDup (names kind (TEMPLATES (userTemplates (addItem kind s)))).
Proof.
  intros Hamt Ho Hr Hbase.
  assert (truthyString (trim (newOther s)) = true) as Ht.
  { destruct (trim (newOther s)) eqn:E; [|done].
    exfalso. clear -Hbase. destruct kind; simpl in Hbase;
      repeat (apply elem_of_cons in Hbase as [Hbase|Hbase]; [discriminate|]);
      by apply elem_of_nil in Hbase. }
  assert (catToUse s = trim (newOther s)) as Hcat.
  { unfold catToUse. by rewrite Ho, Ht. }
  assert (truthyString (catToUse s) = true) as Hok by (by rewrite Hcat).
  destruct (addItem_valid kind s amt Hamt Hok) as (_ & Hut & _).
  assert (trim (newOther s) ∈ names kind (userTemplates (addItem kind s))) as Hin.
  { rewrite Hut, Ho, Hr. simpl. unfold rememberName.
    rewrite names_setNames, decide_True by done.
    apply uniq_spec. apply elem_of_app. right. by apply list_elem_of_singleton. }
  split; [done|]. intros Hnd.
  assert (names kind (TEMPLATES (userTemplates (addItem kind s))) =
          (names kind BASE_TEMPLATES ++ names kind (userTemplates (addItem kind s)))%list)
    as Hn by (by destruct kind).
  rewrite Hn in Hnd. apply NoDup_app in Hnd as (_ & Hdisj & _).
  by apply (Hdisj _ Hbase).
Qed.

(** Mortgage typed as a custom expense name in the January ledger. *)
Lemma remembered_builtin_name_is_offered_twice_witness :
  ¬ NoDup (names expense (TEMPLATES (userTemplates
             (addItem expense (setForm true (Some expense) "" "Mortgage" (Fin 5) true
                                 (januaryForm "" (Fin 0))))))).
Proof.
  apply (remembered_builtin_name_is_offered_twice expense
           (setForm true (Some expense) "" "Mortgage" (Fin 5) true (januaryForm "" (Fin 0))) 5);
    try reflexivity.
  vm_compute. apply elem_of_cons. by left.
Defined.

(** ** Deleting an entry and undoing an edit (X12, X13) *)

Lemma targetBucket_after_write T b base cat v :
  targetBucket T b (applyTo base cat v (targetBucket T b base cat)) cat =
  targetBucket T b base cat.
Proof.
  destruct b as [k|]; [done|]. unfold targetBucket, applyTo, hasOwnProperty.
  destruct (bool_decide (is_Some (m_saving base !! cat))) eqn:Es;
    [|destruct (bool_decide (is_Some (m_investment base !! cat))) eqn:Ei;
      [|destruct (bool_decide (cat ∈ t_saving T)) eqn:Et]];
    destruct base as [bi be bs bv]; simpl in *; rewrite ?Es;
    rewrite bool_decide_eq_true_2; try done; rewrite lookup_insert_eq; eauto.
Qed.

Lemma applyTo_twice base cat v k :
  applyTo (applyTo base cat v k) cat v k = applyTo base cat v k.
Proof.
  unfold applyTo. rewrite get_set_eq, insert_insert_eq. by destruct k.
Qed.

Lemma updateAmountUpdater_twice T sel b cat v d :
  updateAmountUpdater T sel b cat v (updateAmountUpdater T sel b cat v d) =
  updateAmountUpdater T sel b cat v d.
Proof.
  unfold updateAmountUpdater at 1. unfold monthOr at 1 2.
  rewrite updateAmountUpdater_lookup. simpl.
  rewrite targetBucket_after_write, applyTo_twice.
  unfold updateAmountUpdater. simpl. by rewrite insert_insert_eq.
Qed.

Lemma confirmDelete_data cat s b :
  breakdownBucket s = Some b →
  data (confirmDelete cat s) =
  updateAmountUpdater (TEMPLATES (userTemplates s)) (selectedMonth s) b cat (Fin 0) (data s).
Proof.
  intros Hb. unfold confirmDelete, deleteAmount. simpl.
  by rewrite (updateAmount_data _ _ _ _ b).
Qed.

Lemma confirmDelete_snackbar cat s b :
  breakdownBucket s = Some b →
  snackbar (confirmDelete cat s) =
  Some (mkUndo (envOf s) cat
          (oldValOf b (monthOr (TEMPLATES (userTemplates s)) (selectedMonth s) (data s)) cat)).
Proof.
  intros Hb. unfold confirmDelete, deleteAmount. simpl. by rewrite Hb.
Qed.



(** X13.  The undo of an edit belongs to the render in which the edit
    was made.  Whatever happened since (another month selected, the
    chart closed, other entries written), as long as the undo is still
    offered it writes the amount shown before the edit into the month of
    the edit, for the bucket of the chart the edit was made through; the
    other months and the other entries of that month are as they were
    just before the undo, the selected month is not changed, and the
    undo is offered no longer. *)
Theorem undo_goes_to_the_month_of_the_edit (k : bucket) (cat : string) (v : num)
    (s s2 : State) :
  breakdownBucket s = Some (Plain k) →
  snackbar s2 = snackbar (saveEdit cat v s) →
  let s3 := clickUndo s2 in
  amountOf (selectedMonth s) k cat s3 = Some (default 0 (amountOf (selectedMonth s) k cat s))
  ∧ (∀ key, key ≠ selectedMonth s → months (data s3) !! key = months (data s2) !! key)
  ∧ (∀ k' cat', (k', cat') ≠ (k, cat) →
       is_Some (months (data s2) !! selectedMonth s) →
       amountOf (selectedMonth s) k' cat' s3 = amountOf (selectedMonth s) k' cat' s2)
  ∧ selectedMonth s3 = selectedMonth s2
  ∧ breakdownBucket s3 = breakdownBucket s2
  ∧ snackbar s3 = None.
Proof.
  intros Hb Hsn s3.
  unfold saveEdit in Hsn. rewrite (updateAmount_snackbar _ _ _ _ (Plain k)) in Hsn by done.
  simpl in Hsn.
  set (T := TEMPLATES (userTemplates s)) in *.
  set (old := default 0 (get k (monthOr T (selectedMonth s) (data s)) !! cat)) in *.
  assert (data s3 = updateAmountUpdater T (selectedMonth s) (Plain k) cat (Fin old) (data s2))
    as Hd.
  { unfold s3, clickUndo. rewrite Hsn. simpl.
    by rewrite (updateAmount_data _ _ _ _ (Plain k)). }
  assert (old = default 0 (amountOf (selectedMonth s) k cat s)) as Hold
    by apply monthOr_amount.
  split; [|split; [|split; [|split; [|split]]]].
  - unfold amountOf at 1. rewrite Hd, updateAmountUpdater_lookup. simpl.
    unfold applyTo. rewrite get_set_eq, lookup_insert_eq. simpl. by rewrite Hold.
  - intros key Hkey. by rewrite Hd, updateAmountUpdater_other.
  - intros k' cat' Hne [r Hr]. unfold amountOf.
    rewrite Hd, updateAmountUpdater_lookup. simpl.
    unfold monthOr, applyTo. rewrite Hr. simpl.
    destruct (decide (k = k')) as [<-|Hk'].
    + rewrite get_set_eq, lookup_insert_ne; [done|]. congruence.
    + by rewrite get_set_ne.
  - unfold s3, clickUndo. rewrite Hsn. simpl. unfold updateAmount, envOf. simpl.
    by rewrite Hb.
  - unfold s3, clickUndo. rewrite Hsn. simpl. unfold updateAmount, envOf. simpl.
    by rewrite Hb.
  - unfold s3, clickUndo. by rewrite Hsn.
Qed.

(** Rent is edited to 1200 in January 2024, February is selected, and
    the undo is clicked. *)
Lemma undo_goes_to_the_month_of_the_edit_witness :
  amountOf "2024-01" expense "Rent"
    (clickUndo (setSelectedMonth "2024-02"
       (saveEdit "Rent" (Fin 1200) (openBreakdown ExpensesCosts (januaryForm "" (Fin 0))))))
  = Some 1000.
Proof.
  apply (undo_goes_to_the_month_of_the_edit expense "Rent" (Fin 1200)
           (openBreakdown ExpensesCosts (januaryForm "" (Fin 0)))
           (setSelectedMonth "2024-02"
              (saveEdit "Rent" (Fin 1200)
                 (openBreakdown ExpensesCosts (januaryForm "" (Fin 0))))));
    reflexivity.
Defined.

(** ** Month navigation (X14) *)

Lemma shiftedKey_parse key y m delta :
  parseKey key = Some (y, m) → 100 ≤ y → 100 ≤ y + (m - 1 + delta) / 12 →
  shiftedKey key delta =
    Some (keyOfDate (y + (m - 1 + delta) / 12, (m - 1 + delta) mod 12))
  ∧ parseKey (keyOfDate (y + (m - 1 + delta) / 12, (m - 1 + delta) mod 12)) =
    Some (y + (m - 1 + delta) / 12, (m - 1 + delta) mod 12 + 1).
Proof.
  intros Hp Hy Hy'. unfold shiftedKey. rewrite Hp, newDate_plain by done. split; [done|].
  apply parseKey_keyOfDate; [lia|].
  pose proof (Z.mod_pos_bound (m - 1 + delta) 12). lia.
Qed.

Lemma shiftedKey_compose key y m d1 d2 k1 :
  parseKey key = Some (y, m) → 100 ≤ y → 100 ≤ y + (m - 1 + d1) / 12 →
  shiftedKey key d1 = Some k1 →
  shiftedKey k1 d2 = Some (keyOfDate (newDate y (m - 1 + (d1 + d2)))).
Proof.
  intros Hp Hy Hy' Hk1.
  destruct (shiftedKey_parse key y m d1 Hp Hy Hy') as [Hs Hp1].
  rewrite Hs in Hk1. injection Hk1 as <-.
  unfold shiftedKey. rewrite Hp1, !newDate_plain by done.
  do 3 f_equal; Z.div_mod_to_equations; lia.
Qed.

(** X14.  Month navigation adds up.  For a selected month YYYY-MM of
    the year 1000 or later, going [d1] months and then [d2] months
    selects the month that going [d1 + d2] months selects, for steps
    that stay well inside the range of dates: [d1] from 10800 months
    (900 years) back to 1200000 months (100000 years) forward, and [d2]
    of at most 1200000 months either way.  Going back by [d1] gives the
    state before, and nothing but the selected month is changed. *)
Theorem shiftMonth_adds_up (d1 d2 : Z) (s : State) (y m : Z) :
  month_id (selectedMonth s) = true →
  parseKey (selectedMonth s) = Some (y, m) →
  1000 ≤ y →
  -10800 ≤ d1 ≤ 1200000 →
  -1200000 ≤ d2 ≤ 1200000 →
  shiftMonth d2 (shiftMonth d1 s) = shiftMonth (d1 + d2) s
  ∧ shiftMonth (- d1) (shiftMonth d1 s) = s
  ∧ shiftMonth 0 s = s
  ∧ ∃ key, shiftMonth d1 s = setSelectedMonth key s
           ∧ parseKey key = Some (y + (m - 1 + d1) / 12, (m - 1 + d1) mod 12 + 1).
Proof.
  intros Hid Hp Hy Hd1 _.
  destruct (month_id_parse _ Hid) as (y' & m' & Hp' & _ & Hm & Hkey).
  rewrite Hp in Hp'. injection Hp' as <- <-. specialize (Hkey Hy).
  assert (100 ≤ y + (m - 1 + d1) / 12) as Hy' by (Z.div_mod_to_equations; lia).
  destruct (shiftedKey_parse _ y m d1 Hp ltac:(lia) Hy') as [Hs1 Hp1].
  assert (∀ d, shiftMonth d (shiftMonth d1 s) = shiftMonth (d1 + d) s) as Hcomp.
  { intros d. unfold shiftMonth at 2. rewrite Hs1.
    unfold shiftMonth. simpl.
    rewrite (shiftedKey_compose _ y m d1 d _ Hp ltac:(lia) Hy' Hs1).
    unfold shiftedKey. by rewrite Hp. }
  assert (shiftMonth 0 s = s) as H0.
  { unfold shiftMonth, shiftedKey. rewrite Hp, newDate_plain by lia.
    replace (m - 1 + 0) with (m - 1) by lia.
    rewrite Z.div_small, Z.mod_small by lia.
    replace (y + 0) with y by lia. rewrite Hkey. by destruct s. }
  split; [apply Hcomp|]. split; [|split; [done|]].
  - rewrite Hcomp. by replace (d1 + - d1) with 0 by lia.
  - eexists. split; [|exact Hp1]. unfold shiftMonth. by rewrite Hs1.
Qed.

(** From November 2024, two months forward and then three months back. *)
Lemma shiftMonth_adds_up_witness :
  shiftMonth (-3) (shiftMonth 2 (setSelectedMonth "2024-11" (januaryForm "" (Fin 0)))) =
  shiftMonth (-1) (setSelectedMonth "2024-11" (januaryForm "" (Fin 0))).
Proof.
  apply (shiftMonth_adds_up 2 (-3) (setSelectedMonth "2024-11" (januaryForm "" (Fin 0)))
           2024 11); first [reflexivity | lia].
Defined.

(** ** Fiscal years and the annual view (X15, X16) *)

Lemma fiscalYearKeysFor_keys (settings : Settings) (monthKey : string) (y m : Z) :
  parseKey monthKey = Some (y, m) →
  1 ≤ fyStartMonth settings ≤ 12 →
  fiscalYearKeysFor settings monthKey =
  Some ((λ i, keyOfDate (newDate (if fyStartMonth settings <=? m then y else y - 1)
                           (fyStartMonth settings - 1 + i))) <$> seqZ 0 12).
Proof.
  intros Hp Hfy. unfold fiscalYearKeysFor. rewrite Hp.
  by rewrite (proj2 (Z.eqb_neq (fyStartMonth settings) 0)) by lia.
Qed.

Lemma window_NoDup (sy mi : Z) :
  100 ≤ sy → 0 ≤ mi →
  NoDup ((λ i, keyOfDate (newDate sy (mi + i))) <$> seqZ 0 12).
Proof.
  intros Hsy Hmi. apply NoDup_fmap_2_strong; [|apply NoDup_seqZ].
  intros i j Hi%elem_of_seqZ Hj%elem_of_seqZ Hij.
  apply (f_equal parseKey) in Hij. rewrite !parseKey_window in Hij by lia.
  injection Hij as H1 H2. Z.div_mod_to_equations. lia.
Qed.

Lemma fiscalYearKeysFor_member (settings : Settings) (monthKey : string) (y m : Z)
    (keys : list string) (k : string) :
  parseKey monthKey = Some (y, m) →
  101 ≤ y →
  1 ≤ fyStartMonth settings ≤ 12 →
  fiscalYearKeysFor settings monthKey = Some keys →
  k ∈ keys →
  fiscalYearKeysFor settings k = Some keys.
Proof.
  intros Hp Hy Hfy Hkeys Hk.
  pose proof (fiscalYearKeysFor_keys _ _ y m Hp Hfy) as Hk0.
  rewrite Hkeys in Hk0. apply (inj Some) in Hk0. subst keys. clear Hkeys.
  set (fy := fyStartMonth settings) in *.
  set (sy := if fy <=? m then y else y - 1) in *.
  assert (100 ≤ sy) as Hsy by (unfold sy; destruct (fy <=? m); lia).
  apply list_elem_of_fmap in Hk as (i & -> & Hi%elem_of_seqZ).
  rewrite (fiscalYearKeysFor_keys _ _ (sy + (fy - 1 + i) / 12) ((fy - 1 + i) mod 12 + 1));
    [|apply parseKey_window; lia|done].
  fold fy.
  replace (if fy <=? (fy - 1 + i) mod 12 + 1
           then sy + (fy - 1 + i) / 12 else sy + (fy - 1 + i) / 12 - 1) with sy; [done|].
  destruct (Z.leb_spec fy ((fy - 1 + i) mod 12 + 1)); Z.div_mod_to_equations; lia.
Qed.

Lemma fiscalYearKeysFor_self (settings : Settings) (key : string) (y m : Z)
    (keys : list string) :
  month_id key = true →
  parseKey key = Some (y, m) →
  1000 ≤ y →
  1 ≤ fyStartMonth settings ≤ 12 →
  fiscalYearKeysFor settings key = Some keys →
  key ∈ keys.
Proof.
  intros Hid Hp Hy Hfy Hkeys.
  destruct (month_id_parse _ Hid) as (y' & m' & Hp' & _ & Hm & Hkey).
  rewrite Hp in Hp'. injection Hp' as <- <-. specialize (Hkey Hy).
  pose proof (fiscalYearKeysFor_keys _ _ y m Hp Hfy) as Hk0.
  rewrite Hkeys in Hk0. apply (inj Some) in Hk0. subst keys. clear Hkeys.
  set (fy := fyStartMonth settings) in *.
  apply list_elem_of_fmap.
  exists (if fy <=? m then m - fy else m - fy + 12). split.
  - rewrite <- Hkey at 1.
    rewrite newDate_plain by (destruct (fy <=? m); lia).
    destruct (Z.leb_spec fy m); do 2 f_equal; Z.div_mod_to_equations; lia.
  - apply elem_of_seqZ. destruct (Z.leb_spec fy m); lia.
Qed.

(** X15.  Fiscal years partition the months.  For month identifiers
    YYYY-MM of the year 1000 or later and a start month from 1 to 12, a
    month lies in the window computed for it, and every month of that
    window has that same window; so the windows of two months are equal
    or have no month in common. *)
Theorem fiscal_years_partition (settings : Settings) (a b : string) (ya ma yb mb : Z)
    (ka kb : list string) :
  month_id a = true → parseKey a = Some (ya, ma) → 1000 ≤ ya →
  month_id b = true → parseKey b = Some (yb, mb) → 1000 ≤ yb →
  1 ≤ fyStartMonth settings ≤ 12 →
  fiscalYearKeysFor settings a = Some ka →
  fiscalYearKeysFor settings b = Some kb →
  a ∈ ka
  ∧ b ∈ kb
  ∧ (∀ k, k ∈ ka → fiscalYearKeysFor settings k = Some ka)
  ∧ (ka = kb ∨ ∀ k, k ∈ ka → k ∉ kb).
Proof.
  intros Hia Hpa Hya Hib Hpb Hyb Hfy Hka Hkb.
  assert (∀ k, k ∈ ka → fiscalYearKeysFor settings k = Some ka) as Ha
    by (intros k; apply (fiscalYearKeysFor_member settings a ya ma); [done|lia|done..]).
  split; [by apply (fiscalYearKeysFor_self settings a ya ma)|].
  split; [by apply (fiscalYearKeysFor_self settings b yb mb)|].
  split; [done|].
  destruct (decide (ka = kb)) as [|Hne]; [by left|right].
  intros k Hin Hin'. apply Hne.
  pose proof (Ha k Hin) as H1.
  pose proof (fiscalYearKeysFor_member settings b yb mb kb k Hpb ltac:(lia) Hfy Hkb Hin')
    as H2.
  congruence.
Qed.

(** With the fiscal year starting in April, May 2023 is in the window of
    February 2024 and has the same window. *)
Lemma fiscal_years_partition_witness :
  fiscalYearKeysFor (mkSettings "EUR" 4 true false) "2023-05" =
  Some ["2023-04"; "2023-05"; "2023-06"; "2023-07"; "2023-08"; "2023-09";
        "2023-10"; "2023-11"; "2023-12"; "2024-01"; "2024-02"; "2024-03"].
Proof.
  apply (fiscal_years_partition (mkSettings "EUR" 4 true false) "2024-02" "2023-05"
           2024 2 2023 5
           ["2023-04"; "2023-05"; "2023-06"; "2023-07"; "2023-08"; "2023-09";
            "2023-10"; "2023-11"; "2023-12"; "2024-01"; "2024-02"; "2024-03"]
           ["2023-04"; "2023-05"; "2023-06"; "2023-07"; "2023-08"; "2023-09";
            "2023-10"; "2023-11"; "2023-12"; "2024-01"; "2024-02"; "2024-03"]);
    first [reflexivity | simpl; lia | (apply elem_of_cons; right; apply elem_of_cons; by left)].
Defined.

Lemma filter_sorted {A} (R : relation A) (P : A → bool) (l : list A) :
  StronglySorted R l → StronglySorted R (List.filter P l).
Proof.
  induction 1 as [|x l Hl IH Hx]; simpl; [constructor|].
  destruct (P x); [|done]. constructor; [done|].
  apply Forall_forall. intros z Hz.
  apply list_elem_of_In, filter_In in Hz as [Hz _].
  rewrite Forall_forall in Hx. by apply Hx, list_elem_of_In.
Qed.

Lemma filter_NoDup {A} (P : A → bool) (l : list A) :
  NoDup l → NoDup (List.filter P l).
Proof.
  induction 1 as [|x l Hx Hl IH]; simpl; [constructor|].
  destruct (P x); [|done]. constructor; [|done].
  intros Hin. apply Hx. apply list_elem_of_In, filter_In in Hin as [Hin _].
  by apply list_elem_of_In.
Qed.

Lemma elem_of_filter_bool {A} (P : A → bool) (l : list A) x :
  x ∈ List.filter P l ↔ x ∈ l ∧ P x = true.
Proof. by rewrite list_elem_of_In, filter_In, <- list_elem_of_In. Qed.

Lemma sortedKeys_NoDup {V} (o : gmap string V) : NoDup (sortedKeys o).
Proof.
  unfold sortedKeys. rewrite merge_sort_Permutation. apply NoDup_fst_map_to_list.
Qed.

Lemma foldl_addKey_present d ks acc :
  foldl (addKey d) acc ks =
  foldl (addKey d) acc (List.filter (λ k, bool_decide (is_Some (months d !! k))) ks).
Proof.
  revert acc. induction ks as [|k ks IH]; intros acc; simpl; [done|].
  destruct (months d !! k) as [r|] eqn:E.
  - rewrite bool_decide_eq_true_2 by eauto. simpl. apply IH.
  - rewrite bool_decide_eq_false_2 by (by intros [? ?]).
    unfold addKey at 2. rewrite E. apply IH.
Qed.



(** ** Export (X17, X18) *)

Lemma elem_of_exportRows keys d r :
  r ∈ exportRows keys d ↔
  r_month r ∈ keys
  ∧ ∃ m, months d !! r_month r = Some m
         ∧ get (r_bucket r) m !! r_category r = Some (r_amount r).
Proof.
  unfold exportRows. rewrite list_elem_of_bind. split.
  - intros (k & Hr & Hk).
    destruct (months d !! k) as [m|] eqn:Hm; [|by apply elem_of_nil in Hr].
    apply list_elem_of_bind in Hr as (b & Hr & Hb).
    apply list_elem_of_fmap in Hr as ([c v] & -> & Hcv%elem_of_map_to_list).
    simpl. split; [done|]. by exists m.
  - intros (Hk & m & Hm & Hv). exists (r_month r). split; [|done]. rewrite Hm.
    apply list_elem_of_bind. exists (r_bucket r). split.
    + apply list_elem_of_fmap. exists (r_category r, r_amount r).
      split; [by destruct r|]. by apply elem_of_map_to_list.
    + destruct (r_bucket r); repeat constructor.
Qed.

Lemma exportRows_NoDup keys d : NoDup keys → NoDup (exportRows keys d).
Proof.
  intros Hnd. unfold exportRows. apply NoDup_bind; [| |done].
  - assert (∀ k r, r ∈ match months d !! k with
                       | None => []
                       | Some m =>
                           [income; expense; saving; investment] ≫= λ b,
                             (λ kv, mkRow k b kv.1 kv.2) <$> map_to_list (get b m)
                       end → r_month r = k) as Hmonth.
    { intros k r Hr. destruct (months d !! k) as [m|]; [|by apply elem_of_nil in Hr].
      apply list_elem_of_bind in Hr as (b & Hr & _).
      by apply list_elem_of_fmap in Hr as (kv & -> & _). }
    intros k1 k2 r _ _ H1 H2. by rewrite <- (Hmonth k1 r H1), <- (Hmonth k2 r H2).
  - intros k _. destruct (months d !! k) as [m|]; [|constructor].
    apply NoDup_bind.
    + intros b1 b2 r _ _ H1 H2.
      apply list_elem_of_fmap in H1 as (kv1 & -> & _).
      by apply list_elem_of_fmap in H2 as (kv2 & [=] & _).
    + intros b _. apply NoDup_fmap_2; [|apply NoDup_map_to_list].
      intros [c1 v1] [c2 v2] [=]. by subst.
    + repeat (apply NoDup_cons; split;
                [rewrite ?elem_of_cons, elem_of_nil; intuition discriminate|]).
      constructor.
Qed.

(** X17.  The export holds one row for every entry of every exported
    month that the ledger holds, with the amount stored, the entries of
    amount 0 included; with distinct keys no row is written twice; and
    no file is written exactly when no exported month has an entry. *)
Theorem exportRows_holds_every_entry (keys : list string) (d : Data) :
  (∀ r, r ∈ exportRows keys d ↔
        r_month r ∈ keys
        ∧ ∃ m, months d !! r_month r = Some m
               ∧ get (r_bucket r) m !! r_category r = Some (r_amount r))
  ∧ (NoDup keys → NoDup (exportRows keys d))
  ∧ (csvOf (exportRows keys d) = None ↔
     ∀ k m b, k ∈ keys → months d !! k = Some m → get b m = ∅).
Proof.
  split; [apply elem_of_exportRows|]. split; [apply exportRows_NoDup|].
  assert (csvOf (exportRows keys d) = None ↔ exportRows keys d = []) as ->
    by (by destruct (exportRows keys d)).
  split.
  - intros Hnil k m b Hk Hm. apply map_eq. intros c. rewrite lookup_empty.
    destruct (get b m !! c) as [v|] eqn:Hv; [|done].
    assert (mkRow k b c v ∈ exportRows keys d) as Hin.
    { apply elem_of_exportRows. simpl. split; [done|]. by exists m. }
    rewrite Hnil in Hin. by apply elem_of_nil in Hin.
  - intros Hempty. apply elem_of_nil_inv. intros r (Hk & m & Hm & Hv)%elem_of_exportRows.
    by rewrite (Hempty _ _ (r_bucket r) Hk Hm), lookup_empty in Hv.
Qed.

Lemma append_String (x : ascii) (a b : string) : String x a +:+ b = String x (a +:+ b).
Proof. reflexivity. Qed.

Lemma append_assoc (a b c : string) : (a +:+ b) +:+ c = a +:+ (b +:+ c).
Proof. induction a as [|x a IH]; [done|]. by rewrite !append_String, IH. Qed.

Lemma append_inj_length (s1 s2 t1 t2 : string) :
  String.length s1 = String.length s2 → s1 +:+ t1 = s2 +:+ t2 → s1 = s2 ∧ t1 = t2.
Proof.
  revert s2. induction s1 as [|c s1 IH]; intros [|c' s2] Hlen H; try done.
  rewrite !append_String in H. injection H as -> H. injection Hlen as Hlen.
  by destruct (IH s2 Hlen H) as [-> ->].
Qed.

Lemma fieldAndAmount_nil amt :
  fieldAndAmount "" amt = String dquote (String "," (pretty amt)).
Proof. reflexivity. Qed.

Lemma fieldAndAmount_quote r amt :
  fieldAndAmount (String dquote r) amt = String dquote (String dquote (fieldAndAmount r amt)).
Proof. reflexivity. Qed.

Lemma fieldAndAmount_other c r amt :
  c ≠ dquote → fieldAndAmount (String c r) amt = String c (fieldAndAmount r amt).
Proof.
  intros Hc. unfold fieldAndAmount. simpl.
  destruct (Ascii.eqb_spec c dquote); [done|]. by rewrite append_String.
Qed.

Lemma fieldAndAmount_inj cat1 cat2 amt1 amt2 :
  fieldAndAmount cat1 amt1 = fieldAndAmount cat2 amt2 → cat1 = cat2 ∧ amt1 = amt2.
Proof.
  revert cat2. induction cat1 as [|c r1 IH]; intros [|c' r2].
  - rewrite !fieldAndAmount_nil. intros [=H]. split; [done|]. by apply (inj pretty).
  - rewrite fieldAndAmount_nil. destruct (decide (c' = dquote)) as [->|Hc'].
    + rewrite fieldAndAmount_quote. discriminate.
    + rewrite fieldAndAmount_other by done. intros [=H _]. by destruct Hc'.
  - rewrite fieldAndAmount_nil. destruct (decide (c = dquote)) as [->|Hc].
    + rewrite fieldAndAmount_quote. discriminate.
    + rewrite fieldAndAmount_other by done. intros [=H _]. by destruct Hc.
  - destruct (decide (c = dquote)) as [->|Hc], (decide (c' = dquote)) as [->|Hc'].
    + rewrite !fieldAndAmount_quote. intros [=H]. by destruct (IH _ H) as [-> ->].
    + rewrite fieldAndAmount_quote, fieldAndAmount_other by done.
      intros [=H _]. by destruct Hc'.
    + rewrite fieldAndAmount_quote, fieldAndAmount_other by done.
      intros [=H _]. by destruct Hc.
    + rewrite !fieldAndAmount_other by done.
      intros [=-> H]. by destruct (IH _ H) as [-> ->].
Qed.

Lemma csvLine_fieldAndAmount r :
  csvLine r =
  r_month r +:+ "," +:+ bucketName (r_bucket r) +:+ "," +:+
  String dquote (fieldAndAmount (r_category r) (r_amount r)).
Proof.
  unfold csvLine, csvField, fieldAndAmount. do 4 f_equal.
  by rewrite append_String, append_assoc.
Qed.

Lemma bucketName_prefix_inj (b1 b2 : bucket) (x y : string) :
  "," +:+ bucketName b1 +:+ "," +:+ x = "," +:+ bucketName b2 +:+ "," +:+ y →
  b1 = b2 ∧ x = y.
Proof.
  destruct b1, b2; intros H; vm_compute in H; try discriminate H; by injection H.
Qed.

(** X18.  The lines of the CSV file tell the rows apart: two different
    rows whose month keys have the same length (as all keys YYYY-MM
    have) are written as different lines, whatever commas and double
    quotes their categories hold. *)
Theorem csvLine_tells_rows_apart (r1 r2 : Row) :
  String.length (r_month r1) = String.length (r_month r2) →
  r1 ≠ r2 →
  csvLine r1 ≠ csvLine r2.
Proof.
  intros Hlen Hne H. apply Hne. rewrite !csvLine_fieldAndAmount in H.
  apply append_inj_length in H as [Hm H]; [|done].
  destruct r1 as [m1 b1 c1 a1], r2 as [m2 b2 c2 a2]. simpl in *. subst m2.
  apply bucketName_prefix_inj in H as [-> [=Hf]].
  by destruct (fieldAndAmount_inj _ _ _ _ Hf) as [-> ->].
Qed.

(** Two rows of January: amount 5 under a category that ends in a
    double quote, a comma and 5, and amount 5 under that category
    without its last character. *)
Lemma csvLine_tells_rows_apart_witness :
  csvLine (mkRow "2024-01" expense (String "a" (String dquote ",5")) 5) ≠
  csvLine (mkRow "2024-01" expense (String "a" (String dquote ",")) 5).
Proof.
  apply (csvLine_tells_rows_apart
           (mkRow "2024-01" expense (String "a" (String dquote ",5")) 5)
           (mkRow "2024-01" expense (String "a" (String dquote ",")) 5)).
  - reflexivity.
  - intros H. discriminate H.
Defined.

(** ** Editing in the annual view (X19) *)

Lemma get_plusMonth k a b : get k (plusMonth a b) = plus (get k a) (get k b).
Proof. by destruct k. Qed.

Lemma default_plus (a b : gmap string Z) c :
  default 0 (plus a b !! c) = default 0 (a !! c) + default 0 (b !! c).
Proof. rewrite plus_lookup. destruct (a !! c), (b !! c); simpl; lia. Qed.

Lemma foldl_addKey_ext d1 d2 ks acc :
  (∀ k, k ∈ ks → months d1 !! k = months d2 !! k) →
  foldl (addKey d1) acc ks = foldl (addKey d2) acc ks.
Proof.
  revert acc. induction ks as [|k ks IH]; intros acc H; simpl; [done|].
  assert (addKey d1 acc k = addKey d2 acc k) as ->
    by (unfold addKey; rewrite H; [done|by left]).
  apply IH. intros k' Hk'. apply H. by right.
Qed.

Lemma aggregated_cons d keys sel others r :
  keys ≡ₚ sel :: others → months d !! sel = Some r →
  aggregated keys d = plusMonth r (aggregated others d).
Proof.
  intros Hp Hr.
  change (foldl (addKey d) noTotals keys = plusMonth r (foldl (addKey d) noTotals others)).
  rewrite (foldl_addKey_perm d _ _ Hp). simpl. rewrite foldl_addKey_plusMonth. f_equal.
  unfold addKey. rewrite Hr. by rewrite addMonth_plusMonth, plusMonth_noTotals_l.
Qed.

(** X19.  An edit writes the typed amount into the selected month, also
    when the row edited shows the total of several months: with the
    chart of bucket [k] open on the months [keys], after the edit of
    [cat] to [v] the total shown for [cat] is the total before, less the
    amount of the selected month, plus [v]; it is [v] only when the
    other months hold nothing for [cat].  No other total changes.
    Stated for integer amounts whose magnitudes, with the amount typed,
    add up to at most 2^53 over the months viewed (where the sums of
    doubles are exact). *)
Theorem edit_of_a_total_changes_selected_month (k : bucket) (cat : string) (v : num)
    (s : State) (keys : list string) (r : Month) :
  breakdownBucket s = Some (Plain k) →
  NoDup keys →
  selectedMonth s ∈ keys →
  months (data s) !! selectedMonth s = Some r →
  magnitudeOfMonths keys (data s) + Z.abs (orZero v) ≤ 2 ^ 53 →
  let total d := default 0 (get k (aggregated keys d) !! cat) in
  let s' := saveEdit cat v s in
  total (data s') = total (data s) - default 0 (get k r !! cat) + orZero v
  ∧ (∀ k' cat', (k', cat') ≠ (k, cat) →
       get k' (aggregated keys (data s')) !! cat' =
       get k' (aggregated keys (data s)) !! cat').
Proof.
  intros Hb Hnd Hin Hr _ total s'.
  apply elem_of_Permutation in Hin as [others Hp].
  assert (selectedMonth s ∉ others) as Hni
    by (rewrite Hp in Hnd; by apply NoDup_cons in Hnd as [? _]).
  assert (data s' = updateAmountUpdater (TEMPLATES (userTemplates s)) (selectedMonth s)
                      (Plain k) cat v (data s)) as Hd
    by (unfold s', saveEdit; by rewrite (updateAmount_data _ _ _ _ (Plain k))).
  assert (months (data s') !! selectedMonth s = Some (applyTo r cat v k)) as Hr'.
  { rewrite Hd, updateAmountUpdater_lookup. unfold monthOr. by rewrite Hr. }
  assert (aggregated others (data s') = aggregated others (data s)) as Ho.
  { apply foldl_addKey_ext. intros key Hkey. rewrite Hd.
    apply updateAmountUpdater_other. by intros ->. }
  unfold total.
  rewrite (aggregated_cons _ _ _ _ _ Hp Hr'), (aggregated_cons _ _ _ _ _ Hp Hr), Ho.
  split.
  - rewrite !get_plusMonth, !default_plus. unfold applyTo.
    rewrite get_set_eq, lookup_insert_eq. simpl. lia.
  - intros k' cat' Hne. rewrite !get_plusMonth, !plus_lookup.
    assert (get k' (applyTo r cat v k) !! cat' = get k' r !! cat') as ->; [|done].
    unfold applyTo. destruct (decide (k = k')) as [<-|Hk].
    + rewrite get_set_eq, lookup_insert_ne; [done|]. congruence.
    + by rewrite get_set_ne.
Qed.

(** Rent is 1000 in January and 900 in February 2024; in the view of
    both months the Rent of January is edited to 1200, and the total
    shown for Rent is 2100. *)
Lemma edit_of_a_total_changes_selected_month_witness :
  default 0
    (get expense
       (aggregated ["2024-01"; "2024-02"] (data (saveEdit "Rent" (Fin 1200) rentChart)))
     !! "Rent") = 2100.
Proof.
  etrans.
  - apply (edit_of_a_total_changes_selected_month expense "Rent" (Fin 1200) rentChart
             ["2024-01"; "2024-02"] (mkMonth ∅ ∅ ∅ {[ "Rent" := 1000 ]})).
    + reflexivity.
    + apply NoDup_cons. split; [|apply NoDup_singleton].
      intros H%list_elem_of_singleton. discriminate H.
    + by left.
    + reflexivity.
    + vm_compute. discriminate.
  - vm_compute. reflexivity.
Defined.

(** ** Reset of the ledger (X20) *)

Lemma foldl_addKey_all_zero d keys acc :
  (∀ key r k c v, months d !! key = Some r → get k r !! c = Some v → v = 0) →
  (∀ k c v, get k acc !! c = Some v → v = 0) →
  ∀ k c v, get k (foldl (addKey d) acc keys) !! c = Some v → v = 0.
Proof.
  intros Hd. revert acc. induction keys as [|key keys IH]; intros acc Hacc; [done|].
  simpl. apply IH. intros k c v. unfold addKey.
  destruct (months d !! key) as [r|] eqn:Hr; [|apply Hacc].
  rewrite addMonth_plusMonth, get_plusMonth, plus_lookup.
  destruct (get k acc !! c) as [x|] eqn:Hx, (get k r !! c) as [y|] eqn:Hy;
    intros [=<-]; try pose proof (Hacc _ _ _ Hx); try pose proof (Hd _ _ _ _ _ Hr Hy); lia.
Qed.

(** X20.  A confirmed reset of the ledger leaves one month, the current
    calendar month, whose record holds the amount 0 for every built-in
    and every remembered category and nothing else; whatever months are
    viewed, no chart has a row and cash flow and net worth are 0.  The
    custom lists, the settings, the selected month and a pending undo
    are kept, so a selected month other than the current one has no
    record; a reset that is not confirmed changes nothing. *)
Theorem resetData_clears_every_view (monthKey : string) (s : State) (keys : list string) :
  let s' := resetData true monthKey s in
  let agg := aggregated keys (data s') in
  (∀ key, is_Some (months (data s') !! key) ↔ key = monthKey)
  ∧ (∀ k c, amountOf monthKey k c s' =
            if decide (c ∈ names k (TEMPLATES (userTemplates s))) then Some 0 else None)
  ∧ (∀ k, entriesToChartData (get k agg) = [])
  ∧ cashFlow agg = 0
  ∧ netWorthValue agg = 0
  ∧ userTemplates s' = userTemplates s
  ∧ settings s' = settings s
  ∧ selectedMonth s' = selectedMonth s
  ∧ snackbar s' = snackbar s
  ∧ resetData false monthKey s = s.
Proof.
  intros s' agg.
  assert (∀ k c v, get k agg !! c = Some v → v = 0) as Hz.
  { apply foldl_addKey_all_zero; [|by intros []].
    intros key r k c v Hr Hv. unfold s', resetData, createInitialData in Hr. simpl in Hr.
    apply lookup_singleton_Some in Hr as [_ <-].
    rewrite get_emptyMonth in Hv. by apply zeroed_Some in Hv as [-> _]. }
  split; [|split; [|split; [|split; [|split]]]].
  - intros key. unfold s', resetData, createInitialData. simpl. split.
    + intros [r Hr]. by apply lookup_singleton_Some in Hr as [-> _].
    + intros ->. rewrite lookup_singleton_eq. eauto.
  - intros k c. unfold amountOf, s', resetData, createInitialData. simpl.
    rewrite lookup_singleton_eq. simpl. rewrite get_emptyMonth. apply zeroed_lookup.
  - intros k. apply entriesToChartData_all_zero, Hz.
  - unfold cashFlow. rewrite (sum_all_zero (m_income agg)), (sum_all_zero (m_expense agg));
      [done|apply (Hz expense)|apply (Hz income)].
  - unfold netWorthValue.
    rewrite (sum_all_zero (m_saving agg)), (sum_all_zero (m_investment agg));
      [done|apply (Hz investment)|apply (Hz saving)].
  - done.
Qed.

(** ** The tag of a row (X21) *)

(** X21.  The tag of a row is read off the record of the selected month
    (the zero-filled template when it has none).  A name has a tag
    exactly when some bucket of that record has an entry for it, so
    every chart row of the selected month has one.  For a row of the
    combined saving and investment chart the tag names the bucket that
    an edit of the row writes to, unless the name is also an entry of
    expense or income: then the tag says so, while the edit still goes
    to saving or investment. *)
Theorem tagFor_and_the_edit_target (cat : string) (s : State) :
  let T := TEMPLATES (userTemplates s) in
  let base := monthOr T (selectedMonth s) (data s) in
  (tagFor cat s = None ↔ ∀ k, get k base !! cat = None)
  ∧ (∀ k v, (cat, v) ∈ entriesToChartData (get k base) → is_Some (tagFor cat s))
  ∧ (m_expense base !! cat = None → m_income base !! cat = None →
     is_Some (tagFor cat s) →
     tagFor cat s = Some (tagOf (targetBucket T SavingInvest base cat)))
  ∧ (is_Some (m_expense base !! cat) →
     tagFor cat s = Some TagExpense
     ∧ targetBucket T SavingInvest base cat ≠ expense)
  ∧ (m_expense base !! cat = None → is_Some (m_income base !! cat) →
     tagFor cat s = Some TagIncome
     ∧ targetBucket T SavingInvest base cat ≠ income).
Proof.
  intros T base.
  assert (∀ o, hasOwnProperty o cat = true ∨ hasOwnProperty o cat = false ∧ o !! cat = None)
    as Hown.
  { intros o. destruct (hasOwnProperty o cat) eqn:E; [by left|right].
    split; [done|]. by apply hasOwnProperty_false. }
  assert (targetBucket T SavingInvest base cat = saving
          ∨ targetBucket T SavingInvest base cat = investment) as Htarget.
  { unfold targetBucket.
    destruct (hasOwnProperty (m_saving base) cat); [by left|].
    destruct (hasOwnProperty (m_investment base) cat); [by right|].
    destruct (bool_decide (cat ∈ t_saving T)); [by left|by right]. }
  assert (tagFor cat s = None ↔ ∀ k, get k base !! cat = None) as Hnone.
  { unfold tagFor. fold T base. split.
    - destruct (Hown (m_expense base)) as [->|[-> He]]; [done|].
      destruct (Hown (m_income base)) as [->|[-> Hi]]; [done|].
      destruct (Hown (m_saving base)) as [->|[-> Hs]]; [done|].
      destruct (Hown (m_investment base)) as [->|[-> Hv]]; [done|].
      by intros _ [].
    - intros H.
      pose proof (H expense) as He. pose proof (H income) as Hi.
      pose proof (H saving) as Hs. pose proof (H investment) as Hv.
      apply hasOwnProperty_false in He, Hi, Hs, Hv. simpl in He, Hi, Hs, Hv.
      by rewrite He, Hi, Hs, Hv. }
  split; [done|]. split; [|split; [|split]].
  - intros k v [Hv _]%elem_of_entriesToChartData.
    destruct (tagFor cat s); [eauto|].
    by rewrite (proj1 Hnone eq_refl k) in Hv.
  - intros He Hi Hsome. unfold tagFor, targetBucket in *. fold T base in Hsome |- *.
    rewrite (proj2 (hasOwnProperty_false _ _) He), (proj2 (hasOwnProperty_false _ _) Hi)
      in Hsome |- *.
    destruct (hasOwnProperty (m_saving base) cat); [done|].
    destruct (hasOwnProperty (m_investment base) cat); [done|].
    by destruct Hsome.
  - intros He%hasOwnProperty_true. split.
    + unfold tagFor. fold T base. by rewrite He.
    + by destruct Htarget as [->| ->].
  - intros He%hasOwnProperty_false Hi%hasOwnProperty_true. split.
    + unfold tagFor. fold T base. by rewrite He, Hi.
    + by destruct Htarget as [->| ->].
Qed.

(** * The backup round trip (C3) *)

(** ** White space and literals *)

Lemma skipWs_spaces n s : JSON.skipWs (JSON.spaces n s) = JSON.skipWs s.
Proof. induction n as [|n IH]; [done|]. exact IH. Qed.

Lemma skipWs_newline n s : JSON.skipWs (JSON.newline n s) = JSON.skipWs s.
Proof. unfold JSON.newline. simpl. apply skipWs_spaces. Qed.

Lemma valueStart_facts c :
  valueStart c = true →
  JSON.isWs c = false ∧ Ascii.eqb c "]" = false ∧ Ascii.eqb c "}" = false.
Proof. destruct c as [[] [] [] [] [] [] [] []]; vm_compute; intros H; done. Qed.

Lemma skipWs_valueStart c r :
  valueStart c = true → JSON.skipWs (String c r) = String c r.
Proof. intros (H & _)%valueStart_facts. simpl. by rewrite H. Qed.

(** ** Numbers *)

Lemma onto_append (a b : string) : JSON.onto a b = a +:+ b.
Proof. induction a as [|c a IH]; [done|]. simpl. by rewrite IH. Qed.

Lemma pretty_N_go_onto (x : N) (s t : string) :
  JSON.onto (pretty_N_go x s) t = pretty_N_go x (JSON.onto s t).
Proof.
  revert s. induction (N.lt_wf_0 x) as [x _ IH]. intros s.
  destruct (decide (0 < x)%N) as [Hx|Hx].
  - rewrite !(pretty_N_go_step x) by done.
    rewrite IH by (by apply N.div_lt). done.
  - assert (x = 0%N) as -> by lia. by rewrite !pretty_N_go_0.
Qed.

Lemma digitsPrefix_pretty_N_go (x : N) :
  ∃ k, ∀ acc s,
    JSON.digitsPrefix acc (pretty_N_go x s) = JSON.digitsPrefix (acc * k + Z.of_N x) s.
Proof.
  induction (N.lt_wf_0 x) as [x _ IH].
  destruct (decide (0 < x)%N) as [Hx|Hx].
  - destruct (IH (x `div` 10)%N) as [k Hk]; [by apply N.div_lt|].
    exists (10 * k). intros acc s.
    rewrite pretty_N_go_step, Hk by done. simpl.
    rewrite pretty_char_digit by (by apply N.mod_lt).
    f_equal. pose proof (N.div_mod x 10). lia.
  - exists 1. intros acc s. assert (x = 0%N) as -> by lia.
    rewrite pretty_N_go_0. f_equal. lia.
Qed.

Lemma digitsPrefix_stop acc rest :
  endsNumber rest = true → JSON.digitsPrefix acc rest = (acc, rest).
Proof.
  destruct rest as [|c r]; [done|]. simpl.
  intros [Hd _]%andb_true_iff. unfold isDigit in Hd.
  apply negb_true_iff, bool_decide_eq_false in Hd.
  destruct (digit c); [|done]. by destruct Hd.
Qed.

Lemma pretty_N_go_head (x : N) (s : string) :
  (0 < x)%N →
  ∃ c r d, pretty_N_go x s = String c r ∧ digit c = Some d ∧ d ≠ 0.
Proof.
  revert s. induction (N.lt_wf_0 x) as [x _ IH]. intros s Hx.
  rewrite pretty_N_go_step by done.
  destruct (decide (0 < x `div` 10)%N) as [Hq|Hq].
  - apply IH; [by apply N.div_lt|done].
  - assert ((x `div` 10)%N = 0%N) as ->
      by (destruct (x `div` 10)%N; [done|by destruct Hq]).
    rewrite pretty_N_go_0.
    eexists _, _, _. split; [done|]. split.
    + apply pretty_char_digit. by apply N.mod_lt.
    + pose proof (N.div_mod x 10). lia.
Qed.

Lemma parseNat_pretty_N_go (x : N) (rest : string) :
  (0 < x)%N → endsNumber rest = true →
  JSON.parseNat (pretty_N_go x rest) = Some (Z.of_N x, rest).
Proof.
  intros Hx Hrest.
  destruct (pretty_N_go_head x rest Hx) as (c & r & d & Hp & Hc & Hd).
  assert (JSON.parseNat (String c r) = Some (JSON.digitsPrefix 0 (String c r))) as H.
  { simpl. rewrite Hc. by rewrite (proj2 (Z.eqb_neq d 0) Hd). }
  rewrite Hp, H, <- Hp.
  destruct (digitsPrefix_pretty_N_go x) as [k Hk]. rewrite Hk.
  rewrite digitsPrefix_stop by done. do 2 f_equal.
Qed.

Lemma endsNumber_fraction rest : endsNumber rest = true → JSON.fractionAhead rest = false.
Proof.
  destruct rest as [|c r]; [done|]. unfold endsNumber.
  intros [_ H]%andb_true_iff. by apply negb_true_iff in H.
Qed.

Lemma parseNumber_pretty (z : Z) (rest : string) :
  endsNumber rest = true →
  JSON.parseNumber (JSON.onto (pretty z) rest) = Some (z, rest)
  ∧ ∃ c r, JSON.onto (pretty z) rest = String c r
           ∧ (isDigit c = true ∨ c = "-"%char).
Proof.
  intros Hrest. pose proof (endsNumber_fraction rest Hrest) as Hf.
  destruct z as [|p|p].
  - change (JSON.onto (pretty 0) rest) with (String "0" rest). split.
    + unfold JSON.parseNumber. simpl. destruct rest as [|c r]; [done|].
      unfold endsNumber in Hrest. apply andb_true_iff in Hrest as [Hd _].
      apply negb_true_iff in Hd. rewrite Hd.
      change (JSON.fractionAhead (String c r)) with (JSON.fractionAhead (String c r)).
      by rewrite Hf.
    + eexists _, _. split; [done|]. by left.
  - change (pretty (Z.pos p)) with (pretty_N_go (N.pos p) "").
    rewrite pretty_N_go_onto. simpl.
    destruct (pretty_N_go_head (N.pos p) rest ltac:(lia)) as (c & r & d & Hp & Hc & Hd).
    pose proof (parseNat_pretty_N_go (N.pos p) rest ltac:(lia) Hrest) as Hn.
    rewrite Hp in Hn |- *. split.
    + unfold JSON.parseNumber. rewrite (digit_not_dash c d Hc), Hn, Hf. done.
    + eexists _, _. split; [done|]. left. unfold isDigit. rewrite Hc.
      by apply bool_decide_eq_true_2.
  - change (pretty (Z.neg p)) with ("-" +:+ pretty_N_go (N.pos p) "").
    rewrite append_String. simpl.
    change (JSON.onto ("" +:+ pretty_N_go (N.pos p) "") rest)
      with (JSON.onto (pretty_N_go (N.pos p) "") rest).
    rewrite pretty_N_go_onto. simpl. split.
    + unfold JSON.parseNumber. simpl.
      rewrite (parseNat_pretty_N_go (N.pos p) rest ltac:(lia) Hrest), Hf. done.
    + eexists _, _. split; [done|]. by right.
Qed.

(** ** String literals *)

Lemma parseChars_escapeChar c tail t rest :
  JSON.parseChars tail = Some (t, rest) →
  JSON.parseChars (JSON.escapeChar c tail) = Some (String c t, rest).
Proof.
  intros H.
  destruct c as [[] [] [] [] [] [] [] []];
    cbv [JSON.escapeChar Ascii.eqb Bool.eqb dquote JSON.backslash andb N_of_ascii
         N_of_digits N.ltb N.compare Pos.compare Pos.compare_cont N.add N.mul Pos.add
         Pos.mul Pos.succ JSON.hexChar N.div N.modulo];
    simpl; rewrite ?H; reflexivity.
Qed.

Lemma parseChars_escape s rest :
  JSON.parseChars (JSON.escape s (String dquote rest)) = Some (s, rest).
Proof.
  induction s as [|c s IH]; [reflexivity|].
  simpl. by apply parseChars_escapeChar.
Qed.

(** ** Arrays and objects *)

Lemma write_JArr indent x l rest :
  JSON.write indent (JArr (x :: l)) rest =
  String "[" (JSON.newline (2 + indent) (writeItems indent (x :: l) rest)).
Proof.
  cbn [JSON.write]. do 2 f_equal.
  revert x. induction l as [|y l IH]; intros x; [done|].
  cbn [writeItems]. do 3 f_equal. exact (IH y).
Qed.

Lemma write_JObj indent kx l rest :
  JSON.write indent (JObj (kx :: l)) rest =
  String "{" (JSON.newline (2 + indent) (writeProps indent (kx :: l) rest)).
Proof.
  cbn [JSON.write]. do 2 f_equal.
  revert kx. induction l as [|ky l IH]; intros [k x]; [done|].
  cbn [writeProps]. do 6 f_equal. exact (IH ky).
Qed.

Lemma write_head indent v rest :
  (∀ z, v = JNum z → endsNumber rest = true) →
  ∃ c r, JSON.write indent v rest = String c r ∧ valueStart c = true.
Proof.
  intros Hnum. destruct v as [|[]|z| | |s|[|x l]|[|kx l]];
    try (eexists _, _; split; [reflexivity|reflexivity]).
  - destruct (parseNumber_pretty z rest (Hnum z eq_refl)) as (_ & c & r & Hp & Hc).
    exists c, r. split; [exact Hp|]. unfold valueStart.
    destruct Hc as [->| ->]; [|done]. done.
Qed.

Lemma size_pos v : (1 ≤ size v)%nat.
Proof. destruct v; simpl; lia. Qed.

Lemma size_JArr_cons x l : size (JArr (x :: l)) = (size x + size (JArr l))%nat.
Proof. simpl. lia. Qed.

Lemma size_JObj_cons k x l : size (JObj ((k, x) :: l)) = (size x + size (JObj l))%nat.
Proof. simpl. lia. Qed.

Lemma parseValue_skipWs fuel s :
  JSON.parseValue fuel (JSON.skipWs s) = JSON.parseValue fuel s.
Proof.
  assert (JSON.skipWs (JSON.skipWs s) = JSON.skipWs s) as H.
  { induction s as [|c s IH]; [done|]. simpl.
    destruct (JSON.isWs c) eqn:E; [done|]. simpl. by rewrite E. }
  destruct fuel; [done|]. simpl. by rewrite H.
Qed.

Lemma parseValue_newline fuel n s :
  JSON.parseValue fuel (JSON.newline n s) = JSON.parseValue fuel s.
Proof. by rewrite <- parseValue_skipWs, skipWs_newline, parseValue_skipWs. Qed.

Lemma parseItems_newline fuel n k s :
  JSON.parseItems (JSON.parseValue fuel) n (JSON.newline k s) =
  JSON.parseItems (JSON.parseValue fuel) n s.
Proof. destruct n; [done|]. simpl. by rewrite parseValue_newline. Qed.

Lemma parseProps_newline fuel n k s :
  JSON.parseProps (JSON.parseValue fuel) n (JSON.newline k s) =
  JSON.parseProps (JSON.parseValue fuel) n s.
Proof. destruct n; [done|]. cbn [JSON.parseProps]. by rewrite skipWs_newline. Qed.

Lemma writeItems_cons indent x y l rest :
  writeItems indent (x :: y :: l) rest =
  JSON.write (2 + indent) x
    (String "," (JSON.newline (2 + indent) (writeItems indent (y :: l) rest))).
Proof. reflexivity. Qed.

Lemma writeProps_cons indent k x ky l rest :
  writeProps indent ((k, x) :: ky :: l) rest =
  JSON.quote k (String ":" (String " "
    (JSON.write (2 + indent) x
       (String "," (JSON.newline (2 + indent) (writeProps indent (ky :: l) rest)))))).
Proof. reflexivity. Qed.

Lemma parseItems_writeItems (l : list json) :
  Forall readsBack l →
  ∀ x indent rest fuel n,
    (size (JArr (x :: l)) ≤ S fuel)%nat →
    (length (x :: l) ≤ n)%nat →
    readsBack x →
    JSON.parseItems (JSON.parseValue fuel) n (writeItems indent (x :: l) rest) =
    Some (List.map nullify (x :: l), rest).
Proof.
  induction 1 as [|y l Hy Hl IH]; intros x indent rest fuel n Hsize Hn Hx;
    (destruct n as [|n]; [simpl in Hn; lia|]).
  - cbn [writeItems JSON.parseItems].
    rewrite Hx; [| simpl in Hsize; lia | done].
    rewrite skipWs_newline. reflexivity.
  - rewrite size_JArr_cons in Hsize. pose proof (size_pos (JArr (y :: l))).
    rewrite writeItems_cons. cbn [JSON.parseItems].
    rewrite Hx; [| lia | done].
    change (JSON.skipWs (String "," ?r)) with (String "," r).
    change (Ascii.eqb "," ",") with true. cbv iota.
    rewrite parseItems_newline, IH; [done|lia| |done].
    simpl in Hn |- *. lia.
Qed.

Lemma parseProps_writeProps (l : list (string * json)) :
  Forall (λ kv, readsBack kv.2) l →
  ∀ k x indent rest fuel n,
    (size (JObj ((k, x) :: l)) ≤ S fuel)%nat →
    (length ((k, x) :: l) ≤ n)%nat →
    readsBack x →
    JSON.parseProps (JSON.parseValue fuel) n (writeProps indent ((k, x) :: l) rest) =
    Some (List.map (λ '(k, x), (k, nullify x)) ((k, x) :: l), rest).
Proof.
  induction 1 as [|[k' y] l Hy Hl IH]; intros k x indent rest fuel n Hsize Hn Hx;
    (destruct n as [|n]; [simpl in Hn; lia|]).
  - cbn [writeProps JSON.parseProps]. unfold JSON.quote.
    change (JSON.skipWs (String dquote ?r)) with (String dquote r).
    change (Ascii.eqb dquote dquote) with true. cbv iota.
    rewrite parseChars_escape.
    change (JSON.skipWs (String ":" ?r)) with (String ":" r).
    change (Ascii.eqb ":" ":") with true. cbv iota.
    rewrite <- parseValue_skipWs.
    change (JSON.skipWs (String " " ?r)) with (JSON.skipWs r).
    rewrite parseValue_skipWs.
    rewrite Hx; [| simpl in Hsize; lia | done].
    rewrite skipWs_newline. reflexivity.
  - rewrite size_JObj_cons in Hsize. pose proof (size_pos (JObj ((k', y) :: l))).
    rewrite writeProps_cons. cbn [JSON.parseProps]. unfold JSON.quote at 1.
    change (JSON.skipWs (String dquote ?r)) with (String dquote r).
    change (Ascii.eqb dquote dquote) with true. cbv iota.
    rewrite parseChars_escape.
    change (JSON.skipWs (String ":" ?r)) with (String ":" r).
    change (Ascii.eqb ":" ":") with true. cbv iota.
    rewrite <- parseValue_skipWs.
    change (JSON.skipWs (String " " ?r)) with (JSON.skipWs r).
    rewrite parseValue_skipWs.
    rewrite Hx; [| lia | done].
    change (JSON.skipWs (String "," ?r)) with (String "," r).
    change (Ascii.eqb "," ",") with true. cbv iota.
    rewrite parseProps_newline.
    rewrite (IH k' y); [done|lia| |done].
    simpl in Hn |- *. lia.
Qed.

Lemma distinctKeys_JArr items :
  distinctKeys (JArr items) ↔ Forall distinctKeys items.
Proof.
  simpl. induction items as [|x l IH]; [by split|].
  rewrite Forall_cons, <- IH. done.
Qed.

Lemma distinctKeys_JObj props :
  distinctKeys (JObj props) ↔
  NoDup props.*1 ∧ Forall (λ kv, distinctKeys kv.2) props.
Proof.
  simpl. apply and_iff_compat_l.
  induction props as [|[k x] l IH]; [by split|].
  rewrite Forall_cons, <- IH. done.
Qed.

Lemma putProp_new k v props :
  k ∉ props.*1 → JSON.putProp k v props = (props ++ [(k, v)])%list.
Proof.
  induction props as [|[k' v'] l IH]; [done|]. simpl.
  intros Hk. apply not_elem_of_cons in Hk as [Hne Hk].
  rewrite (proj2 (String.eqb_neq k' k)) by done. by rewrite IH.
Qed.

Lemma object_distinct props : NoDup props.*1 → JSON.object props = JObj props.
Proof.
  intros Hnd. unfold JSON.object. f_equal.
  assert (∀ acc : list (string * json), NoDup ((acc ++ props)%list).*1 →
            foldl (λ acc kv, JSON.putProp kv.1 kv.2 acc) acc props = (acc ++ props)%list)
    as H; [|by apply (H [])].
  clear Hnd. induction props as [|[k v] l IH]; intros acc Hnd; simpl.
  - by rewrite app_nil_r.
  - rewrite putProp_new.
    + rewrite IH; rewrite <- app_assoc; done.
    + rewrite fmap_app in Hnd. apply NoDup_app in Hnd as (_ & Hd & _).
      intros Hin. apply (Hd _ Hin). simpl. by left.
Qed.

Lemma nullify_keys (props : list (string * json)) :
  (List.map (λ '(k, x), (k, nullify x)) props : list (string * json)).*1 = props.*1.
Proof. induction props as [|[k x] l IH]; [done|]. simpl in *. by f_equal. Qed.

Lemma length_le_size_JArr (l : list json) : (S (length l) ≤ size (JArr l))%nat.
Proof.
  induction l as [|y l IHl]; [simpl; lia|].
  rewrite size_JArr_cons. pose proof (size_pos y). cbn [length]. lia.
Qed.

Lemma length_le_size_JObj (l : list (string * json)) : (S (length l) ≤ size (JObj l))%nat.
Proof.
  induction l as [|[k y] l IHl]; [simpl; lia|].
  rewrite size_JObj_cons. pose proof (size_pos y). cbn [length]. lia.
Qed.

Lemma parseValue_bracket fuel r :
  JSON.parseValue (S fuel) (String "[" r) =
  match JSON.skipWs r with
  | String c' r' =>
      if Ascii.eqb c' "]" then Some (JArr [], r')
      else
        match JSON.parseItems (JSON.parseValue fuel) fuel r with
        | Some (vs, rest) => Some (JArr vs, rest)
        | None => None
        end
  | EmptyString => None
  end.
Proof. reflexivity. Qed.

Lemma parseValue_brace fuel r :
  JSON.parseValue (S fuel) (String "{" r) =
  match JSON.skipWs r with
  | String c' r' =>
      if Ascii.eqb c' "}" then Some (JObj [], r')
      else
        match JSON.parseProps (JSON.parseValue fuel) fuel r with
        | Some (ps, rest) => Some (JSON.object ps, rest)
        | None => None
        end
  | EmptyString => None
  end.
Proof. reflexivity. Qed.

Lemma parseValue_quote fuel r :
  JSON.parseValue (S fuel) (String dquote r) =
  match JSON.parseChars r with
  | Some (x, rest) => Some (JStr x, rest)
  | None => None
  end.
Proof. reflexivity. Qed.

(** Reading back what was written: the value comes back with its
    numbers that are not finite replaced by [null]. *)
Lemma parseValue_write (v : json) : distinctKeys v → readsBack v.
Proof.
  induction v as [|b|z| |b|s|items IH|props IH] using json_nested_ind;
    intros Hd indent rest fuel Hsize Hrest;
    (destruct fuel as [|fuel]; [simpl in Hsize; lia|]).
  - reflexivity.
  - by destruct b.
  - destruct (parseNumber_pretty z rest (Hrest z eq_refl)) as (Hp & c & r & Hw & Hc).
    cbn [JSON.write JSON.parseValue nullify].
    rewrite Hw in Hp |- *.
    assert (valueStart c = true) as Hv
      by (unfold valueStart; destruct Hc as [->| ->]; done).
    rewrite (skipWs_valueStart c r Hv), Hp.
    destruct Hc as [Hc| ->]; [|reflexivity].
    clear -Hc. destruct c as [[] [] [] [] [] [] [] []]; vm_compute in Hc; try discriminate Hc;
      reflexivity.
  - reflexivity.
  - reflexivity.
  - cbn [JSON.write nullify]. unfold JSON.quote.
    by rewrite parseValue_quote, parseChars_escape.
  - apply distinctKeys_JArr in Hd.
    assert (Forall readsBack items) as Hall.
    { apply Forall_forall. intros x Hx. rewrite !Forall_forall in IH, Hd. by apply IH, Hd. }
    destruct items as [|x l]; [reflexivity|].
    pose proof (length_le_size_JArr (x :: l)) as Hlen.
    rewrite write_JArr, parseValue_bracket. cbn [nullify].
    apply Forall_cons in Hall as [Hx Hl].
    destruct (write_head (2 + indent) x
                match l with
                | [] => JSON.newline indent (String "]" rest)
                | _ :: _ => String "," (JSON.newline (2 + indent) (writeItems indent l rest))
                end) as (c & r & Hw & Hc); [by destruct l|].
    rewrite skipWs_newline, parseItems_newline.
    rewrite (parseItems_writeItems l Hl x indent rest fuel fuel); [|done|lia|done].
    cbn [writeItems]. rewrite Hw, (skipWs_valueStart c r Hc).
    destruct (valueStart_facts c Hc) as (_ & -> & _). done.
  - apply distinctKeys_JObj in Hd as [Hnd Hd].
    assert (Forall (λ kv, readsBack kv.2) props) as Hall.
    { apply Forall_forall. intros x Hx. rewrite !Forall_forall in IH, Hd. by apply IH, Hd. }
    destruct props as [|[k x] l]; [reflexivity|].
    pose proof (length_le_size_JObj ((k, x) :: l)) as Hlen.
    rewrite write_JObj, parseValue_brace. cbn [nullify].
    apply Forall_cons in Hall as [Hx Hl].
    rewrite skipWs_newline, parseProps_newline.
    rewrite (parseProps_writeProps l Hl k x indent rest fuel fuel); [|done|lia|done].
    rewrite object_distinct by (by rewrite nullify_keys).
    cbn [writeProps]. unfold JSON.quote.
    change (JSON.skipWs (String dquote ?r)) with (String dquote r).
    change (Ascii.eqb dquote "}") with false. done.
Qed.

(** ** Enough fuel *)

Lemma length_onto a b :
  String.length (JSON.onto a b) = (String.length a + String.length b)%nat.
Proof. induction a as [|c a IH]; [done|]. simpl. by rewrite IH. Qed.

Lemma length_pretty (z : Z) : (1 ≤ String.length (pretty z))%nat.
Proof.
  destruct z as [|p|p].
  - simpl. done.
  - change (pretty (Z.pos p)) with (pretty_N_go (N.pos p) "").
    destruct (pretty_N_go_head (N.pos p) "" ltac:(lia)) as (c & r & d & -> & _).
    simpl. lia.
  - change (pretty (Z.neg p)) with ("-" +:+ pretty_N_go (N.pos p) "").
    rewrite append_String. simpl. lia.
Qed.

Lemma length_escape s rest :
  (String.length rest ≤ String.length (JSON.escape s rest))%nat.
Proof.
  induction s as [|c s IH]; [done|]. simpl.
  etrans; [exact IH|]. generalize (JSON.escape s rest). intros t.
  unfold JSON.escapeChar.
  repeat match goal with |- context [if ?b then _ else _] => destruct b end;
    simpl; lia.
Qed.

Lemma length_spaces n rest :
  String.length (JSON.spaces n rest) = (n + String.length rest)%nat.
Proof. induction n as [|n IH]; [done|]. simpl. by rewrite IH. Qed.

Lemma length_newline n rest :
  String.length (JSON.newline n rest) = (S n + String.length rest)%nat.
Proof. unfold JSON.newline. simpl. by rewrite length_spaces. Qed.

Lemma length_writeItems (l : list json) :
  Forall longEnough l →
  ∀ indent rest,
    (size (JArr l) + String.length rest ≤
     S (String.length (writeItems indent l rest)))%nat.
Proof.
  induction 1 as [|x l Hx Hl IH]; intros indent rest; [simpl; lia|].
  rewrite size_JArr_cons. cbn [writeItems].
  destruct l as [|y l].
  - pose proof (Hx (2 + indent)%nat (JSON.newline indent (String "]" rest))) as Hx'.
    rewrite length_newline in Hx'. simpl in Hx' |- *. lia.
  - pose proof (Hx (2 + indent)%nat
                  (String "," (JSON.newline (2 + indent) (writeItems indent (y :: l) rest))))
      as Hx'.
    change (String.length (String "," ?t)) with (S (String.length t)) in Hx'.
    rewrite length_newline in Hx'. specialize (IH indent rest). lia.
Qed.

Lemma length_writeProps (l : list (string * json)) :
  Forall (λ kv, longEnough kv.2) l →
  ∀ indent rest,
    (size (JObj l) + String.length rest ≤
     S (String.length (writeProps indent l rest)))%nat.
Proof.
  induction 1 as [|[k x] l Hx Hl IH]; intros indent rest; [simpl; lia|].
  rewrite size_JObj_cons. cbn [writeProps]. unfold JSON.quote.
  change (String.length (String dquote ?t)) with (S (String.length t)).
  etrans; [|apply le_n_S, le_S, length_escape].
  change (String.length (String dquote (String ":" (String " " ?t))))
    with (S (S (S (String.length t)))).
  simpl in Hx.
  destruct l as [|y l].
  - pose proof (Hx (2 + indent)%nat (JSON.newline indent (String "}" rest))) as Hx'.
    rewrite length_newline in Hx'. simpl in Hx' |- *. lia.
  - pose proof (Hx (2 + indent)%nat
                  (String "," (JSON.newline (2 + indent) (writeProps indent (y :: l) rest))))
      as Hx'.
    change (String.length (String "," ?t)) with (S (String.length t)) in Hx'.
    rewrite length_newline in Hx'. specialize (IH indent rest). lia.
Qed.

Lemma length_write (v : json) : longEnough v.
Proof.
  induction v as [|b|z| |b|s|items IH|props IH] using json_nested_ind;
    intros indent rest.
  - simpl. lia.
  - destruct b; simpl; lia.
  - cbn [JSON.write size]. rewrite length_onto. pose proof (length_pretty z). lia.
  - simpl. lia.
  - simpl. lia.
  - cbn [JSON.write size]. unfold JSON.quote. simpl String.length.
    pose proof (length_escape s (String dquote rest)) as H. simpl in H. lia.
  - destruct items as [|x l]; [simpl; lia|].
    rewrite write_JArr.
    change (String.length (String "[" ?t)) with (S (String.length t)).
    rewrite length_newline.
    pose proof (length_writeItems (x :: l) IH indent rest). lia.
  - destruct props as [|kx l]; [simpl; lia|].
    rewrite write_JObj.
    change (String.length (String "{" ?t)) with (S (String.length t)).
    rewrite length_newline.
    pose proof (length_writeProps (kx :: l) IH indent rest). lia.
Qed.

(** [JSON.parse(JSON.stringify(v, null, 2))] is [v] with its numbers
    that are not finite replaced by [null]. *)
Lemma parse_stringify (v : json) :
  distinctKeys v → JSON.parse (JSON.stringify v) = Some (nullify v).
Proof.
  intros Hd. unfold JSON.parse, JSON.stringify.
  rewrite (parseValue_write v Hd 0%nat ""); [done| |done].
  pose proof (length_write v 0%nat ""). simpl in *. lia.
Qed.

(** ** The stores of a backup *)

Lemma nullify_numbers (l : list (string * Z)) :
  List.map (λ '(k, x), (k, nullify x)) ((λ kv, (kv.1, JNum kv.2)) <$> l) =
  (λ kv, (kv.1, JNum kv.2)) <$> l.
Proof. induction l as [|[k z] l IH]; [done|]. simpl in *. by f_equal. Qed.

Lemma nullify_jsonOfDict d : nullify (jsonOfDict d) = jsonOfDict d.
Proof. unfold jsonOfDict. cbn [nullify]. by rewrite nullify_numbers. Qed.

Lemma distinctKeys_jsonOfDict d : distinctKeys (jsonOfDict d).
Proof.
  apply distinctKeys_JObj. split.
  - rewrite <- list_fmap_compose. apply NoDup_fst_map_to_list.
  - apply Forall_fmap, Forall_forall. by intros [k z] _.
Qed.

Lemma NoDup_bucket_names : NoDup ["income"; "saving"; "investment"; "expense"].
Proof.
  repeat (apply NoDup_cons; split;
            [rewrite ?elem_of_cons, elem_of_nil; intuition discriminate|]).
  constructor.
Qed.

Lemma nullify_jsonOfMonth m : nullify (jsonOfMonth m) = jsonOfMonth m.
Proof. unfold jsonOfMonth. cbn [nullify List.map]. by rewrite !nullify_jsonOfDict. Qed.

Lemma distinctKeys_jsonOfMonth m : distinctKeys (jsonOfMonth m).
Proof.
  apply distinctKeys_JObj. split; [apply NoDup_bucket_names|].
  repeat (apply Forall_cons; split; [apply distinctKeys_jsonOfDict|]). constructor.
Qed.

Lemma nullify_months (l : list (string * Month)) :
  List.map (λ '(k, x), (k, nullify x)) ((λ kv, (kv.1, jsonOfMonth kv.2)) <$> l) =
  (λ kv, (kv.1, jsonOfMonth kv.2)) <$> l.
Proof.
  induction l as [|[k m] l IH]; [done|]. simpl in *.
  f_equal; [|done]. f_equal. apply nullify_jsonOfMonth.
Qed.

Lemma nullify_jsonOfData d : nullify (jsonOfData d) = jsonOfData d.
Proof. unfold jsonOfData. cbn [nullify List.map]. by rewrite nullify_months. Qed.

Lemma distinctKeys_jsonOfData d : distinctKeys (jsonOfData d).
Proof.
  apply distinctKeys_JObj. split; [apply NoDup_singleton|].
  apply Forall_cons. split; [|constructor]. simpl.
  apply distinctKeys_JObj. split.
  - rewrite <- list_fmap_compose. apply NoDup_fst_map_to_list.
  - apply Forall_fmap, Forall_forall. intros [k m] _. apply distinctKeys_jsonOfMonth.
Qed.

Lemma nullify_names (l : list string) : List.map nullify (JStr <$> l) = JStr <$> l.
Proof. induction l as [|x l IH]; [done|]. simpl in *. by f_equal. Qed.

Lemma nullify_jsonOfTemplates t : nullify (jsonOfTemplates t) = jsonOfTemplates t.
Proof. unfold jsonOfTemplates. cbn [nullify List.map]. by rewrite !nullify_names. Qed.

Lemma distinctKeys_jsonOfTemplates t : distinctKeys (jsonOfTemplates t).
Proof.
  apply distinctKeys_JObj. split; [apply NoDup_bucket_names|].
  repeat (apply Forall_cons; split;
            [apply distinctKeys_JArr, Forall_fmap, Forall_forall; by intros|]).
  constructor.
Qed.

Lemma distinctKeys_jsonOfSettings x : distinctKeys (jsonOfSettings x).
Proof.
  apply distinctKeys_JObj. split.
  - repeat (apply NoDup_cons; split;
              [rewrite ?elem_of_cons, elem_of_nil; intuition discriminate|]).
    constructor.
  - repeat (apply Forall_cons; split; [done|]). constructor.
Qed.

(** What the import of a downloaded backup leaves in the stores. *)
Lemma import_of_download (st before : Stores) :
  distinctKeys (s_data st) →
  distinctKeys (s_templates st) →
  distinctKeys (s_settings st) →
  importBackup JSON.parse (downloadBackup JSON.stringify st) before =
  mkImported
    (mkStores
       (if truthy (nullify (s_data st)) then nullify (s_data st) else s_data before)
       (if truthy (nullify (s_templates st)) then nullify (s_templates st)
        else s_templates before)
       (if truthy (nullify (s_settings st)) then nullify (s_settings st)
        else s_settings before))
    false.
Proof.
  intros Hd Ht Hs. unfold importBackup, downloadBackup.
  rewrite parse_stringify.
  - reflexivity.
  - apply distinctKeys_JObj. split.
    + repeat (apply NoDup_cons; split;
                [rewrite ?elem_of_cons, elem_of_nil; intuition discriminate|]).
      constructor.
    + repeat (apply Forall_cons; split; [done|]). constructor.
Qed.


